(** * Christopher's Meat Market: the business-data update script

    A shallow embedding of [scripts/update-business-data.js] (the
    closure-aware script) and of [scripts/business-data.js], with the
    properties stated for them.

    JavaScript strings are sequences of UTF-16 code units; they are modelled
    as lists of [N].  The regular expressions of the script carry no [u]
    flag, so they too work on code units. *)

From Stdlib Require Import List NArith ZArith Bool Lia String Ascii.
Import ListNotations.

Set Warnings "-register-all".

(** ** Strings of code units *)

Abbreviation str := (list N) (only parsing).

Definition code (a : ascii) : N := N_of_ascii a.

(** Literals are written as Rocq strings.  A backquote in a literal stands
    for the double quote (code unit 34), which none of the script's string
    literals needs a backquote for. *)
Definition unit_of_ascii (a : ascii) : N :=
  if N.eqb (code a) 96 then 34%N else code a.

Fixpoint js (s : string) : str :=
  match s with
  | EmptyString => []
  | String a r => unit_of_ascii a :: js r
  end.

(** U+2013, the en dash used between two times and two dates. *)
Definition endash : N := 8211%N.

Fixpoint str_eqb (a b : str) : bool :=
  match a, b with
  | [], [] => true
  | x :: a', y :: b' => N.eqb x y && str_eqb a' b'
  | _, _ => false
  end.

Fixpoint is_prefix (p s : str) : bool :=
  match p, s with
  | [], _ => true
  | x :: p', y :: s' => N.eqb x y && is_prefix p' s'
  | _ :: _, [] => false
  end.

(** [String.prototype.includes]: does [p] occur in [s]? *)
Fixpoint includes (s p : str) : bool :=
  is_prefix p s ||
  match s with
  | [] => false
  | _ :: s' => includes s' p
  end.

(** [String.prototype.split] with a one-unit separator: the pieces between
    the separators, always at least one piece. *)
Fixpoint split_on (c : N) (s : str) : list str :=
  match s with
  | [] => [[]]
  | x :: s' =>
      if N.eqb x c then [] :: split_on c s'
      else match split_on c s' with
           | p :: ps => (x :: p) :: ps
           | [] => [[x]]
           end
  end.

(** [Array.prototype.join] *)
Fixpoint join (sep : str) (l : list str) : str :=
  match l with
  | [] => []
  | [x] => x
  | x :: r => x ++ sep ++ join sep r
  end.

(** ** Numbers as text *)

Fixpoint digits_fuel (fuel : nat) (n : N) (acc : str) : str :=
  match fuel with
  | O => acc
  | S f =>
      let acc' := (48 + n mod 10)%N :: acc in
      if N.eqb (n / 10) 0 then acc' else digits_fuel f (n / 10)%N acc'
  end.

(** Decimal text of a natural number. *)
Definition show_N (n : N) : str :=
  digits_fuel (S (N.to_nat (N.log2 n))) n [].

(** [String(n)] for an integer-valued number. *)
Definition show_Z (z : Z) : str :=
  match z with
  | Zneg p => 45%N :: show_N (Npos p)
  | _ => show_N (Z.to_N z)
  end.

(** [String.prototype.padStart(n, '0')] *)
Definition padStart0 (n : nat) (s : str) : str :=
  repeat 48%N (n - List.length s) ++ s.

(** ** Values that may be missing

    A configuration field such as [open] holds a string or [null]; a
    destructured array element may be [undefined]. *)
Inductive jsopt : Type :=
| Null
| Undefined
| Str (s : str).

(** Truthiness of such a value: [null], [undefined] and the empty string
    are falsy. *)
Definition truthy (v : jsopt) : bool :=
  match v with
  | Str (_ :: _) => true
  | _ => false
  end.

(** [ToString] *)
Definition to_string (v : jsopt) : str :=
  match v with
  | Null => js "null"
  | Undefined => js "undefined"
  | Str s => s
  end.

(** [ToString] of a value that is a string or [null]. *)
Definition string_or_null (v : option str) : str :=
  match v with
  | Some s => s
  | None => js "null"
  end.

(** The white space of [\s], of [String.prototype.trim] and of [parseInt]:
    WhiteSpace and LineTerminator of ECMA-262. *)
Definition is_space (c : N) : bool :=
  (N.eqb c 9 || N.eqb c 10 || N.eqb c 11 || N.eqb c 12 || N.eqb c 13 ||
   N.eqb c 32 || N.eqb c 160 || N.eqb c 5760 ||
   (N.leb 8192 c && N.leb c 8202) ||
   N.eqb c 8232 || N.eqb c 8233 || N.eqb c 8239 || N.eqb c 8287 ||
   N.eqb c 12288 || N.eqb c 65279)%N.

Definition is_digit (c : N) : bool := (N.leb 48 c && N.leb c 57)%N.

Fixpoint drop_spaces (s : str) : str :=
  match s with
  | c :: s' => if is_space c then drop_spaces s' else s
  | [] => []
  end.

(** The value of the longest run of decimal digits at the head of [s],
    continuing from [acc]; [None] when [s] starts with no digit. *)
Fixpoint digits_value (s : str) (acc : option Z) : option Z :=
  match s with
  | c :: s' =>
      if is_digit c then
        digits_value s'
          (Some (10 * match acc with Some a => a | None => 0 end
                 + Z.of_N (c - 48))%Z)
      else acc
  | [] => acc
  end.

(** [parseInt(s, 10)]: [None] is NaN.  The result is the mathematical
    integer; the runtime rounds it to a double, which is the same number up
    to 2^53, far above any hour of the day. *)
Definition parseInt10 (s : str) : option Z :=
  match drop_spaces s with
  | 45%N :: r => option_map Z.opp (digits_value r None)
  | 43%N :: r => digits_value r None
  | r => digits_value r None
  end.

(** ** formatTime12Hour *)

(** [const [hours, minutes] = time24.split(':')] *)
Definition split_time (time24 : str) : str * jsopt :=
  match split_on 58 time24 with
  | h :: m :: _ => (h, Str m)
  | h :: [] => (h, Undefined)
  | [] => ([], Undefined)
  end.

(** [hour % 12 || 12], where a NaN hour is falsy as well. *)
Definition hour12_of (hour : option Z) : Z :=
  match hour with
  | Some h => if Z.eqb (Z.rem h 12) 0 then 12 else Z.rem h 12
  | None => 12
  end.

(** [hour >= 12 ? 'pm' : 'am'], false for NaN. *)
Definition ampm_of (hour : option Z) : str :=
  match hour with
  | Some h => if Z.leb 12 h then js "pm" else js "am"
  | None => js "am"
  end.

Definition formatTime12Hour (time24 : jsopt) : option str :=
  if negb (truthy time24) then None
  else
    let '(hours, minutes) := split_time (to_string time24) in
    let hour := parseInt10 hours in
    Some (show_Z (hour12_of hour) ++ js ":" ++ to_string minutes
          ++ js " " ++ ampm_of hour).

(** ** Dates

    The script uses the built-in [Date] in local time only.  A [Date] holds
    a time value, milliseconds since the epoch, or NaN (an invalid date);
    here the time value is the local one (the zone offset is taken as
    constant) and [None] is NaN.  The operations are those of ECMA-262,
    section "Date Objects". *)

Local Open Scope Z_scope.

Definition msPerDay : Z := 86400000.

Definition Day (t : Z) : Z := t / msPerDay.

Definition TimeWithinDay (t : Z) : Z := t mod msPerDay.

Definition leap (y : Z) : bool :=
  (y mod 4 =? 0) && (negb (y mod 100 =? 0) || (y mod 400 =? 0)).

Definition DaysInYear (y : Z) : Z := if leap y then 366 else 365.

Definition DayFromYear (y : Z) : Z :=
  365 * (y - 1970) + (y - 1969) / 4 - (y - 1901) / 100 + (y - 1601) / 400.

(** The year of a day number: the largest [y] with [DayFromYear y <= n].
    The quotient by the mean year length is off by at most one. *)
Definition YearFromDay (n : Z) : Z :=
  let y := 1970 + (400 * n) / 146097 in
  if DayFromYear (y + 1) <=? n then y + 1
  else if DayFromYear y <=? n then y
  else y - 1.

Definition YearFromTime (t : Z) : Z := YearFromDay (Day t).

Definition DayWithinYear (t : Z) : Z := Day t - DayFromYear (YearFromTime t).

Definition InLeapYear (t : Z) : Z := if leap (YearFromTime t) then 1 else 0.

(** Month number, 0 for January. *)
Definition MonthFromTime (t : Z) : Z :=
  let d := DayWithinYear t in
  let l := InLeapYear t in
  if d <? 31 then 0
  else if d <? 59 + l then 1
  else if d <? 90 + l then 2
  else if d <? 120 + l then 3
  else if d <? 151 + l then 4
  else if d <? 181 + l then 5
  else if d <? 212 + l then 6
  else if d <? 243 + l then 7
  else if d <? 273 + l then 8
  else if d <? 304 + l then 9
  else if d <? 334 + l then 10
  else 11.

(** Day of the month, from 1. *)
Definition DateFromTime (t : Z) : Z :=
  let d := DayWithinYear t in
  let l := InLeapYear t in
  match MonthFromTime t with
  | 0 => d + 1
  | 1 => d - 30
  | 2 => d - 58 - l
  | 3 => d - 89 - l
  | 4 => d - 119 - l
  | 5 => d - 150 - l
  | 6 => d - 180 - l
  | 7 => d - 211 - l
  | 8 => d - 242 - l
  | 9 => d - 272 - l
  | 10 => d - 303 - l
  | _ => d - 333 - l
  end.

(** Day of the week, 0 for Sunday. *)
Definition WeekDay (t : Z) : Z := (Day t + 4) mod 7.

(** Days of the year before the first of month [m] (0 for January). *)
Definition DaysBeforeMonth (y m : Z) : Z :=
  let l := if leap y then 1 else 0 in
  match m with
  | 0 => 0
  | 1 => 31
  | 2 => 59 + l
  | 3 => 90 + l
  | 4 => 120 + l
  | 5 => 151 + l
  | 6 => 181 + l
  | 7 => 212 + l
  | 8 => 243 + l
  | 9 => 273 + l
  | 10 => 304 + l
  | _ => 334 + l
  end.

(** [MakeDay(year, month, date)]: the day number of the first of the month,
    plus [date - 1]; a month outside 0..11 carries into the year. *)
Definition MakeDay (year month date : Z) : Z :=
  let ym := year + month / 12 in
  let mn := month mod 12 in
  DayFromYear ym + DaysBeforeMonth ym mn + date - 1.

Definition MakeTime (hour min sec ms : Z) : Z :=
  hour * 3600000 + min * 60000 + sec * 1000 + ms.

Definition MakeDate (day time : Z) : Z := day * msPerDay + time.

Definition DaysInMonth (y m : Z) : Z :=
  match m with
  | 1 => 31 | 2 => if leap y then 29 else 28 | 3 => 31 | 4 => 30
  | 5 => 31 | 6 => 30 | 7 => 31 | 8 => 31 | 9 => 30 | 10 => 31
  | 11 => 30 | 12 => 31
  | _ => 0
  end.

(** A calendar date: year, month (1..12), day of the month. *)
Definition date := (Z * Z * Z)%type.

Definition valid_date (d : date) : bool :=
  let '(y, m, dd) := d in
  (0 <=? y) && (y <=? 9999) && (1 <=? m) && (m <=? 12)
  && (1 <=? dd) && (dd <=? DaysInMonth y m).

Definition digit_val (c : N) : option Z :=
  if is_digit c then Some (Z.of_N (c - 48)) else None.

Fixpoint number_of_digits (s : str) (acc : Z) : option Z :=
  match s with
  | [] => Some acc
  | c :: s' =>
      match digit_val c with
      | Some v => number_of_digits s' (10 * acc + v)
      | None => None
      end
  end.

(** A date string "YYYY-MM-DD" naming a day of the calendar.  What [Date]
    makes of any other string is left to the implementation by ECMA-262;
    the model gives those the invalid date. *)
Definition parse_iso_date (s : str) : option date :=
  match s with
  | [y1; y2; y3; y4; h1; m1; m2; h2; d1; d2] =>
      if N.eqb h1 45 && N.eqb h2 45 then
        match number_of_digits [y1; y2; y3; y4] 0,
              number_of_digits [m1; m2] 0,
              number_of_digits [d1; d2] 0 with
        | Some y, Some m, Some d =>
            if valid_date (y, m, d) then Some (y, m, d) else None
        | _, _, _ => None
        end
      else None
  | _ => None
  end.

(** [new Date(dateStr + 'Thh:mm:ss')], a local date-time. *)
Definition new_Date_at (dateStr : str) (hh mm ss : Z) : option Z :=
  match parse_iso_date dateStr with
  | Some (y, m, d) =>
      Some (MakeDate (MakeDay y (m - 1) d) (MakeTime hh mm ss 0))
  | None => None
  end.

Definition getFullYear (d : option Z) : option Z := option_map YearFromTime d.
Definition getMonth (d : option Z) : option Z := option_map MonthFromTime d.
Definition getDate (d : option Z) : option Z := option_map DateFromTime d.
Definition getDay (d : option Z) : option Z := option_map WeekDay d.

(** [date.setDate(dt)] *)
Definition setDate (d : option Z) (dt : option Z) : option Z :=
  match d, dt with
  | Some t, Some n =>
      Some (MakeDate (MakeDay (YearFromTime t) (MonthFromTime t) n)
                     (TimeWithinDay t))
  | _, _ => None
  end.

(** [date.setHours(0, 0, 0, 0)] *)
Definition setHours0 (t : Z) : Z := MakeDate (Day t) (MakeTime 0 0 0 0).

(** [String(x)] of a number that is an integer or NaN. *)
Definition show_num (x : option Z) : str :=
  match x with
  | Some z => show_Z z
  | None => js "NaN"
  end.

Definition num_add (x : option Z) (k : Z) : option Z :=
  option_map (fun z => z + k) x.

Definition months : list str :=
  [js "January"; js "February"; js "March"; js "April"; js "May"; js "June";
   js "July"; js "August"; js "September"; js "October"; js "November";
   js "December"].

Definition days : list str :=
  [js "Sunday"; js "Monday"; js "Tuesday"; js "Wednesday"; js "Thursday";
   js "Friday"; js "Saturday"].

(** [table[i]] as text: "undefined" outside the table or at NaN. *)
Definition table_at (table : list str) (i : option Z) : str :=
  match i with
  | Some z =>
      if z <? 0 then js "undefined"
      else nth (Z.to_nat z) table (js "undefined")
  | None => js "undefined"
  end.

Definition formatDate (dateStr : str) : str :=
  let date := new_Date_at dateStr 0 0 0 in
  table_at months (getMonth date) ++ js " " ++ show_num (getDate date)
  ++ js ", " ++ show_num (getFullYear date).

Definition formatDateWithDay (dateStr : str) : str :=
  let date := new_Date_at dateStr 0 0 0 in
  table_at days (getDay date) ++ js ", " ++ table_at months (getMonth date)
  ++ js " " ++ show_num (getDate date) ++ js ", "
  ++ show_num (getFullYear date).

Definition getNextDay (dateStr : str) : str :=
  let date := new_Date_at dateStr 0 0 0 in
  let date := setDate date (num_add (getDate date) 1) in
  let year := getFullYear date in
  let month := padStart0 2 (show_num (num_add (getMonth date) 1)) in
  let day := padStart0 2 (show_num (getDate date)) in
  show_num year ++ js "-" ++ month ++ js "-" ++ day.

(** ** The business profile ([business-data.js]) *)

Record Address := {
  street : str; city : str; region : str; regionCode : str;
  postalCode : str; country : str; countryCode : str }.

Record Phone := { display : str; tel : str }.

(** The two coordinates are numbers that the script only copies into the
    JSON text; each is held as the text [JSON.stringify] gives it. *)
Record Coordinates := { latitude : str; longitude : str }.

Record DaySchedule := {
  day : str; open : jsopt; close : jsopt; closed : bool }.

Record Images := { defaultImage : str }.

Record TemporaryClosure := {
  startDate : str; endDate : str; message : jsopt }.

Record BusinessData := {
  name : str;
  shortName : str;
  address : Address;
  phone : Phone;
  coordinates : Coordinates;
  url : str;
  priceRange : str;
  description : str;
  tagline : str;
  hours : list DaySchedule;
  images : Images;
  servesCuisine : jsopt;
  temporaryClosure : option TemporaryClosure }.

(** The profile of [business-data.js]. *)
Definition businessData : BusinessData := {|
  name := js "Christopher's Meat Market";
  shortName := js "Christopher's";
  address := {|
    street := js "6146 Perth Street";
    city := js "Richmond";
    region := js "Ontario";
    regionCode := js "ON";
    postalCode := js "K0A 2Z0";
    country := js "CA";
    countryCode := js "CA" |};
  phone := {| display := js "(613) 838-8800"; tel := js "+1-613-838-8800" |};
  coordinates := {|
    latitude := js "45.193608692634434";
    longitude := js "-75.84403566715355" |};
  url := js "https://christophersmeatmarket.com";
  priceRange := js "$$";
  description := js "Family-owned butcher shop in Richmond, Ontario, specializing in quality free-range, grain-fed meats. Over 25 years of experience.";
  tagline := js "Quality Products for Families";
  hours := [
    {| day := js "Monday"; open := Null; close := Null; closed := true |};
    {| day := js "Tuesday"; open := Str (js "09:30");
       close := Str (js "17:00"); closed := false |};
    {| day := js "Wednesday"; open := Str (js "09:30");
       close := Str (js "17:00"); closed := false |};
    {| day := js "Thursday"; open := Str (js "09:30");
       close := Str (js "17:00"); closed := false |};
    {| day := js "Friday"; open := Str (js "09:30");
       close := Str (js "17:00"); closed := false |};
    {| day := js "Saturday"; open := Str (js "09:00");
       close := Str (js "17:00"); closed := false |};
    {| day := js "Sunday"; open := Null; close := Null; closed := true |} ];
  images := {| defaultImage := js "img/slide-1.jpg" |};
  servesCuisine := Str (js "Butcher Shop");
  temporaryClosure := None |}.

(** ** getActiveTemporaryClosure

    [now] is the local time value that [new Date()] reads from the clock. *)
Definition num_le (a b : option Z) : bool :=
  match a, b with
  | Some x, Some y => x <=? y
  | _, _ => false
  end.

Definition getActiveTemporaryClosure (bd : BusinessData) (now : Z)
  : option TemporaryClosure :=
  match temporaryClosure bd with
  | None => None
  | Some tc =>
      let today := Some (setHours0 now) in
      let startDate := new_Date_at (startDate tc) 0 0 0 in
      let endDate := new_Date_at (endDate tc) 23 59 59 in
      if num_le startDate today && num_le today endDate then Some tc
      else None
  end.

(** ** generateStructuredData *)

(** The object [hoursBySlot]: its keys in insertion order, each with its
    array of day names.  Every key holds a "-" and so is neither an array
    index (which [Object.keys] would list first) nor a property that an
    empty object inherits. *)
Definition slots := list (str * list str).

Fixpoint slot_push (key day : str) (m : slots) : slots :=
  match m with
  | [] => [(key, [day])]
  | (k, ds) :: r =>
      if str_eqb k key then (k, ds ++ [day]) :: r
      else (k, ds) :: slot_push key day r
  end.

Definition slot_key (h : DaySchedule) : str :=
  to_string (open h) ++ js "-" ++ to_string (close h).

Definition hoursBySlot (hs : list DaySchedule) : slots :=
  fold_left
    (fun m h => if closed h then m else slot_push (slot_key h) (day h) m)
    hs [].

(** One [OpeningHoursSpecification]. *)
Record Rule := { dayOfWeek : list str; opens : str; closes : str }.

(** [const [opens, closes] = key.split('-')]; a key always has two pieces. *)
Definition rule_of_slot (slot : str * list str) : Rule :=
  let parts := split_on 45 (fst slot) in
  {| dayOfWeek := snd slot; opens := nth 0 parts []; closes := nth 1 parts [] |}.

Definition openingHours (bd : BusinessData) (now : Z) : list Rule :=
  match getActiveTemporaryClosure bd now with
  | Some _ => []
  | None => map rule_of_slot (hoursBySlot (hours bd))
  end.

Record Options := { opt_image : jsopt; opt_description : jsopt }.

Definition no_options : Options :=
  {| opt_image := Undefined; opt_description := Undefined |}.

(** The object that [generateStructuredData] returns.  The constant
    properties ["@context"] and the three ["@type"]s are added when the
    object is written out; a property that the script leaves out is
    [None]. *)
Record StructuredDataRecord := {
  sd_name : str;
  sd_image : str;
  sd_streetAddress : str;
  sd_addressLocality : str;
  sd_addressRegion : str;
  sd_postalCode : str;
  sd_addressCountry : str;
  sd_latitude : str;
  sd_longitude : str;
  sd_url : str;
  sd_telephone : str;
  sd_priceRange : str;
  sd_openingHoursSpecification : option (list Rule);
  sd_description : str;
  sd_servesCuisine : option str }.

Definition generateStructuredData (bd : BusinessData) (now : Z)
    (options : Options) : StructuredDataRecord :=
  let openingHoursSpecification := openingHours bd now in
  {| sd_name := name bd;
     sd_image :=
       url bd ++ js "/" ++
       (if truthy (opt_image options) then to_string (opt_image options)
        else defaultImage (images bd));
     sd_streetAddress := street (address bd);
     sd_addressLocality := city (address bd);
     sd_addressRegion := regionCode (address bd);
     sd_postalCode := postalCode (address bd);
     sd_addressCountry := countryCode (address bd);
     sd_latitude := latitude (coordinates bd);
     sd_longitude := longitude (coordinates bd);
     sd_url := url bd;
     sd_telephone := tel (phone bd);
     sd_priceRange := priceRange bd;
     sd_openingHoursSpecification :=
       if (0 <? Z.of_nat (List.length openingHoursSpecification))
       then Some openingHoursSpecification else None;
     sd_description :=
       if truthy (opt_description options)
       then to_string (opt_description options) else description bd;
     sd_servesCuisine :=
       if truthy (servesCuisine bd) then Some (to_string (servesCuisine bd))
       else None |}.

(** [delete data.servesCuisine] *)
Definition delete_servesCuisine (d : StructuredDataRecord) : StructuredDataRecord :=
  {| sd_name := sd_name d; sd_image := sd_image d;
     sd_streetAddress := sd_streetAddress d;
     sd_addressLocality := sd_addressLocality d;
     sd_addressRegion := sd_addressRegion d;
     sd_postalCode := sd_postalCode d;
     sd_addressCountry := sd_addressCountry d;
     sd_latitude := sd_latitude d; sd_longitude := sd_longitude d;
     sd_url := sd_url d; sd_telephone := sd_telephone d;
     sd_priceRange := sd_priceRange d;
     sd_openingHoursSpecification := sd_openingHoursSpecification d;
     sd_description := sd_description d;
     sd_servesCuisine := None |}.

(** ** JSON.stringify(data, null, 2) *)

Inductive json : Type :=
| JString (s : str)
| JNumber (text : str)
| JArray (items : list json)
| JObject (props : list (str * json)).

Definition hex_digit (n : N) : N :=
  (if n <? 10 then 48 + n else 87 + n)%N.

(** [\uXXXX], the digits in lower case. *)
Definition unicode_escape (c : N) : str :=
  [92; 117; hex_digit (c / 4096 mod 16); hex_digit (c / 256 mod 16);
   hex_digit (c / 16 mod 16); hex_digit (c mod 16)]%N.

Definition is_lead (c : N) : bool := (N.leb 55296 c && N.leb c 56319)%N.
Definition is_trail (c : N) : bool := (N.leb 56320 c && N.leb c 57343)%N.

(** The body of QuoteJSONString: the short escapes, [\u] escapes for the
    other control units and for a surrogate without its partner. *)
Fixpoint quote_units (s : str) : str :=
  match s with
  | [] => []
  | c :: r =>
      if N.eqb c 8 then js "\b" ++ quote_units r
      else if N.eqb c 9 then js "\t" ++ quote_units r
      else if N.eqb c 10 then js "\n" ++ quote_units r
      else if N.eqb c 12 then js "\f" ++ quote_units r
      else if N.eqb c 13 then js "\r" ++ quote_units r
      else if N.eqb c 34 then js "\`" ++ quote_units r
      else if N.eqb c 92 then js "\\" ++ quote_units r
      else if N.ltb c 32 then unicode_escape c ++ quote_units r
      else if is_lead c then
        match r with
        | t :: r' =>
            if is_trail t then c :: t :: quote_units r'
            else unicode_escape c ++ quote_units r
        | [] => unicode_escape c
        end
      else if is_trail c then unicode_escape c ++ quote_units r
      else c :: quote_units r
  end.

Definition quote (s : str) : str := js "`" ++ quote_units s ++ js "`".

(** SerializeJSONProperty with a gap of two spaces; [indent] is the
    indentation of the line the value starts on. *)
Fixpoint serialize (indent : str) (v : json) : str :=
  let inner := indent ++ js "  " in
  match v with
  | JString s => quote s
  | JNumber text => text
  | JArray [] => js "[]"
  | JArray items =>
      js "[" ++ [10%N] ++ inner
      ++ join (js "," ++ [10%N] ++ inner) (map (serialize inner) items)
      ++ [10%N] ++ indent ++ js "]"
  | JObject [] => js "{}"
  | JObject props =>
      js "{" ++ [10%N] ++ inner
      ++ join (js "," ++ [10%N] ++ inner)
           (map (fun p => quote (fst p) ++ js ": " ++ serialize inner (snd p))
                props)
      ++ [10%N] ++ indent ++ js "}"
  end.

Definition JSON_stringify (v : json) : str := serialize [] v.

Definition json_of_rule (r : Rule) : json :=
  JObject [
    (js "@type", JString (js "OpeningHoursSpecification"));
    (js "dayOfWeek", JArray (map JString (dayOfWeek r)));
    (js "opens", JString (opens r));
    (js "closes", JString (closes r)) ].

Definition optional_prop (key : str) (v : option json) : list (str * json) :=
  match v with
  | Some j => [(key, j)]
  | None => []
  end.

(** The own properties of the data object, in the order the script creates
    them. *)
Definition json_of_data (d : StructuredDataRecord) : json :=
  JObject (
    [ (js "@context", JString (js "https://schema.org"));
      (js "@type", JString (js "ButcherShop"));
      (js "name", JString (sd_name d));
      (js "image", JString (sd_image d));
      (js "address", JObject [
         (js "@type", JString (js "PostalAddress"));
         (js "streetAddress", JString (sd_streetAddress d));
         (js "addressLocality", JString (sd_addressLocality d));
         (js "addressRegion", JString (sd_addressRegion d));
         (js "postalCode", JString (sd_postalCode d));
         (js "addressCountry", JString (sd_addressCountry d)) ]);
      (js "geo", JObject [
         (js "@type", JString (js "GeoCoordinates"));
         (js "latitude", JNumber (sd_latitude d));
         (js "longitude", JNumber (sd_longitude d)) ]);
      (js "url", JString (sd_url d));
      (js "telephone", JString (sd_telephone d));
      (js "priceRange", JString (sd_priceRange d)) ]
    ++ optional_prop (js "openingHoursSpecification")
         (option_map (fun rs => JArray (map json_of_rule rs))
                     (sd_openingHoursSpecification d))
    ++ [ (js "description", JString (sd_description d)) ]
    ++ optional_prop (js "servesCuisine")
         (option_map JString (sd_servesCuisine d))).

Definition generateStructuredDataJSON (bd : BusinessData) (now : Z)
    (options : Options) : str :=
  JSON_stringify (json_of_data (generateStructuredData bd now options)).

(** ** The generated markup *)

Definition warningIcon : str :=
  js "<svg xmlns=`http://www.w3.org/2000/svg` width=`24` height=`24` fill=`currentColor` viewBox=`0 0 16 16` style=`flex-shrink: 0;`><path d=`M8.982 1.566a1.13 1.13 0 0 0-1.96 0L.165 13.233c-.457.778.091 1.767.98 1.767h13.713c.889 0 1.438-.99.98-1.767L8.982 1.566zM8 5c.535 0 .954.462.9.995l-.35 3.507a.552.552 0 0 1-1.1 0L7.1 5.995A.905.905 0 0 1 8 5zm.002 6a1 1 0 1 1 0 2 1 1 0 0 1 0-2z`/></svg>".

Definition generateClosureCardHTML (bd : BusinessData) (now : Z) : str :=
  match getActiveTemporaryClosure bd now with
  | None => []
  | Some tempClosure =>
      let startFormatted := formatDate (startDate tempClosure) in
      let endFormatted := formatDate (endDate tempClosure) in
      let returnDateStr := getNextDay (endDate tempClosure) in
      let returnDateFormatted := formatDateWithDay returnDateStr in
      let message :=
        if truthy (message tempClosure) then to_string (message tempClosure)
        else js "Temporarily closed" in
      js "<div class=`alert alert-warning d-flex align-items-start mb-3` role=`alert` style=`border-left: 4px solid #ffc107; background-color: #fff3cd; border-color: #ffc107;`><div style=`color: #856404; margin-right: 10px; flex-shrink: 0;`>"
      ++ warningIcon
      ++ js "</div><div style=`flex: 1; color: #856404; word-wrap: break-word;`><div style=`font-weight: bold; margin-bottom: 5px;`>"
      ++ message
      ++ js "</div><div style=`margin-bottom: 5px;`>"
      ++ startFormatted ++ js " " ++ [endash] ++ js " " ++ endFormatted
      ++ js "</div><div>We will return to regular hours on <strong>"
      ++ returnDateFormatted
      ++ js "</strong></div></div></div>"
  end.

Definition hours_row (hour : DaySchedule) : str :=
  let timeText :=
    if closed hour then js "Closed"
    else string_or_null (formatTime12Hour (open hour))
         ++ js " " ++ [endash] ++ js " "
         ++ string_or_null (formatTime12Hour (close hour)) in
  js "<tr><td><strong>" ++ day hour ++ js "</strong></td><td>" ++ timeText
  ++ js "</td></tr>".

Definition generateHoursTableHTML (bd : BusinessData) : str :=
  fold_left (fun html hour => html ++ hours_row hour) (hours bd) [].

Definition generateAddressBarHTML (bd : BusinessData) : str :=
  street (address bd) ++ js " | " ++ city (address bd) ++ js ", "
  ++ region (address bd) ++ js " " ++ postalCode (address bd) ++ js " | "
  ++ display (phone bd).

(** ** Regular expressions

    The seven patterns of the script are sequences of these atoms, in three
    capture groups.  Matching is by backtracking: every atom lists the ways
    it can match at the head of the text, the preferred way first, and the
    match of a sequence is the first combination that succeeds. *)
Inductive atom : Type :=
| Lit (s : str)            (** the text itself *)
| Spaces                   (** [\s*] *)
| NoneOfStar (c : N)       (** [[^c]*] *)
| NoneOfPlus (c : N)       (** [[^c]+] *)
| AnyLazy.                 (** [[\s\S]*?] *)

Definition push (c : N) (p : str * str) : str * str := (c :: fst p, snd p).

(** A greedy star of a class: the longest run first, the empty one last. *)
Fixpoint greedy (p : N -> bool) (s : str) : list (str * str) :=
  match s with
  | c :: s' => if p c then map (push c) (greedy p s') ++ [([], s)]
               else [([], s)]
  | [] => [([], [])]
  end.

Definition greedy_plus (p : N -> bool) (s : str) : list (str * str) :=
  match s with
  | c :: s' => if p c then map (push c) (greedy p s') else []
  | [] => []
  end.

(** A lazy star of any unit: the empty run first. *)
Fixpoint lazy_any (s : str) : list (str * str) :=
  ([], s) ::
  match s with
  | c :: s' => map (push c) (lazy_any s')
  | [] => []
  end.

Fixpoint strip_prefix (p s : str) : option str :=
  match p, s with
  | [], _ => Some s
  | x :: p', y :: s' => if N.eqb x y then strip_prefix p' s' else None
  | _ :: _, [] => None
  end.

Definition none_of (c : N) (x : N) : bool := negb (N.eqb x c).

(** The ways [a] matches at the head of [s]: what it takes, what it
    leaves. *)
Definition match_atom (a : atom) (s : str) : list (str * str) :=
  match a with
  | Lit l => match strip_prefix l s with
             | Some r => [(l, r)]
             | None => []
             end
  | Spaces => greedy is_space s
  | NoneOfStar c => greedy (none_of c) s
  | NoneOfPlus c => greedy_plus (none_of c) s
  | AnyLazy => lazy_any s
  end.

Fixpoint match_seq (atoms : list atom) (s : str) : list (str * str) :=
  match atoms with
  | [] => [([], s)]
  | a :: rest =>
      flat_map
        (fun p => map (fun q => (fst p ++ fst q, snd q)) (match_seq rest (snd p)))
        (match_atom a s)
  end.

(** A pattern [(start) between (old) between' (end)]: the first and the
    third group are what the script keeps. *)
Record anchor_regex := {
  start_group : list atom;
  middle : list atom;
  end_group : list atom }.

Fixpoint first_of {A B : Type} (f : A -> option B) (l : list A) : option B :=
  match l with
  | [] => None
  | x :: r => match f x with
              | Some y => Some y
              | None => first_of f r
              end
  end.

(** The match that starts at the head of [s]: the texts of the first and
    the third group, and what follows the match. *)
Definition match_here (re : anchor_regex) (s : str)
  : option (str * str * str) :=
  first_of
    (fun p1 =>
       first_of
         (fun p2 =>
            first_of (fun p3 => Some (fst p1, fst p3, snd p3))
                     (match_seq (end_group re) (snd p2)))
         (match_seq (middle re) (snd p1)))
    (match_seq (start_group re) s).

(** The leftmost match: what precedes it, the first group, the third
    group, what follows. *)
Fixpoint exec (re : anchor_regex) (s : str)
  : option (str * str * str * str) :=
  match match_here re s with
  | Some (g1, g3, post) => Some ([], g1, g3, post)
  | None =>
      match s with
      | [] => None
      | c :: s' =>
          match exec re s' with
          | Some (pre, g1, g3, post) => Some (c :: pre, g1, g3, post)
          | None => None
          end
      end
  end.

(** [regex.test(content)] *)
Definition test (re : anchor_regex) (content : str) : bool :=
  match exec re content with
  | Some _ => true
  | None => false
  end.

Definition END_AUTO_UPDATE : str := js "<!-- END AUTO-UPDATE -->".

Definition structuredDataRegex : anchor_regex := {|
  start_group :=
    [Lit (js "<!-- AUTO-UPDATE: Structured Data -->"); Spaces;
     Lit (js "<script type=`application/ld+json`>")];
  middle := [Spaces; AnyLazy; Spaces];
  end_group := [Lit (js "</script>"); Spaces; Lit END_AUTO_UPDATE] |}.

Definition addressBarRegex : anchor_regex := {|
  start_group :=
    [Lit (js "<!-- AUTO-UPDATE: Address bar -->"); Spaces;
     Lit (js "<div class=`address-bar`>")];
  middle := [NoneOfPlus 60];
  end_group := [Lit (js "</div>"); Spaces; Lit END_AUTO_UPDATE] |}.

Definition navBrandRegex : anchor_regex := {|
  start_group :=
    [Lit (js "<!-- AUTO-UPDATE: Navigation brand -->"); Spaces;
     Lit (js "<a class=`navbar-brand`"); NoneOfStar 62; Lit (js ">")];
  middle := [NoneOfPlus 60];
  end_group := [Lit (js "</a>"); Spaces; Lit END_AUTO_UPDATE] |}.

Definition brandHeaderRegex : anchor_regex := {|
  start_group :=
    [Lit (js "<!-- AUTO-UPDATE: Brand header -->"); Spaces;
     Lit (js "<div class=`brand`>")];
  middle := [NoneOfPlus 60];
  end_group := [Lit (js "</div>"); Spaces; Lit END_AUTO_UPDATE] |}.

Definition hoursTableRegex : anchor_regex := {|
  start_group := [Lit (js "<!-- AUTO-UPDATE: Business hours table -->")];
  middle := [Spaces; AnyLazy; Spaces];
  end_group := [Lit END_AUTO_UPDATE] |}.

Definition phoneRegex : anchor_regex := {|
  start_group :=
    [Lit (js "<!-- AUTO-UPDATE: Contact phone -->"); Spaces;
     Lit (js "<p>Phone:<br><strong>")];
  middle := [NoneOfPlus 60];
  end_group := [Lit (js "</strong></p>"); Spaces; Lit END_AUTO_UPDATE] |}.

Definition addressRegex : anchor_regex := {|
  start_group :=
    [Lit (js "<!-- AUTO-UPDATE: Contact address -->"); Spaces;
     Lit (js "<p>Address:<br><strong>")];
  middle := [NoneOfPlus 60; Lit (js "<br>"); NoneOfPlus 60];
  end_group := [Lit (js "</strong></p>"); Spaces; Lit END_AUTO_UPDATE] |}.

(** ** updateHTMLFile *)

(** [if (regex.test(content)) content = content.replace(regex, ...)], where
    the callback sets [updated] and returns [start + fragment + end]. *)
Definition replace_anchor (re : anchor_regex) (fragment : str)
    (state : str * bool) : str * bool :=
  match exec re (fst state) with
  | Some (pre, g1, g3, post) => (pre ++ g1 ++ fragment ++ g3 ++ post, true)
  | None => state
  end.

Definition indent_lines (text : str) : str :=
  match split_on 10 text with
  | [] => []
  | first :: rest =>
      join [10%N] (first :: map (fun line => js "    " ++ line) rest)
  end.

(** What goes between the two groups of each anchor. *)
Definition structuredDataFragment (bd : BusinessData) (now : Z)
    (filePath : str) : str :=
  let structuredDataJSON :=
    if includes filePath (js "index.html")
    then generateStructuredDataJSON bd now no_options
    else JSON_stringify
           (json_of_data
              (delete_servesCuisine (generateStructuredData bd now no_options)))
  in
  [10%N] ++ js "    " ++ indent_lines structuredDataJSON
  ++ [10%N] ++ js "    ".

Definition hoursTableFragment (bd : BusinessData) (now : Z) : str :=
  let closureCardHTML := generateClosureCardHTML bd now in
  let hoursTableHTML := generateHoursTableHTML bd in
  let tempClosure := getActiveTemporaryClosure bd now in
  closureCardHTML ++
  match tempClosure with
  | Some _ =>
      js "<table class=`business-hours-table` style=`opacity: 0.7;`><caption style=`caption-side: top; text-align: left; font-size: 0.875em; color: #6c757d; margin-bottom: 0.5rem; font-style: italic;`>Regular hours (currently closed)</caption>"
      ++ hoursTableHTML ++ js "</table>"
  | None =>
      js "<table class=`business-hours-table`>" ++ hoursTableHTML
      ++ js "</table>"
  end.

Definition addressFragment (bd : BusinessData) : str :=
  street (address bd) ++ js "<br>" ++ city (address bd) ++ js ", "
  ++ region (address bd) ++ js " " ++ postalCode (address bd).

(** The part of [updateHTMLFile] between reading and writing the file: the
    new content and the flag [updated]. *)
Definition update_content (bd : BusinessData) (now : Z) (filePath : str)
    (content : str) : str * bool :=
  let st := (content, false) in
  let st := replace_anchor structuredDataRegex
              (structuredDataFragment bd now filePath) st in
  let st := replace_anchor addressBarRegex (generateAddressBarHTML bd) st in
  let st := replace_anchor navBrandRegex (shortName bd) st in
  let st := replace_anchor brandHeaderRegex (name bd) st in
  if includes filePath (js "contact.html") then
    let st := replace_anchor hoursTableRegex (hoursTableFragment bd now) st in
    let st := replace_anchor phoneRegex (display (phone bd)) st in
    let st := replace_anchor addressRegex (addressFragment bd) st in
    st
  else st.

(** The files: a path has a content or does not exist.  [writes] lists the
    paths written, the latest first. *)
Record World := {
  files : str -> option str;
  writes : list str }.

Definition writeFileSync (path content : str) (w : World) : World :=
  {| files := fun p => if str_eqb p path then Some content else files w p;
     writes := path :: writes w |}.

(** [updateHTMLFile(filePath)] on a file that exists: the world after it
    and the value returned. *)
Definition updateHTMLFile (bd : BusinessData) (now : Z) (filePath : str)
    (w : World) : World * bool :=
  match files w filePath with
  | None => (w, false)
  | Some content =>
      let '(content', updated) := update_content bd now filePath content in
      if updated then (writeFileSync filePath content' w, true)
      else (w, false)
  end.

(** ** main *)

(** One line of the report, with the text it prints. *)
Inductive report : Type :=
| Updated (basename : str)          (** "Updated: " and the name *)
| NoUpdatesNeeded (basename : str)  (** "No updates needed: " and the name *)
| FileNotFound (path : str).        (** "File not found: " and the path *)

Definition htmlFileNames : list str :=
  [js "index.html"; js "contact.html"; js "specials.html";
   js "services.html"].

(** [path.join(publicDir, name)] for a directory path in normal form. *)
Definition path_join (publicDir name : str) : str :=
  publicDir ++ js "/" ++ name.

Definition existsSync (path : str) (w : World) : bool :=
  match files w path with
  | Some _ => true
  | None => false
  end.

(** The body of the [forEach] of [main] for one file: the world, the
    reports so far and [updatedCount]. *)
Definition main_step (bd : BusinessData) (now : Z) (publicDir : str)
    (st : World * list report * Z) (fileName : str)
  : World * list report * Z :=
  let '(w, log, updatedCount) := st in
  let filePath := path_join publicDir fileName in
  if existsSync filePath w then
    let '(w', r) := updateHTMLFile bd now filePath w in
    if r then (w', log ++ [Updated fileName], updatedCount + 1)
    else (w', log ++ [NoUpdatesNeeded fileName], updatedCount)
  else (w, log ++ [FileNotFound filePath], updatedCount).

Definition main (bd : BusinessData) (now : Z) (publicDir : str) (w : World)
  : World * list report * Z :=
  fold_left (main_step bd now publicDir) htmlFileNames (w, [], 0).

(** * The script before temporary closures

    The earlier [update-business-data.js]: the same script without
    [temporaryClosure].  What it shares with the later script,
    [formatTime12Hour], [generateAddressBarHTML], the other six patterns
    and the run over the four pages, is as above. *)

Module Previous.

Definition generateStructuredData (bd : BusinessData) (options : Options)
  : StructuredDataRecord :=
  let openingHoursSpecification := map rule_of_slot (hoursBySlot (hours bd)) in
  {| sd_name := name bd;
     sd_image :=
       url bd ++ js "/" ++
       (if truthy (opt_image options) then to_string (opt_image options)
        else defaultImage (images bd));
     sd_streetAddress := street (address bd);
     sd_addressLocality := city (address bd);
     sd_addressRegion := regionCode (address bd);
     sd_postalCode := postalCode (address bd);
     sd_addressCountry := countryCode (address bd);
     sd_latitude := latitude (coordinates bd);
     sd_longitude := longitude (coordinates bd);
     sd_url := url bd;
     sd_telephone := tel (phone bd);
     sd_priceRange := priceRange bd;
     sd_openingHoursSpecification := Some openingHoursSpecification;
     sd_description :=
       if truthy (opt_description options)
       then to_string (opt_description options) else description bd;
     sd_servesCuisine :=
       if truthy (servesCuisine bd) then Some (to_string (servesCuisine bd))
       else None |}.

Definition generateStructuredDataJSON (bd : BusinessData) (options : Options)
  : str :=
  JSON_stringify (json_of_data (generateStructuredData bd options)).

(** [String.prototype.trimRight]: the text without the white space and the
    line terminators at its end. *)
Definition trimRight (s : str) : str := rev (drop_spaces (rev s)).

Definition hours_row (hour : DaySchedule) : str :=
  let timeText :=
    if closed hour then js "Closed"
    else string_or_null (formatTime12Hour (open hour))
         ++ js " " ++ [endash] ++ js " "
         ++ string_or_null (formatTime12Hour (close hour)) in
  js "                    <tr><td><strong>" ++ day hour
  ++ js "</strong></td><td>" ++ timeText ++ js "</td></tr>" ++ [10%N].

Definition generateHoursTableHTML (bd : BusinessData) : str :=
  trimRight (fold_left (fun html hour => html ++ hours_row hour) (hours bd) []).

Definition hoursTableRegex : anchor_regex := {|
  start_group :=
    [Lit (js "<!-- AUTO-UPDATE: Business hours table -->"); Spaces;
     Lit (js "<table class=`business-hours-table`>")];
  middle := [Spaces; AnyLazy; Spaces];
  end_group := [Lit (js "</table>"); Spaces; Lit END_AUTO_UPDATE] |}.

Definition structuredDataFragment (bd : BusinessData) (filePath : str)
  : str :=
  let structuredDataJSON :=
    if includes filePath (js "index.html")
    then generateStructuredDataJSON bd no_options
    else JSON_stringify
           (json_of_data
              (delete_servesCuisine (generateStructuredData bd no_options)))
  in
  [10%N] ++ js "    " ++ indent_lines structuredDataJSON
  ++ [10%N] ++ js "    ".

Definition hoursTableFragment (bd : BusinessData) : str :=
  [10%N] ++ js "                 " ++ generateHoursTableHTML bd
  ++ [10%N] ++ js "                 ".

Definition update_content (bd : BusinessData) (filePath : str)
    (content : str) : str * bool :=
  let st := (content, false) in
  let st := replace_anchor structuredDataRegex
              (structuredDataFragment bd filePath) st in
  let st := replace_anchor addressBarRegex (generateAddressBarHTML bd) st in
  let st := replace_anchor navBrandRegex (shortName bd) st in
  let st := replace_anchor brandHeaderRegex (name bd) st in
  if includes filePath (js "contact.html") then
    let st := replace_anchor hoursTableRegex (hoursTableFragment bd) st in
    let st := replace_anchor phoneRegex (display (phone bd)) st in
    let st := replace_anchor addressRegex (addressFragment bd) st in
    st
  else st.

End Previous.

(** * format-html.js

    The script that formats the four pages.  The formatter is the function
    [html] of the package js-beautify, called with the options of the
    script; here it is any function from the content of a file to the
    formatted content, and [None] stands for an exception thrown by it. *)

Module FormatHtml.

Section Beautify.

Variable beautify : str -> option str.

(** [formatHTMLFile(filePath)]: reading a file that does not exist throws,
    and every exception is caught, reported and answered by [false]. *)
Definition formatHTMLFile (filePath : str) (w : World) : World * bool :=
  match files w filePath with
  | None => (w, false)
  | Some content =>
      match beautify content with
      | Some formatted => (writeFileSync filePath formatted w, true)
      | None => (w, false)
      end
  end.

(** One line of the output, with the text it starts with. *)
Inductive line : Type :=
| Formatted (basename : str)         (** "Formatted: " and the name *)
| ErrorFormatting (basename : str)   (** "Error formatting " and the name *)
| NotFound (basename : str).         (** "File not found: " and the name *)

(** The body of the [forEach] of [main] for one file: the world, the lines
    so far and [formattedCount]. *)
Definition main_step (publicDir : str) (st : World * list line * Z)
    (fileName : str) : World * list line * Z :=
  let '(w, log, formattedCount) := st in
  let filePath := path_join publicDir fileName in
  if existsSync filePath w then
    let '(w', r) := formatHTMLFile filePath w in
    if r then (w', log ++ [Formatted fileName], formattedCount + 1)
    else (w', log ++ [ErrorFormatting fileName], formattedCount)
  else (w, log ++ [NotFound fileName], formattedCount).

Definition main (publicDir : str) (w : World) : World * list line * Z :=
  fold_left (main_step publicDir) htmlFileNames (w, [], 0).

End Beautify.

End FormatHtml.

(** * The notions used to state the properties *)

(** ** Calendar dates *)

Ltac dlia := Z.div_mod_to_equations; lia.

(** Dates of any year: the month and the day exist. *)
Definition wf_date (d : date) : Prop :=
  let '(y, m, dd) := d in 1 <= m <= 12 /\ 1 <= dd <= DaysInMonth y m.

(** The day number of a date, as [new Date] computes it. *)
Definition day_number (d : date) : Z :=
  let '(y, m, dd) := d in MakeDay y (m - 1) dd.

(** The date of a time value, as the getters give it. *)
Definition date_of_time (t : Z) : date :=
  (YearFromTime t, MonthFromTime t + 1, DateFromTime t).

Ltac split_ltb :=
  repeat match goal with
  | |- context [?a <? ?b] => destruct (Z.ltb_spec a b)
  end.

(** Dates in calendar order. *)
Definition date_le (a b : date) : Prop :=
  let '(y1, m1, d1) := a in
  let '(y2, m2, d2) := b in
  y1 < y2 \/ (y1 = y2 /\ (m1 < m2 \/ (m1 = m2 /\ d1 <= d2))).

(** ** Closure windows and the day after *)

(** The local calendar date of the clock reading [now]. *)
Definition today_of (now : Z) : date := date_of_time now.

(** A closure from 24 December 2025 to 2 January 2026. *)
Definition holidayClosure : TemporaryClosure :=
  {| startDate := js "2025-12-24"; endDate := js "2026-01-02";
     message := Str (js "Closed for the holidays") |}.

(** The same profile with another closure, or none. *)
Definition set_temporaryClosure (bd : BusinessData)
    (tc : option TemporaryClosure) : BusinessData :=
  {| name := name bd; shortName := shortName bd; address := address bd;
     phone := phone bd; coordinates := coordinates bd; url := url bd;
     priceRange := priceRange bd; description := description bd;
     tagline := tagline bd; hours := hours bd; images := images bd;
     servesCuisine := servesCuisine bd; temporaryClosure := tc |}.

(** The profile of the shop with that closure. *)
Definition closedData : BusinessData :=
  set_temporaryClosure businessData (Some holidayClosure).

(** 31 December 2025, half past noon, as a local time value. *)
Definition newYearsEve : Z :=
  MakeDate (MakeDay 2025 11 31) (MakeTime 12 30 0 0).

(** The day after a date. *)
Definition next_date (d : date) : date :=
  let '(y, m, dd) := d in
  if dd <? DaysInMonth y m then (y, m, dd + 1)
  else if m <? 12 then (y, m + 1, 1)
  else (y + 1, 1, 1).

(** ** Grouping the opening hours *)

(** The open and close times of a day, as text. *)
Definition times (h : DaySchedule) : str * str :=
  (to_string (open h), to_string (close h)).

Definition pair_eqb (p q : str * str) : bool :=
  str_eqb (fst p) (fst q) && str_eqb (snd p) (snd q).

Definition open_days (hs : list DaySchedule) : list DaySchedule :=
  filter (fun h => negb (closed h)) hs.

(** The distinct pairs of a list, each at the place where it is first
    seen. *)
Fixpoint distinct_first_seen (l : list (str * str)) : list (str * str) :=
  match l with
  | [] => []
  | p :: r => p :: filter (fun q => negb (pair_eqb p q)) (distinct_first_seen r)
  end.

(** The grouping as the specification words it: the days that are not
    closed are grouped by their pair of times; the groups come in the order
    in which their pairs are first seen, and each group is one rule that
    lists the names of its days. *)
Definition grouped_rules (hs : list DaySchedule) : list Rule :=
  map (fun p =>
         {| dayOfWeek :=
              map day (filter (fun h => pair_eqb p (times h)) (open_days hs));
            opens := fst p;
            closes := snd p |})
      (distinct_first_seen (map times (open_days hs))).

(** On a day that is not closed both times are strings without "-". *)
Definition times_present (h : DaySchedule) : Prop :=
  closed h = false ->
  exists o c, open h = Str o /\ close h = Str c /\
              ~ In 45%N o /\ ~ In 45%N c.

Definition dashless (p : str * str) : Prop :=
  ~ In 45%N (fst p) /\ ~ In 45%N (snd p).

Definition key_of (p : str * str) : str := fst p ++ js "-" ++ snd p.

Definition days_of (hs : list DaySchedule) (p : str * str) : list str :=
  map day (filter (fun h => pair_eqb p (times h)) (open_days hs)).

(** The property of an object with the given key, if it has one. *)
Fixpoint assoc_str (key : str) (props : list (str * json)) : option json :=
  match props with
  | [] => None
  | (k, v) :: r => if str_eqb k key then Some v else assoc_str key r
  end.

Definition json_prop (key : str) (j : json) : option json :=
  match j with
  | JObject props => assoc_str key props
  | _ => None
  end.

Definition key_openingHours : str := js "openingHoursSpecification".

(** The same profile with other hours. *)
Definition set_hours (bd : BusinessData) (hs : list DaySchedule)
  : BusinessData :=
  {| name := name bd; shortName := shortName bd; address := address bd;
     phone := phone bd; coordinates := coordinates bd; url := url bd;
     priceRange := priceRange bd; description := description bd;
     tagline := tagline bd; hours := hs; images := images bd;
     servesCuisine := servesCuisine bd;
     temporaryClosure := temporaryClosure bd |}.

(** The profile of the shop with every day closed. *)
Definition allClosedData : BusinessData :=
  set_hours businessData
    (map (fun h => {| day := day h; open := Null; close := Null;
                      closed := true |})
         (hours businessData)).

(** ** The steps of the script *)

(** The patterns tried on a document, in the order of the script. *)
Definition anchors_for (filePath : str) : list anchor_regex :=
  [structuredDataRegex; addressBarRegex; navBrandRegex; brandHeaderRegex]
  ++ (if includes filePath (js "contact.html")
      then [hoursTableRegex; phoneRegex; addressRegex] else []).

(** The patterns with the fragment that each one puts in. *)
Definition steps_for (bd : BusinessData) (now : Z) (filePath : str)
  : list (anchor_regex * str) :=
  [ (structuredDataRegex, structuredDataFragment bd now filePath);
    (addressBarRegex, generateAddressBarHTML bd);
    (navBrandRegex, shortName bd);
    (brandHeaderRegex, name bd) ]
  ++ (if includes filePath (js "contact.html")
      then [ (hoursTableRegex, hoursTableFragment bd now);
             (phoneRegex, display (phone bd));
             (addressRegex, addressFragment bd) ]
      else []).

Definition run_steps (steps : list (anchor_regex * str)) (st : str * bool)
  : str * bool :=
  fold_left (fun st p => replace_anchor (fst p) (snd p) st) steps st.

(** A brand header that already shows the name of the business. *)
Definition currentBrandPage : str :=
  js "<!-- AUTO-UPDATE: Brand header --><div class=`brand`>Christopher's Meat Market</div><!-- END AUTO-UPDATE -->".

Definition oneFileWorld (path content : str) : World :=
  {| files := fun p => if str_eqb p path then Some content else None;
     writes := [] |}.

Definition matched_any (filePath content : str) : bool :=
  existsb (fun re => test re content) (anchors_for filePath).

(** ** Matching, atom by atom *)

Fixpoint take_while (p : N -> bool) (s : str) : str :=
  match s with
  | c :: s' => if p c then c :: take_while p s' else []
  | [] => []
  end.

Fixpoint drop_while (p : N -> bool) (s : str) : str :=
  match s with
  | c :: s' => if p c then drop_while p s' else s
  | [] => []
  end.

(** [x] is the one way in which [atoms] match at the head of any text that
    starts with [x], whatever is done with the rest. *)
Definition exact (atoms : list atom) (x : str) : Prop :=
  forall (A : Type) (k : str * str -> option A) (r : str),
    first_of k (match_seq atoms (x ++ r)) = k (x, r).

(** [k] fails unless the rest of the text starts with [c0]. *)
Definition needs {A : Type} (c0 : N) (k : str * str -> option A) : Prop :=
  forall x c t, N.eqb c c0 = false -> k (x, c :: t) = None.

(** The first place, from the left, where [e] accepts what follows the
    white space. *)
Fixpoint scan {A : Type} (e : str -> option A) (t : str) : option A :=
  match e (drop_while is_space t) with
  | Some y => Some y
  | None =>
      match t with
      | [] => None
      | _ :: t' => scan e t'
      end
  end.

(** ** Anchor regions *)

(** The seven kinds of anchor, in the order in which the script handles
    them. *)
Inductive kind : Type :=
| StructuredData
| AddressBar
| NavBrand
| BrandHeader
| HoursTable
| ContactPhone
| ContactAddress.

Definition kind_eqb (a b : kind) : bool :=
  match a, b with
  | StructuredData, StructuredData | AddressBar, AddressBar
  | NavBrand, NavBrand | BrandHeader, BrandHeader
  | HoursTable, HoursTable | ContactPhone, ContactPhone
  | ContactAddress, ContactAddress => true
  | _, _ => false
  end.

Definition regex_of (k : kind) : anchor_regex :=
  match k with
  | StructuredData => structuredDataRegex
  | AddressBar => addressBarRegex
  | NavBrand => navBrandRegex
  | BrandHeader => brandHeaderRegex
  | HoursTable => hoursTableRegex
  | ContactPhone => phoneRegex
  | ContactAddress => addressRegex
  end.

(** What all opening sentinels start with. *)
Definition AUTO_UPDATE : str := js "<!-- AUTO-UPDATE: ".

Definition sentinel (k : kind) : str :=
  match k with
  | StructuredData => js "<!-- AUTO-UPDATE: Structured Data -->"
  | AddressBar => js "<!-- AUTO-UPDATE: Address bar -->"
  | NavBrand => js "<!-- AUTO-UPDATE: Navigation brand -->"
  | BrandHeader => js "<!-- AUTO-UPDATE: Brand header -->"
  | HoursTable => js "<!-- AUTO-UPDATE: Business hours table -->"
  | ContactPhone => js "<!-- AUTO-UPDATE: Contact phone -->"
  | ContactAddress => js "<!-- AUTO-UPDATE: Contact address -->"
  end.

Definition open_tag (k : kind) : str :=
  match k with
  | StructuredData => js "<script type=`application/ld+json`>"
  | AddressBar => js "<div class=`address-bar`>"
  | NavBrand => js "<a class=`navbar-brand`"
  | BrandHeader => js "<div class=`brand`>"
  | HoursTable => []
  | ContactPhone => js "<p>Phone:<br><strong>"
  | ContactAddress => js "<p>Address:<br><strong>"
  end.

Definition close_tag (k : kind) : str :=
  match k with
  | StructuredData => js "</script>"
  | AddressBar => js "</div>"
  | NavBrand => js "</a>"
  | BrandHeader => js "</div>"
  | HoursTable => []
  | ContactPhone => js "</strong></p>"
  | ContactAddress => js "</strong></p>"
  end.

(** An anchor region as it stands in a document: the white space after the
    opening sentinel and before the closing one, the further attributes of
    a navigation link, and the text between the two groups. *)
Record anchor_region := {
  r_kind : kind;
  r_space1 : str;
  r_attrs : str;
  r_inner : str;
  r_space2 : str }.

(** The text of the first group. *)
Definition start_text (r : anchor_region) : str :=
  match r_kind r with
  | HoursTable => sentinel HoursTable
  | NavBrand =>
      sentinel NavBrand ++ r_space1 r ++ open_tag NavBrand ++ r_attrs r
      ++ js ">"
  | k => sentinel k ++ r_space1 r ++ open_tag k
  end.

(** The text of the third group. *)
Definition end_text (r : anchor_region) : str :=
  match r_kind r with
  | HoursTable => END_AUTO_UPDATE
  | k => close_tag k ++ r_space2 r ++ END_AUTO_UPDATE
  end.

Definition region_text (r : anchor_region) : str :=
  start_text r ++ r_inner r ++ end_text r.

Definition nonempty (s : str) : bool :=
  match s with
  | [] => false
  | _ :: _ => true
  end.

Definition no_lt (s : str) : bool := forallb (none_of 60) s.

(** A text that can stand between the two groups of an anchor of kind [k]
    and be found again: plain text for the four text anchors, two plain
    lines around a line break for the contact address, and any text without
    a sentinel for the structured data and the hours table. *)
Definition valid_inner (k : kind) (f : str) : bool :=
  match k with
  | AddressBar | NavBrand | BrandHeader | ContactPhone =>
      nonempty f && no_lt f
  | ContactAddress =>
      match strip_prefix (js "<br>") (drop_while (none_of 60) f) with
      | Some b => nonempty (take_while (none_of 60) f) && nonempty b && no_lt b
      | None => false
      end
  | StructuredData | HoursTable =>
      negb (includes f AUTO_UPDATE) && negb (includes f END_AUTO_UPDATE)
  end.

Definition wf_region (r : anchor_region) : bool :=
  forallb is_space (r_space1 r) && forallb is_space (r_space2 r)
  && no_lt (r_attrs r) && forallb (none_of 62) (r_attrs r)
  && valid_inner (r_kind r) (r_inner r).

(** A text that holds no opening sentinel. *)
Definition wf_text (t : str) : bool := negb (includes t AUTO_UPDATE).

(** A region that the pattern of another kind passes over: white space
    where the pattern of its own kind allows it, plain attributes, and no
    opening sentinel between its groups. *)
Definition skippable (r : anchor_region) : bool :=
  forallb is_space (r_space1 r) && forallb is_space (r_space2 r)
  && no_lt (r_attrs r) && wf_text (r_inner r).

Definition set_inner (r : anchor_region) (f : str) : anchor_region :=
  {| r_kind := r_kind r; r_space1 := r_space1 r; r_attrs := r_attrs r;
     r_inner := f; r_space2 := r_space2 r |}.

Definition END_tail : str := tl END_AUTO_UPDATE.
Definition AUTO_tail : str := tl AUTO_UPDATE.

(** ** Skipping text *)

(** [s] does not start at any place of [x], whatever of [rest] it would
    run into. *)
Fixpoint nostart (s x rest : str) : Prop :=
  match x with
  | [] => True
  | _ :: x' => is_prefix s (x ++ rest) = false /\ nostart s x' rest
  end.

(** Two texts that differ at a place that both have. *)
Fixpoint clash (s b : str) : bool :=
  match s, b with
  | x :: s', y :: b' => negb (N.eqb x y) || clash s' b'
  | _, _ => false
  end.

Fixpoint lit_clash (s l : str) : bool :=
  match l with
  | [] => true
  | _ :: l' => clash s l && lit_clash s l'
  end.

(** The rest of a document after a text: nothing, or an anchor region. *)
Definition at_anchor (rest : str) : Prop :=
  rest = [] \/ exists v, rest = 60%N :: v.

Definition shift (x : str) (m : option (str * str * str * str))
  : option (str * str * str * str) :=
  match m with
  | Some (pre, g1, g3, post) => Some (x ++ pre, g1, g3, post)
  | None => None
  end.

(** ** Documents made of text and anchor regions *)

(** A document after its leading text: anchor regions, each followed by a
    text. *)
Definition body := list (anchor_region * str).

Definition render_body (l : body) : str :=
  flat_map (fun p => region_text (fst p) ++ snd p) l.

Definition wf_body (l : body) : bool :=
  forallb (fun p => wf_region (fst p) && wf_text (snd p)) l.

(** A body on which the patterns of [kinds] can run: every region is passed
    over by the patterns of other kinds, every text is free of opening
    sentinels, and the regions of these kinds are well formed. *)
Definition ready (kinds : list kind) (l : body) : Prop :=
  Forall (fun p => skippable (fst p) = true /\ wf_text (snd p) = true /\
                   (In (r_kind (fst p)) kinds -> wf_region (fst p) = true))
         l.

(** The first region of kind [k] gets [f] between its groups. *)
Fixpoint patch_first (k : kind) (f : str) (l : body) : body :=
  match l with
  | [] => []
  | (r, t) :: l' =>
      if kind_eqb (r_kind r) k then (set_inner r f, t) :: l'
      else (r, t) :: patch_first k f l'
  end.

(** The first region of kind [k] with what precedes it and what follows
    it. *)
Fixpoint find_region (k : kind) (l : body) : option (str * anchor_region * str) :=
  match l with
  | [] => None
  | (r, t) :: l' =>
      if kind_eqb (r_kind r) k then Some ([], r, t ++ render_body l')
      else
        match find_region k l' with
        | Some (before, r', after) =>
            Some (region_text r ++ t ++ before, r', after)
        | None => None
        end
  end.

(** The kinds handled for a document, in the order of the script. *)
Definition kinds_for (filePath : str) : list kind :=
  [StructuredData; AddressBar; NavBrand; BrandHeader]
  ++ (if includes filePath (js "contact.html")
      then [HoursTable; ContactPhone; ContactAddress] else []).

(** What the script puts into an anchor of kind [k]. *)
Definition fragment (bd : BusinessData) (now : Z) (filePath : str)
    (k : kind) : str :=
  match k with
  | StructuredData => structuredDataFragment bd now filePath
  | AddressBar => generateAddressBarHTML bd
  | NavBrand => shortName bd
  | BrandHeader => name bd
  | HoursTable => hoursTableFragment bd now
  | ContactPhone => display (phone bd)
  | ContactAddress => addressFragment bd
  end.

(** No fragment generated for the document holds an opening sentinel. *)
Definition fragments_plain (bd : BusinessData) (now : Z) (filePath : str)
  : bool :=
  forallb (fun k => wf_text (fragment bd now filePath k))
          (kinds_for filePath).

(** Every fragment generated for the document can stand in its anchor and
    be found there again. *)
Definition fragments_ok (bd : BusinessData) (now : Z) (filePath : str)
  : bool :=
  forallb (fun k => valid_inner k (fragment bd now filePath k))
          (kinds_for filePath).

Definition patch_all (frag : kind -> str) (kinds : list kind) (l : body)
  : body :=
  fold_left (fun l k => patch_first k (frag k) l) kinds l.

(** ** Example documents and profiles *)

Definition handled (filePath : str) (k : kind) : bool :=
  existsb (kind_eqb k) (kinds_for filePath).

(** What stands between the two groups of a region after the run. *)
Definition new_inner (bd : BusinessData) (now : Z) (filePath : str)
    (r : anchor_region) : str :=
  if handled filePath (r_kind r) then fragment bd now filePath (r_kind r)
  else r_inner r.

(** A brand header and, right after it, a contact phone anchor. *)
Definition brandAndPhone : str :=
  js "<!-- AUTO-UPDATE: Brand header --><div class=`brand`>Old name</div><!-- END AUTO-UPDATE --><!-- AUTO-UPDATE: Contact phone --><p>Phone:<br><strong>000</strong></p><!-- END AUTO-UPDATE -->".

(** A structured-data anchor with an element between the script and the
    closing sentinel and, right after it, an hours anchor that holds a
    script. *)
Definition strayAndHours : str :=
  js "<!-- AUTO-UPDATE: Structured Data --><script type=`application/ld+json`>{}</script><noscript></noscript><!-- END AUTO-UPDATE --><!-- AUTO-UPDATE: Business hours table --><script>x</script><!-- END AUTO-UPDATE -->".

(** The profile of the shop with a contact phone anchor quoted in its
    description. *)
Definition quotingData : BusinessData :=
  {| name := name businessData;
     shortName := shortName businessData;
     address := address businessData; phone := phone businessData;
     coordinates := coordinates businessData; url := url businessData;
     priceRange := priceRange businessData;
     description := js "Mark the phone number as <!-- AUTO-UPDATE: Contact phone --><p>Phone:<br><strong>x</strong></p><!-- END AUTO-UPDATE -->";
     tagline := tagline businessData; hours := hours businessData;
     images := images businessData;
     servesCuisine := servesCuisine businessData;
     temporaryClosure := None |}.

(** A structured-data anchor and, right after it, a contact phone
    anchor. *)
Definition dataAndPhone : str :=
  js "<!-- AUTO-UPDATE: Structured Data --><script type=`application/ld+json`>{}</script><!-- END AUTO-UPDATE --><!-- AUTO-UPDATE: Contact phone --><p>Phone:<br><strong>000</strong></p><!-- END AUTO-UPDATE -->".

Definition oldBrand : anchor_region :=
  {| r_kind := BrandHeader; r_space1 := []; r_attrs := [];
     r_inner := js "Old name"; r_space2 := [] |}.

Definition oldPhone : anchor_region :=
  {| r_kind := ContactPhone; r_space1 := [10%N]; r_attrs := [];
     r_inner := js "000"; r_space2 := [] |}.

(** The profile of the shop with markup in its short name. *)
Definition markupData : BusinessData :=
  {| name := name businessData;
     shortName := js "Christopher's <em>Meats</em>";
     address := address businessData; phone := phone businessData;
     coordinates := coordinates businessData; url := url businessData;
     priceRange := priceRange businessData;
     description := description businessData;
     tagline := tagline businessData; hours := hours businessData;
     images := images businessData;
     servesCuisine := servesCuisine businessData;
     temporaryClosure := None |}.

(** A page with the navigation brand in two places. *)
Definition twoNavBrands : str :=
  js "<!-- AUTO-UPDATE: Navigation brand --><a class=`navbar-brand` href=`index.html`>Old</a><!-- END AUTO-UPDATE --><nav>...</nav><!-- AUTO-UPDATE: Navigation brand --><a class=`navbar-brand` href=`index.html`>Old</a><!-- END AUTO-UPDATE -->".

(** A contact page with a brand header inside the hours anchor and a
    second brand header after it. *)
Definition nestedBrand : str :=
  js "<!-- AUTO-UPDATE: Business hours table --><!-- AUTO-UPDATE: Brand header --><div class=`brand`>Old</div><!-- END AUTO-UPDATE --><table></table><!-- END AUTO-UPDATE --><!-- AUTO-UPDATE: Brand header --><div class=`brand`>Old</div><!-- END AUTO-UPDATE -->".

(** A contact page with every kind of anchor, the brand header twice. *)
Definition contactBody : body :=
  [ ({| r_kind := StructuredData; r_space1 := [10%N]; r_attrs := [];
        r_inner := js "{}"; r_space2 := [10%N] |}, js "<title>Contact</title>");
    ({| r_kind := BrandHeader; r_space1 := []; r_attrs := [];
        r_inner := js "Old name"; r_space2 := [] |}, []);
    ({| r_kind := AddressBar; r_space1 := []; r_attrs := [];
        r_inner := js "Old address"; r_space2 := [] |}, js "<hr>");
    ({| r_kind := NavBrand; r_space1 := [32%N]; r_attrs := js " href=`index.html`";
        r_inner := js "Old"; r_space2 := [] |}, js "<!-- main -->");
    ({| r_kind := HoursTable; r_space1 := []; r_attrs := [];
        r_inner := js " <table><tr><td>old</td></tr></table> ";
        r_space2 := [] |}, []);
    ({| r_kind := ContactPhone; r_space1 := []; r_attrs := [];
        r_inner := js "000"; r_space2 := [] |}, js "<p>or</p>");
    ({| r_kind := ContactAddress; r_space1 := []; r_attrs := [];
        r_inner := js "street<br>town"; r_space2 := [32%N] |}, []);
    ({| r_kind := BrandHeader; r_space1 := []; r_attrs := [];
        r_inner := js "Old name"; r_space2 := [] |}, js "</body></html>") ].

(** ** Closure suppression *)

(** The opening of the table while a closure is active. *)
Definition captioned_table_open : str :=
  js "<table class=`business-hours-table` style=`opacity: 0.7;`><caption style=`caption-side: top; text-align: left; font-size: 0.875em; color: #6c757d; margin-bottom: 0.5rem; font-style: italic;`>Regular hours (currently closed)</caption>".

(** The hours table as it is written while a closure is active: the
    closure card, then the table under its caption. *)
Definition closed_hours_table (bd : BusinessData) (now : Z) : str :=
  generateClosureCardHTML bd now ++ captioned_table_open
  ++ generateHoursTableHTML bd ++ js "</table>".

(** The content of a document when the script reaches the hours table. *)
Definition content_before_hours (bd : BusinessData) (now : Z)
    (filePath content : str) : str * bool :=
  run_steps (firstn 4 (steps_for bd now filePath)) (content, false).

Definition content_after_hours (bd : BusinessData) (now : Z)
    (filePath content : str) : str * bool :=
  replace_anchor hoursTableRegex (hoursTableFragment bd now)
    (content_before_hours bd now filePath content).

Definition has_kind (k : kind) (l : body) : bool :=
  existsb (fun p => kind_eqb (r_kind (fst p)) k) l.

(** ** Dates as text *)

(** The name of month [m], 1 for January. *)
Definition month_name (m : Z) : str :=
  nth (Z.to_nat (m - 1)) months (js "undefined").

(** The name of day [i] of the week, 0 for Sunday. *)
Definition day_name (i : Z) : str := nth (Z.to_nat i) days (js "undefined").

(** The day of the week of a date, 0 for Sunday: day number 0, the first
    of January 1970, was a Thursday. *)
Definition weekday (d : date) : Z := (day_number d + 4) mod 7.

Definition year_of (d : date) : Z := fst (fst d).


(** The integers from [lo] on, [n] of them. *)
Definition zrange (lo n : Z) : list Z :=
  map (fun i => lo + Z.of_nat i) (seq 0 (Z.to_nat n)).

(** [s] is the decimal text of [z] in exactly [n] digits. *)
Definition reads_as (n : nat) (s : str) (z : Z) : bool :=
  Nat.eqb (List.length s) n &&
  match number_of_digits s 0 with
  | Some v => v =? z
  | None => false
  end.

(** ** Days, rows and the data of a page *)

(** The row of a day that is not marked closed and has no times. *)
Definition row_without_times (dayName : str) : str :=
  js "<tr><td><strong>" ++ dayName ++ js "</strong></td><td>null "
  ++ [endash] ++ js " null</td></tr>".

(** The object without the property [key]. *)
Definition remove_prop (key : str) (j : json) : json :=
  match j with
  | JObject props =>
      JObject (filter (fun p => negb (str_eqb (fst p) key)) props)
  | _ => j
  end.

(** [text] with four spaces put after every line feed. *)
Definition indent_after_newlines (text : str) : str :=
  flat_map (fun c => if N.eqb c 10 then 10%N :: js "    " else [c]) text.

(** One turn of the [forEach] that fills [hoursBySlot]. *)
Definition slot_step (m : slots) (h : DaySchedule) : slots :=
  if closed h then m else slot_push (slot_key h) (day h) m.

(** The profile of the shop with a Monday that is open and has no
    times. *)
Definition mondayWithoutTimes : BusinessData :=
  set_hours businessData
    ({| day := js "Monday"; open := Null; close := Null; closed := false |}
     :: tl (hours businessData)).

(** ** What the patterns match *)

(** The texts that an atom matches. *)
Definition atom_matches (a : atom) (x : str) : Prop :=
  match a with
  | Lit l => x = l
  | Spaces => forallb is_space x = true
  | NoneOfStar c => forallb (none_of c) x = true
  | NoneOfPlus c => x <> [] /\ forallb (none_of c) x = true
  | AnyLazy => True
  end.

(** The texts that a sequence of atoms matches: one text for each atom,
    one after the other. *)
Fixpoint matches (atoms : list atom) (x : str) : Prop :=
  match atoms with
  | [] => x = []
  | a :: rest =>
      exists x1 x2, x = x1 ++ x2 /\ atom_matches a x1 /\ matches rest x2
  end.

(** What stands between the two groups of an anchor of kind [k] that its
    pattern matches. *)
Definition inner_shape (k : kind) (inner : str) : Prop :=
  match k with
  | AddressBar | NavBrand | BrandHeader | ContactPhone =>
      nonempty inner = true /\ no_lt inner = true
  | ContactAddress =>
      exists a b, inner = a ++ js "<br>" ++ b /\
                  nonempty a = true /\ no_lt a = true /\
                  nonempty b = true /\ no_lt b = true
  | StructuredData | HoursTable => True
  end.

Ltac take_apart :=
  repeat match goal with
  | H : matches (_ :: _) _ |- _ =>
      let x1 := fresh "x" in let x2 := fresh "y" in
      destruct H as [x1 [x2 [? [? H]]]]
  | H : matches [] _ |- _ => cbn [matches] in H
  | H : atom_matches _ _ |- _ => cbn [atom_matches] in H
  | H : _ /\ _ |- _ => destruct H
  end; subst.

(** What follows the closing sentinel, if the text starts with it. *)
Definition after_END (u : str) : option str := strip_prefix END_AUTO_UPDATE u.

(** ** The run over the four pages *)

(** The content of a file after the script has handled it. *)
Definition patched (bd : BusinessData) (now : Z) (filePath content : str)
  : str :=
  fst (update_content bd now filePath content).

(** Is [p] the path of one of the four pages? *)
Definition listed (publicDir p : str) : bool :=
  existsb (fun fileName => str_eqb p (path_join publicDir fileName))
          htmlFileNames.

(** The line that [main] prints for a page, read off the files as they are
    before the run. *)
Definition report_line (publicDir : str) (w : World) (fileName : str)
  : report :=
  match files w (path_join publicDir fileName) with
  | None => FileNotFound (path_join publicDir fileName)
  | Some content =>
      if matched_any (path_join publicDir fileName) content
      then Updated fileName else NoUpdatesNeeded fileName
  end.

Definition is_updated (r : report) : bool :=
  match r with
  | Updated _ => true
  | _ => false
  end.

(** The names of the pages reported as updated. *)
Definition updated_names (log : list report) : list str :=
  flat_map (fun r => match r with Updated n => [n] | _ => [] end) log.

(** ** The earlier script and the formatting run *)

(** A row of the hours table as the earlier script writes it, without the
    line feed after it. *)
Definition indented_row (hour : DaySchedule) : str :=
  js "                    " ++ hours_row hour.

(** The line that the formatting run prints for a page, read off the files
    as they are before the run. *)
Definition format_line (beautify : str -> option str) (publicDir : str)
    (w : World) (fileName : str) : FormatHtml.line :=
  match files w (path_join publicDir fileName) with
  | None => FormatHtml.NotFound fileName
  | Some content =>
      match beautify content with
      | Some _ => FormatHtml.Formatted fileName
      | None => FormatHtml.ErrorFormatting fileName
      end
  end.

Definition is_formatted (r : FormatHtml.line) : bool :=
  match r with
  | FormatHtml.Formatted _ => true
  | _ => false
  end.

(** The content of a file after the formatting run has handled it. *)
Definition formatted_or_kept (beautify : str -> option str) (content : str)
  : str :=
  match beautify content with
  | Some formatted => formatted
  | None => content
  end.

(** ** Closures of one day *)

(** The profile of the shop closed on the first of July 2026. *)
Definition canadaDay : TemporaryClosure :=
  {| startDate := js "2026-07-01"; endDate := js "2026-07-01";
     message := Null |}.

(** ** The profile of the shop *)

(** A phone anchor with a line feed after its opening sentinel. *)
Definition stalePhone : anchor_region :=
  {| r_kind := ContactPhone; r_space1 := [10%N]; r_attrs := [];
     r_inner := js "(613) 555-0100"; r_space2 := [32%N] |}.

(** A document made of a text without an opening sentinel and of
    well-formed anchor regions. *)
Definition well_formed_page (content : str) : Prop :=
  exists (t0 : str) (l : body),
    content = t0 ++ render_body l /\ wf_text t0 = true /\ wf_body l = true.

(** A page with a brand header. *)
Definition brandedBody : body :=
  [({| r_kind := BrandHeader; r_space1 := []; r_attrs := [];
       r_inner := js "Old name"; r_space2 := [] |}, js "</html>")].

(** The four pages of a site, each with a brand header. *)
Definition brandedSite : World :=
  {| files := fun p =>
       if listed (js "public") p
       then Some (js "<!DOCTYPE html>" ++ render_body brandedBody)
       else None;
     writes := [] |}.

(** * Properties *)

(** ** formatTime12Hour *)

Lemma split_on_no_sep (c : N) (s : str) :
  ~ In c s -> split_on c s = [s].
Proof.
  induction s as [|x s IH]; intros Hn; simpl; [reflexivity|].
  destruct (N.eqb_spec x c) as [->|Hne].
  - exfalso. apply Hn. now left.
  - rewrite IH; [reflexivity|]. intros Hin. apply Hn. now right.
Qed.

Lemma split_on_app_sep (c : N) (a b : str) :
  ~ In c a -> split_on c (a ++ c :: b) = a :: split_on c b.
Proof.
  induction a as [|x a IH]; intros Hn; simpl.
  - now rewrite N.eqb_refl.
  - destruct (N.eqb_spec x c) as [->|Hne].
    + exfalso. apply Hn. now left.
    + rewrite IH; [reflexivity|]. intros Hin. apply Hn. now right.
Qed.

Lemma split_time_hm (hh mm : str) :
  ~ In 58%N hh -> ~ In 58%N mm ->
  split_time (hh ++ js ":" ++ mm) = (hh, Str mm).
Proof.
  intros Hh Hm. unfold split_time. change (js ":") with [58%N]. simpl.
  rewrite split_on_app_sep by assumption.
  rewrite split_on_no_sep by assumption. reflexivity.
Qed.

Lemma truthy_app_colon (hh mm : str) :
  truthy (Str (hh ++ js ":" ++ mm)) = true.
Proof. destruct hh; reflexivity. Qed.

(** C7: the three boundary times, the absent input, and the general rule:
    the hour is taken modulo 12 with 0 shown as 12, and the suffix is "am"
    below 12 and "pm" from 12 on. *)
Theorem formatTime12Hour_12_hour_clock :
  formatTime12Hour (Str (js "00:00")) = Some (js "12:00 am") /\
  formatTime12Hour (Str (js "12:00")) = Some (js "12:00 pm") /\
  formatTime12Hour (Str (js "23:59")) = Some (js "11:59 pm") /\
  formatTime12Hour Null = None /\
  formatTime12Hour Undefined = None /\
  forall (hh mm : str) (hour : Z),
    ~ In 58%N hh -> ~ In 58%N mm -> parseInt10 hh = Some hour ->
    formatTime12Hour (Str (hh ++ js ":" ++ mm)) =
    Some (show_Z (if Z.rem hour 12 =? 0 then 12 else Z.rem hour 12)
          ++ js ":" ++ mm ++ js " "
          ++ (if hour <? 12 then js "am" else js "pm")).
Proof.
  repeat split; try reflexivity.
  intros hh mm hour Hh Hm Hp. unfold formatTime12Hour.
  rewrite truthy_app_colon. simpl negb. cbv iota.
  change (to_string (Str (hh ++ js ":" ++ mm))) with (hh ++ js ":" ++ mm).
  rewrite split_time_hm by assumption. rewrite Hp.
  unfold hour12_of, ampm_of, to_string.
  destruct (Z.leb_spec 12 hour), (Z.ltb_spec hour 12); try lia; reflexivity.
Qed.

Lemma formatTime12Hour_12_hour_clock_witness :
  formatTime12Hour (Str (js "09" ++ js ":" ++ js "30")) =
  Some (show_Z (if Z.rem 9 12 =? 0 then 12 else Z.rem 9 12)
        ++ js ":" ++ js "30" ++ js " "
        ++ (if 9 <? 12 then js "am" else js "pm")).
Proof.
  apply (proj2 (proj2 (proj2 (proj2 (proj2 formatTime12Hour_12_hour_clock))))).
  - vm_compute. intuition discriminate.
  - vm_compute. intuition discriminate.
  - reflexivity.
Defined.

(** C10: the empty string is treated like [null] and [undefined]; the
    function returns [null] exactly for the falsy inputs and a text for
    every other one. *)
Theorem formatTime12Hour_falsy_input :
  formatTime12Hour (Str []) = None /\
  formatTime12Hour (Str []) = formatTime12Hour Null /\
  formatTime12Hour (Str []) = formatTime12Hour Undefined /\
  forall v : jsopt,
    (formatTime12Hour v = None <-> truthy v = false) /\
    (truthy v = true <->
     formatTime12Hour v =
     Some (show_Z (hour12_of (parseInt10 (fst (split_time (to_string v)))))
           ++ js ":" ++ to_string (snd (split_time (to_string v)))
           ++ js " " ++ ampm_of (parseInt10 (fst (split_time (to_string v)))))).
Proof.
  repeat split; try reflexivity.
  - unfold formatTime12Hour. destruct (truthy v); simpl.
    + destruct (split_time (to_string v)). discriminate.
    + reflexivity.
  - unfold formatTime12Hour. destruct (truthy v); simpl; congruence.
  - intros Ht. unfold formatTime12Hour. rewrite Ht. simpl.
    destruct (split_time (to_string v)). reflexivity.
  - unfold formatTime12Hour. destruct (truthy v); simpl.
    + reflexivity.
    + discriminate.
Qed.

(** ** Day numbers and calendar dates *)

Lemma leap_cases (y : Z) :
  (leap y = true /\ DayFromYear (y + 1) = DayFromYear y + 366) \/
  (leap y = false /\ DayFromYear (y + 1) = DayFromYear y + 365).
Proof.
  unfold leap, DayFromYear.
  destruct (Z.eqb_spec (y mod 4) 0), (Z.eqb_spec (y mod 100) 0),
    (Z.eqb_spec (y mod 400) 0); cbn [andb orb negb];
    (left; split; [reflexivity|dlia])
    || (right; split; [reflexivity|dlia]) || (exfalso; dlia).
Qed.

Lemma DayFromYear_step (y : Z) :
  DayFromYear (y + 1) = DayFromYear y + DaysInYear y.
Proof.
  unfold DaysInYear. destruct (leap_cases y) as [[-> H]|[-> H]]; exact H.
Qed.

Lemma DayFromYear_mono (y y' : Z) :
  y <= y' -> DayFromYear y <= DayFromYear y'.
Proof. intros H. unfold DayFromYear. dlia. Qed.

Lemma YearFromDay_spec (n : Z) :
  DayFromYear (YearFromDay n) <= n < DayFromYear (YearFromDay n + 1).
Proof.
  unfold YearFromDay.
  set (y := 1970 + 400 * n / 146097).
  assert (Hb : DayFromYear (y - 1) <= n < DayFromYear (y + 2)).
  { subst y. unfold DayFromYear. dlia. }
  destruct (Z.leb_spec (DayFromYear (y + 1)) n) as [H1|H1].
  - replace (y + 1 + 1) with (y + 2) by lia. lia.
  - destruct (Z.leb_spec (DayFromYear y) n) as [H2|H2].
    + lia.
    + replace (y - 1 + 1) with y by lia. lia.
Qed.

Lemma YearFromDay_unique (n y : Z) :
  DayFromYear y <= n < DayFromYear (y + 1) -> YearFromDay n = y.
Proof.
  intros H. pose proof (YearFromDay_spec n) as S.
  destruct (Z.lt_trichotomy (YearFromDay n) y) as [Hlt|[Heq|Hgt]].
  - assert (DayFromYear (YearFromDay n + 1) <= DayFromYear y) by (apply DayFromYear_mono; lia). lia.
  - exact Heq.
  - assert (DayFromYear (y + 1) <= DayFromYear (YearFromDay n)) by (apply DayFromYear_mono; lia). lia.
Qed.

Lemma month_cases (m : Z) :
  1 <= m <= 12 ->
  m = 1 \/ m = 2 \/ m = 3 \/ m = 4 \/ m = 5 \/ m = 6 \/ m = 7 \/ m = 8 \/
  m = 9 \/ m = 10 \/ m = 11 \/ m = 12.
Proof. lia. Qed.

Lemma MakeDay_in_year (y m dd : Z) :
  0 <= m <= 11 ->
  MakeDay y m dd = DayFromYear y + DaysBeforeMonth y m + dd - 1.
Proof.
  intros Hm. unfold MakeDay.
  assert (E1 : m / 12 = 0) by dlia.
  assert (E2 : m mod 12 = m) by dlia.
  now rewrite E1, E2, Z.add_0_r.
Qed.

Lemma day_number_bounds (y m dd : Z) :
  wf_date (y, m, dd) ->
  day_number (y, m, dd) = DayFromYear y + DaysBeforeMonth y (m - 1) + dd - 1 /\
  DayFromYear y <= day_number (y, m, dd) < DayFromYear (y + 1).
Proof.
  intros [Hm Hd]. unfold day_number.
  rewrite MakeDay_in_year by lia. split; [reflexivity|].
  rewrite DayFromYear_step. unfold DaysInYear.
  destruct (month_cases m Hm) as [H|[H|[H|[H|[H|[H|[H|[H|[H|[H|[H|H]]]]]]]]]]];
    subst m; simpl in *; destruct (leap y); lia.
Qed.

Lemma Day_MakeDate (n time : Z) :
  0 <= time < msPerDay -> Day (MakeDate n time) = n.
Proof. unfold Day, MakeDate, msPerDay. intros. dlia. Qed.

Lemma date_of_day_number (y m dd t : Z) :
  wf_date (y, m, dd) -> Day t = day_number (y, m, dd) ->
  date_of_time t = (y, m, dd).
Proof.
  intros Hwf Ht. destruct (day_number_bounds _ _ _ Hwf) as [E B].
  assert (Hy : YearFromTime t = y).
  { unfold YearFromTime. rewrite Ht. now apply YearFromDay_unique. }
  destruct Hwf as [Hm Hd].
  unfold date_of_time, DateFromTime, MonthFromTime, DayWithinYear, InLeapYear.
  rewrite Hy, Ht, E.
  destruct (month_cases m Hm) as [H|[H|[H|[H|[H|[H|[H|[H|[H|[H|[H|H]]]]]]]]]]];
    subst m; simpl in *; destruct (leap y); split_ltb; try lia;
    repeat f_equal; lia.
Qed.

Lemma MonthFromTime_range (t : Z) : 0 <= MonthFromTime t <= 11.
Proof. unfold MonthFromTime. split_ltb; lia. Qed.

Lemma wf_date_of_time (t : Z) :
  wf_date (date_of_time t) /\ day_number (date_of_time t) = Day t.
Proof.
  pose proof (YearFromDay_spec (Day t)) as S.
  rewrite DayFromYear_step in S. unfold DaysInYear in S.
  pose proof (MonthFromTime_range t) as Hm.
  unfold date_of_time, wf_date, day_number.
  rewrite MakeDay_in_year by lia.
  replace (MonthFromTime t + 1 - 1) with (MonthFromTime t) by lia.
  clear Hm.
  unfold DateFromTime, MonthFromTime, DayWithinYear, InLeapYear, YearFromTime.
  set (y := YearFromDay (Day t)) in *.
  set (d := Day t - DayFromYear y).
  assert (Hd : 0 <= d < (if leap y then 366 else 365)) by (subst d; lia).
  assert (Hn : Day t = DayFromYear y + d) by (subst d; lia).
  rewrite Hn. clearbody d. clear Hn S.
  destruct (leap y) eqn:L; split_ltb; cbn; rewrite ?L; lia.
Qed.

Lemma day_number_le (a b : date) :
  wf_date a -> wf_date b -> (day_number a <= day_number b <-> date_le a b).
Proof.
  destruct a as [[y1 m1] d1], b as [[y2 m2] d2]. intros Ha Hb.
  destruct (day_number_bounds _ _ _ Ha) as [Ea Ba].
  destruct (day_number_bounds _ _ _ Hb) as [Eb Bb].
  unfold date_le.
  destruct (Z.lt_trichotomy y1 y2) as [Hlt|[Heq|Hgt]].
  - assert (DayFromYear (y1 + 1) <= DayFromYear y2) by (apply DayFromYear_mono; lia). split; lia.
  - subst y2. rewrite Ea, Eb. destruct Ha as [Hm1 Hd1], Hb as [Hm2 Hd2].
    destruct (month_cases m1 Hm1) as [H|[H|[H|[H|[H|[H|[H|[H|[H|[H|[H|H]]]]]]]]]]];
    destruct (month_cases m2 Hm2) as [G|[G|[G|[G|[G|[G|[G|[G|[G|[G|[G|G]]]]]]]]]]];
      subst m1 m2; simpl in *; destruct (leap y1); split; lia.
  - assert (DayFromYear (y2 + 1) <= DayFromYear y1) by (apply DayFromYear_mono; lia). split; lia.
Qed.

(** ** getActiveTemporaryClosure *)

Lemma parse_iso_date_valid (s : str) (d : date) :
  parse_iso_date s = Some d -> valid_date d = true.
Proof.
  unfold parse_iso_date. intros H.
  do 10 (destruct s as [|? s]; [discriminate H|]).
  destruct s; [|discriminate H].
  repeat match type of H with
  | context [match ?x with _ => _ end] =>
      destruct x eqn:?; try discriminate H
  end.
  injection H as <-. assumption.
Qed.

Lemma valid_date_wf (d : date) : valid_date d = true -> wf_date d.
Proof.
  destruct d as [[y m] dd]. unfold valid_date, wf_date. intros H.
  repeat (apply andb_prop in H; destruct H as [H ?]).
  repeat match goal with
  | H : (_ <=? _) = true |- _ => apply Z.leb_le in H
  end. lia.
Qed.

Lemma Day_setHours0 (now : Z) : Day (setHours0 now) = Day now.
Proof. unfold setHours0. apply Day_MakeDate. unfold msPerDay. cbn. lia. Qed.

Lemma num_le_start (ds now : Z) :
  num_le (Some (MakeDate ds (MakeTime 0 0 0 0))) (Some (setHours0 now)) = true
  <-> ds <= Day now.
Proof.
  unfold num_le, setHours0, MakeDate. change (MakeTime 0 0 0 0) with 0.
  rewrite Z.leb_le. unfold msPerDay. lia.
Qed.

Lemma num_le_end (de now : Z) :
  num_le (Some (setHours0 now)) (Some (MakeDate de (MakeTime 23 59 59 0))) = true
  <-> Day now <= de.
Proof.
  unfold num_le, setHours0, MakeDate. change (MakeTime 0 0 0 0) with 0.
  change (MakeTime 23 59 59 0) with 86399000.
  rewrite Z.leb_le. unfold msPerDay. lia.
Qed.

Lemma closure_active_iff (bd : BusinessData) (now : Z)
    (tc : TemporaryClosure) (s e : date) :
  temporaryClosure bd = Some tc ->
  parse_iso_date (startDate tc) = Some s ->
  parse_iso_date (endDate tc) = Some e ->
  getActiveTemporaryClosure bd now =
    (if num_le (Some (MakeDate (day_number s) (MakeTime 0 0 0 0)))
               (Some (setHours0 now))
        && num_le (Some (setHours0 now))
                  (Some (MakeDate (day_number e) (MakeTime 23 59 59 0)))
     then Some tc else None)
  /\ (day_number s <= Day now <-> date_le s (today_of now))
  /\ (Day now <= day_number e <-> date_le (today_of now) e).
Proof.
  intros Htc Hs He.
  pose proof (valid_date_wf _ (parse_iso_date_valid _ _ Hs)) as Ws.
  pose proof (valid_date_wf _ (parse_iso_date_valid _ _ He)) as We.
  destruct (wf_date_of_time now) as [Wn En]. fold (today_of now) in Wn, En.
  repeat split.
  - unfold getActiveTemporaryClosure, new_Date_at. rewrite Htc, Hs, He.
    destruct s as [[ys ms] dds], e as [[ye me] dde]. reflexivity.
  - rewrite <- En. apply day_number_le; assumption.
  - rewrite <- En. apply day_number_le; assumption.
  - rewrite <- En. apply day_number_le; assumption.
  - rewrite <- En. apply day_number_le; assumption.
Qed.

(** C9: with a closure configured by two calendar dates, the closure record
    is returned exactly when the date of [now] lies between the start date
    and the end date, both included, and nothing is returned otherwise;
    nothing is returned either when no closure is configured. *)
Theorem getActiveTemporaryClosure_inclusive_window
    (bd : BusinessData) (now : Z) (tc : TemporaryClosure) (s e : date) :
  temporaryClosure bd = Some tc ->
  parse_iso_date (startDate tc) = Some s ->
  parse_iso_date (endDate tc) = Some e ->
  (getActiveTemporaryClosure bd now = Some tc <->
   date_le s (today_of now) /\ date_le (today_of now) e) /\
  (getActiveTemporaryClosure bd now = None <->
   ~ (date_le s (today_of now) /\ date_le (today_of now) e)) /\
  (forall bd' : BusinessData,
     temporaryClosure bd' = None -> getActiveTemporaryClosure bd' now = None).
Proof.
  intros Htc Hs He.
  destruct (closure_active_iff bd now tc s e Htc Hs He) as [E [Is Ie]].
  rewrite E. rewrite <- Is, <- Ie.
  pose proof (num_le_start (day_number s) now) as Ls.
  pose proof (num_le_end (day_number e) now) as Le.
  set (b := num_le _ _ && num_le _ _).
  assert (Hb : b = true <->
               day_number s <= Day now /\ Day now <= day_number e).
  { subst b. rewrite andb_true_iff, Ls, Le. reflexivity. }
  split; [|split].
  - destruct b; split; intros H.
    + apply Hb. reflexivity.
    + reflexivity.
    + discriminate H.
    + apply Hb in H. discriminate H.
  - destruct b; split; intros H.
    + discriminate H.
    + exfalso. apply H, Hb. reflexivity.
    + intros X. apply Hb in X. discriminate X.
    + reflexivity.
  - intros bd' H. unfold getActiveTemporaryClosure. now rewrite H.
Qed.

Lemma getActiveTemporaryClosure_inclusive_window_witness :
  getActiveTemporaryClosure closedData newYearsEve = Some holidayClosure.
Proof.
  apply (proj1 (getActiveTemporaryClosure_inclusive_window
                  closedData newYearsEve holidayClosure
                  (2025, 12, 24) (2026, 1, 2)
                  eq_refl eq_refl eq_refl)).
  vm_compute. split; [right|left]; intuition congruence.
Defined.

(** ** getNextDay *)

Lemma next_date_wf (d : date) :
  wf_date d -> wf_date (next_date d) /\
               day_number (next_date d) = day_number d + 1.
Proof.
  destruct d as [[y m] dd]. intros Hwf.
  destruct (day_number_bounds _ _ _ Hwf) as [E _]. destruct Hwf as [Hm Hd].
  unfold next_date.
  destruct (Z.ltb_spec dd (DaysInMonth y m)) as [H1|H1].
  - assert (W : wf_date (y, m, dd + 1)) by (unfold wf_date; lia).
    split; [exact W|]. destruct (day_number_bounds _ _ _ W) as [E' _]. lia.
  - assert (dd = DaysInMonth y m) by lia. subst dd.
    destruct (Z.ltb_spec m 12) as [H2|H2].
    + assert (W : wf_date (y, m + 1, 1)).
      { unfold wf_date. split; [lia|].
        destruct (month_cases m Hm) as [H|[H|[H|[H|[H|[H|[H|[H|[H|[H|[H|H]]]]]]]]]]];
          subst m; cbn; destruct (leap y); lia. }
      split; [exact W|]. destruct (day_number_bounds _ _ _ W) as [E' _].
      rewrite E, E'.
      destruct (month_cases m Hm) as [H|[H|[H|[H|[H|[H|[H|[H|[H|[H|[H|H]]]]]]]]]]];
        subst m; cbn; destruct (leap y); lia.
    + assert (m = 12) by lia. subst m.
      assert (W : wf_date (y + 1, 1, 1)) by (unfold wf_date; cbn; lia).
      split; [exact W|]. destruct (day_number_bounds _ _ _ W) as [E' _].
      rewrite E, E'. rewrite DayFromYear_step. unfold DaysInYear.
      cbn. destruct (leap y); lia.
Qed.

(** The text of [getNextDay] on a date string naming the date [d]: the
    year as it is, the month and the day padded to two digits. *)
Lemma getNextDay_next_date (s : str) (d : date) :
  parse_iso_date s = Some d ->
  getNextDay s =
  (let '(y, m, dd) := next_date d in
   show_Z y ++ js "-" ++ padStart0 2 (show_Z m) ++ js "-"
   ++ padStart0 2 (show_Z dd)).
Proof.
  intros Hs.
  pose proof (valid_date_wf _ (parse_iso_date_valid _ _ Hs)) as Wd.
  destruct (next_date_wf _ Wd) as [Wn En].
  unfold getNextDay, new_Date_at. rewrite Hs.
  destruct d as [[y m] dd].
  set (t := MakeDate (MakeDay y (m - 1) dd) (MakeTime 0 0 0 0)).
  assert (Dt : Day t = day_number (y, m, dd)).
  { subst t. apply Day_MakeDate. unfold msPerDay. cbn. lia. }
  pose proof (date_of_day_number _ _ _ _ Wd Dt) as Et.
  unfold date_of_time in Et. injection Et as Ey Em Ed.
  unfold getDate, num_add, setDate, option_map. rewrite Ey, Ed.
  replace (MonthFromTime t) with (m - 1) by lia.
  set (t' := MakeDate (MakeDay y (m - 1) (dd + 1)) (TimeWithinDay t)).
  assert (Dt' : Day t' = day_number (next_date (y, m, dd))).
  { rewrite En. subst t'. rewrite Day_MakeDate.
    - unfold day_number. destruct Wd as [Hm _].
      rewrite !MakeDay_in_year by lia. lia.
    - unfold TimeWithinDay. apply Z.mod_pos_bound. reflexivity. }
  destruct (next_date (y, m, dd)) as [[y' m'] dd'].
  pose proof (date_of_day_number _ _ _ _ Wn Dt') as Et'.
  unfold date_of_time in Et'. injection Et' as Ey' Em' Ed'.
  unfold getFullYear, getMonth, option_map, show_num.
  rewrite Ey', Ed'. replace (MonthFromTime t' + 1) with m' by lia.
  reflexivity.
Qed.

(** ** Grouping the opening hours *)

Lemma str_eqb_eq (a b : str) : str_eqb a b = true <-> a = b.
Proof.
  revert b. induction a as [|x a IH]; destruct b as [|y b]; simpl;
    try (split; [discriminate|discriminate]); try tauto.
  rewrite andb_true_iff, N.eqb_eq, IH. split.
  - intros [-> ->]. reflexivity.
  - intros H. injection H as -> ->. split; reflexivity.
Qed.

Lemma str_eqb_refl (a : str) : str_eqb a a = true.
Proof. now apply str_eqb_eq. Qed.

Lemma str_eqb_neq (a b : str) : str_eqb a b = false <-> a <> b.
Proof.
  rewrite <- str_eqb_eq. destruct (str_eqb a b); split; congruence.
Qed.

Lemma pair_eqb_eq (p q : str * str) : pair_eqb p q = true <-> p = q.
Proof.
  destruct p as [a b], q as [c d]. unfold pair_eqb. simpl.
  rewrite andb_true_iff, !str_eqb_eq. split.
  - intros [-> ->]. reflexivity.
  - intros H. injection H as -> ->. split; reflexivity.
Qed.

Lemma pair_eqb_refl (p : str * str) : pair_eqb p p = true.
Proof. now apply pair_eqb_eq. Qed.

Lemma pair_eqb_sym (p q : str * str) : pair_eqb p q = pair_eqb q p.
Proof.
  destruct (pair_eqb p q) eqn:E1, (pair_eqb q p) eqn:E2; try reflexivity.
  - apply pair_eqb_eq in E1. subst q. now rewrite pair_eqb_refl in E2.
  - apply pair_eqb_eq in E2. subst q. now rewrite pair_eqb_refl in E1.
Qed.

Lemma app_sep_inj (c : N) (a a' b b' : str) :
  ~ In c a -> ~ In c a' -> a ++ c :: b = a' ++ c :: b' -> a = a' /\ b = b'.
Proof.
  revert a'. induction a as [|x a IH]; intros [|y a'] Ha Ha' E; simpl in E.
  - injection E as ->. split; reflexivity.
  - injection E as <- _. exfalso. apply Ha'. now left.
  - injection E as -> _. exfalso. apply Ha. now left.
  - injection E as -> E. destruct (IH a') as [-> ->]; auto.
    + intros H. apply Ha. now right.
    + intros H. apply Ha'. now right.
Qed.

Lemma key_of_eqb (p q : str * str) :
  dashless p -> dashless q -> str_eqb (key_of p) (key_of q) = pair_eqb p q.
Proof.
  intros [Hp _] [Hq _].
  destruct (pair_eqb p q) eqn:E.
  - apply pair_eqb_eq in E. subst q. apply str_eqb_refl.
  - apply str_eqb_neq. intros K. unfold key_of in K.
    change (js "-") with [45%N] in K. simpl in K.
    apply app_sep_inj in K; try assumption. destruct K as [K1 K2].
    destruct p, q. simpl in *. subst.
    now rewrite pair_eqb_refl in E.
Qed.

Lemma rule_of_slot_key (p : str * str) (ds : list str) :
  dashless p ->
  rule_of_slot (key_of p, ds) =
  {| dayOfWeek := ds; opens := fst p; closes := snd p |}.
Proof.
  intros [H1 H2]. unfold rule_of_slot, key_of. simpl fst. simpl snd.
  change (js "-") with [45%N]. simpl app.
  rewrite split_on_app_sep by assumption.
  rewrite split_on_no_sep by assumption. reflexivity.
Qed.

Lemma distinct_first_seen_snoc (l : list (str * str)) (p : str * str) :
  distinct_first_seen (l ++ [p]) =
  if existsb (pair_eqb p) l then distinct_first_seen l
  else distinct_first_seen l ++ [p].
Proof.
  induction l as [|a l IH]; simpl; [reflexivity|].
  rewrite IH. rewrite (pair_eqb_sym p a).
  destruct (existsb (pair_eqb p) l) eqn:E.
  - rewrite orb_true_r. reflexivity.
  - rewrite orb_false_r. rewrite filter_app. simpl.
    destruct (pair_eqb a p); simpl.
    + now rewrite app_nil_r.
    + reflexivity.
Qed.

Lemma in_distinct_first_seen (l : list (str * str)) (p : str * str) :
  In p (distinct_first_seen l) <-> In p l.
Proof.
  induction l as [|a l IH]; simpl; [tauto|].
  rewrite filter_In, IH. split.
  - intros [H|[H _]]; auto.
  - intros [H|H]; auto.
    destruct (pair_eqb a p) eqn:E.
    + apply pair_eqb_eq in E. auto.
    + right. split; [assumption|reflexivity].
Qed.

Lemma distinct_first_seen_NoDup (l : list (str * str)) :
  NoDup (distinct_first_seen l).
Proof.
  induction l as [|a l IH]; simpl; constructor.
  - rewrite filter_In. intros [_ H]. now rewrite pair_eqb_refl in H.
  - now apply NoDup_filter.
Qed.

Lemma existsb_pair_In (p : str * str) (l : list (str * str)) :
  existsb (pair_eqb p) l = true <-> In p l.
Proof.
  rewrite existsb_exists. split.
  - intros [q [Hq E]]. apply pair_eqb_eq in E. now subst q.
  - intros H. exists p. split; [assumption|apply pair_eqb_refl].
Qed.

(** Adding a day to the slots, when the keys stand for distinct pairs. *)
Lemma slot_push_present (p0 : str * str) (d : str)
    (D : str * str -> list str) (L : list (str * str)) :
  dashless p0 -> Forall dashless L -> NoDup L -> In p0 L ->
  slot_push (key_of p0) d (map (fun p => (key_of p, D p)) L) =
  map (fun p => (key_of p, D p ++ if pair_eqb p p0 then [d] else [])) L.
Proof.
  intros H0 HL. induction L as [|a L IH]; intros ND Hin; [destruct Hin|].
  inversion HL as [|? ? Ha HL']; subst. inversion ND as [|? ? Hna ND']; subst.
  simpl. rewrite key_of_eqb by assumption.
  destruct (pair_eqb a p0) eqn:E.
  - apply pair_eqb_eq in E. subst a. f_equal.
    apply map_ext_in. intros q Hq.
    destruct (pair_eqb q p0) eqn:E'.
    + apply pair_eqb_eq in E'. subst q. contradiction.
    + now rewrite app_nil_r.
  - rewrite app_nil_r. f_equal. apply IH; try assumption.
    destruct Hin as [->|H]; [|assumption].
    now rewrite pair_eqb_refl in E.
Qed.

Lemma slot_push_absent (p0 : str * str) (d : str)
    (D : str * str -> list str) (L : list (str * str)) :
  dashless p0 -> Forall dashless L -> ~ In p0 L ->
  slot_push (key_of p0) d (map (fun p => (key_of p, D p)) L) =
  map (fun p => (key_of p, D p ++ if pair_eqb p p0 then [d] else [])) L
  ++ [(key_of p0, [d])].
Proof.
  intros H0 HL. induction L as [|a L IH]; intros Hin; [reflexivity|].
  inversion HL as [|? ? Ha HL']; subst.
  simpl. rewrite key_of_eqb by assumption.
  destruct (pair_eqb a p0) eqn:E.
  - apply pair_eqb_eq in E. subst a. exfalso. apply Hin. now left.
  - rewrite app_nil_r. f_equal. apply IH; try assumption.
    intros H. apply Hin. now right.
Qed.

Lemma times_present_dashless (h : DaySchedule) :
  times_present h -> closed h = false -> dashless (times h) /\
  slot_key h = key_of (times h).
Proof.
  intros H Hc. destruct (H Hc) as [o [c [Ho [Hcl [H1 H2]]]]].
  unfold dashless, times, slot_key, key_of. rewrite Ho, Hcl. simpl.
  auto.
Qed.

Lemma open_days_dashless (hs : list DaySchedule) :
  Forall times_present hs ->
  Forall dashless (map times (open_days hs)).
Proof.
  intros H. apply Forall_forall. intros p Hp.
  apply in_map_iff in Hp. destruct Hp as [h [<- Hh]].
  unfold open_days in Hh. apply filter_In in Hh. destruct Hh as [Hin Hc].
  rewrite Forall_forall in H.
  apply times_present_dashless; [now apply H|].
  now destruct (closed h).
Qed.

Lemma filter_none {A : Type} (f : A -> bool) (l : list A) :
  (forall x, In x l -> f x = false) -> filter f l = [].
Proof.
  induction l as [|a l IH]; intros H; [reflexivity|]. simpl.
  rewrite (H a) by now left. apply IH. intros x Hx. apply H. now right.
Qed.

Lemma hoursBySlot_grouped (hs : list DaySchedule) :
  Forall times_present hs ->
  hoursBySlot hs =
  map (fun p => (key_of p, days_of hs p))
      (distinct_first_seen (map times (open_days hs))).
Proof.
  induction hs as [|h hs IH] using rev_ind; intros Hv; [reflexivity|].
  apply Forall_app in Hv. destruct Hv as [Hv Hh].
  inversion Hh as [|? ? Hh' _]; subst.
  unfold hoursBySlot. rewrite fold_left_app. simpl.
  fold (hoursBySlot hs). rewrite IH by assumption.
  unfold days_of, open_days. rewrite filter_app. simpl.
  destruct (closed h) eqn:Hc; simpl.
  - rewrite app_nil_r. reflexivity.
  - destruct (times_present_dashless h Hh' Hc) as [Hd Hk]. rewrite Hk.
    fold (open_days hs).
    pose proof (open_days_dashless hs Hv) as HL.
    assert (HL' : Forall dashless (distinct_first_seen (map times (open_days hs)))).
    { apply Forall_forall. intros p Hp.
      apply (proj1 (in_distinct_first_seen _ _)) in Hp.
      rewrite Forall_forall in HL. now apply HL. }
    rewrite map_app. simpl. rewrite distinct_first_seen_snoc.
    destruct (existsb (pair_eqb (times h)) (map times (open_days hs))) eqn:E.
    + apply (proj1 (existsb_pair_In _ _)) in E.
      apply (proj2 (in_distinct_first_seen _ _)) in E.
      rewrite slot_push_present; try assumption;
        [|apply distinct_first_seen_NoDup].
      apply map_ext. intros p. f_equal.
      rewrite filter_app, map_app. simpl.
      destruct (pair_eqb p (times h)); reflexivity.
    + assert (Hn : ~ In (times h) (distinct_first_seen (map times (open_days hs)))).
      { rewrite in_distinct_first_seen, <- existsb_pair_In. now rewrite E. }
      rewrite slot_push_absent; try assumption.
      rewrite map_app. simpl. f_equal.
      * apply map_ext. intros p. f_equal.
        rewrite filter_app, map_app. simpl.
        destruct (pair_eqb p (times h)); reflexivity.
      * f_equal. f_equal. rewrite filter_app, map_app. simpl.
        rewrite pair_eqb_refl. simpl.
        replace (filter (fun h0 => pair_eqb (times h) (times h0)) (open_days hs))
          with (@nil DaySchedule); [reflexivity|].
        symmetry. apply filter_none. intros x Hx.
        destruct (pair_eqb (times h) (times x)) eqn:E'; [|reflexivity].
        apply pair_eqb_eq in E'. exfalso. apply Hn.
        apply in_distinct_first_seen. rewrite E'. now apply in_map.
Qed.

Lemma grouped_rules_of_slots (hs : list DaySchedule) :
  Forall times_present hs ->
  map rule_of_slot (hoursBySlot hs) = grouped_rules hs.
Proof.
  intros Hv. rewrite hoursBySlot_grouped by assumption.
  unfold grouped_rules. rewrite map_map. apply map_ext_in.
  intros p Hp. apply (proj1 (in_distinct_first_seen _ _)) in Hp.
  pose proof (open_days_dashless hs Hv) as HL.
  rewrite Forall_forall in HL.
  rewrite rule_of_slot_key by now apply HL. reflexivity.
Qed.

(** C5: with no closure active and both times present on the open days,
    the rules of the structured data are the grouping that the
    specification describes; the profile of [business-data.js] gives two
    rules, Tuesday to Friday first and Saturday second. *)
Theorem generateStructuredData_groups_hours
    (bd : BusinessData) (now : Z) (options : Options) :
  getActiveTemporaryClosure bd now = None ->
  Forall times_present (hours bd) ->
  openingHours bd now = grouped_rules (hours bd) /\
  sd_openingHoursSpecification (generateStructuredData bd now options) =
    (match grouped_rules (hours bd) with
     | [] => None
     | rules => Some rules
     end) /\
  (forall now' : Z,
     sd_openingHoursSpecification
       (generateStructuredData businessData now' options) =
     Some [ {| dayOfWeek := [js "Tuesday"; js "Wednesday"; js "Thursday";
                             js "Friday"];
               opens := js "09:30"; closes := js "17:00" |};
            {| dayOfWeek := [js "Saturday"];
               opens := js "09:00"; closes := js "17:00" |} ]).
Proof.
  intros Hc Hv.
  assert (E : openingHours bd now = grouped_rules (hours bd)).
  { unfold openingHours. rewrite Hc. now apply grouped_rules_of_slots. }
  split; [exact E|]. split.
  - unfold generateStructuredData. simpl. rewrite E.
    destruct (grouped_rules (hours bd)); reflexivity.
  - intros now'. reflexivity.
Qed.

Lemma generateStructuredData_groups_hours_witness :
  openingHours businessData 0 = grouped_rules (hours businessData).
Proof.
  apply (generateStructuredData_groups_hours businessData 0 no_options).
  - reflexivity.
  - unfold businessData, hours.
    repeat (apply Forall_cons;
            [ unfold times_present; cbn; intros H;
              first [ discriminate H
                    | eexists; eexists; split; [reflexivity|];
                      split; [reflexivity|]; vm_compute;
                      intuition discriminate ] | ]).
    apply Forall_nil.
Defined.

(** ** Days that are all closed *)

Lemma hoursBySlot_all_closed (hs : list DaySchedule) (m : slots) :
  Forall (fun h => closed h = true) hs ->
  fold_left
    (fun m h => if closed h then m else slot_push (slot_key h) (day h) m)
    hs m = m.
Proof.
  revert m. induction hs as [|h hs IH]; intros m H; [reflexivity|].
  inversion H as [|? ? Hh Hr]; subst. simpl. rewrite Hh. now apply IH.
Qed.

Lemma openingHours_all_closed (bd : BusinessData) (now : Z) :
  Forall (fun h => closed h = true) (hours bd) -> openingHours bd now = [].
Proof.
  intros H. unfold openingHours.
  destruct (getActiveTemporaryClosure bd now); [reflexivity|].
  unfold hoursBySlot. now rewrite hoursBySlot_all_closed.
Qed.

Lemma json_prop_openingHours (d : StructuredDataRecord) :
  json_prop key_openingHours (json_of_data d) =
  option_map (fun rs => JArray (map json_of_rule rs))
             (sd_openingHoursSpecification d).
Proof.
  unfold json_of_data.
  destruct (sd_openingHoursSpecification d), (sd_servesCuisine d);
    reflexivity.
Qed.

(** C6 as stated fails: with every day closed the data object has no
    [openingHoursSpecification] property at all, where the claim has an
    empty list. *)
Lemma all_closed_not_an_empty_list :
  Forall (fun h => closed h = true) (hours allClosedData) /\
  getActiveTemporaryClosure allClosedData 0 = None /\
  json_prop key_openingHours
    (json_of_data (generateStructuredData allClosedData 0 no_options))
  <> Some (JArray []) /\
  includes (generateStructuredDataJSON allClosedData 0 no_options)
           key_openingHours = false.
Proof.
  split; [repeat constructor|]. split; [reflexivity|]. split.
  - vm_compute. discriminate.
  - vm_compute. reflexivity.
Qed.

(** C6, amended: with every day closed and no closure active the grouping
    gives no rule, and the data object is built without the
    [openingHoursSpecification] property; nothing fails. *)
Theorem all_closed_omits_opening_hours
    (bd : BusinessData) (now : Z) (options : Options) :
  Forall (fun h => closed h = true) (hours bd) ->
  getActiveTemporaryClosure bd now = None ->
  map rule_of_slot (hoursBySlot (hours bd)) = [] /\
  openingHours bd now = [] /\
  sd_openingHoursSpecification (generateStructuredData bd now options) = None /\
  json_prop key_openingHours
    (json_of_data (generateStructuredData bd now options)) = None.
Proof.
  intros H Hc.
  assert (E : openingHours bd now = []) by now apply openingHours_all_closed.
  split.
  - unfold hoursBySlot. now rewrite hoursBySlot_all_closed.
  - split; [exact E|].
    assert (S : sd_openingHoursSpecification
                  (generateStructuredData bd now options) = None).
    { unfold generateStructuredData. simpl. now rewrite E. }
    split; [exact S|]. now rewrite json_prop_openingHours, S.
Qed.

Lemma all_closed_omits_opening_hours_witness :
  json_prop key_openingHours
    (json_of_data (generateStructuredData allClosedData 0 no_options)) = None.
Proof.
  apply (all_closed_omits_opening_hours allClosedData 0 no_options).
  - repeat constructor.
  - reflexivity.
Defined.

(** ** Closure suppression in the structured data *)

Lemma openingHours_closed (bd : BusinessData) (now : Z)
    (tc : TemporaryClosure) :
  getActiveTemporaryClosure bd now = Some tc -> openingHours bd now = [].
Proof. intros H. unfold openingHours. now rewrite H. Qed.

Lemma structured_data_closed (bd : BusinessData) (now : Z)
    (tc : TemporaryClosure) (options : Options) :
  getActiveTemporaryClosure bd now = Some tc ->
  sd_openingHoursSpecification (generateStructuredData bd now options) = None.
Proof.
  intros H. unfold generateStructuredData. simpl.
  now rewrite (openingHours_closed bd now tc H).
Qed.

(** ** When a document is written *)

Lemma update_content_steps (bd : BusinessData) (now : Z)
    (filePath content : str) :
  update_content bd now filePath content =
  run_steps (steps_for bd now filePath) (content, false).
Proof.
  unfold update_content, steps_for, run_steps.
  destruct (includes filePath (js "contact.html")); reflexivity.
Qed.

Lemma anchors_for_steps (bd : BusinessData) (now : Z) (filePath : str) :
  map fst (steps_for bd now filePath) = anchors_for filePath.
Proof.
  unfold steps_for, anchors_for.
  destruct (includes filePath (js "contact.html")); reflexivity.
Qed.

Lemma replace_anchor_test (re : anchor_regex) (f c : str) (u : bool) :
  (test re c = false /\ replace_anchor re f (c, u) = (c, u)) \/
  (test re c = true /\ snd (replace_anchor re f (c, u)) = true).
Proof.
  unfold test, replace_anchor. simpl.
  destruct (exec re c) as [[[[pre g1] g3] post]|]; [right|left]; auto.
Qed.

Lemma run_steps_flag_true (steps : list (anchor_regex * str)) (c : str) :
  snd (run_steps steps (c, true)) = true.
Proof.
  revert c. induction steps as [|[re f] steps IH]; intros c; [reflexivity|].
  unfold run_steps. simpl.
  destruct (replace_anchor re f (c, true)) as [c' u] eqn:E.
  assert (u = true).
  { destruct (replace_anchor_test re f c true) as [[_ H]|[_ H]];
      rewrite E in H; [now injection H|exact H]. }
  subst u. apply IH.
Qed.

Lemma run_steps_flag (steps : list (anchor_regex * str)) (c : str) :
  snd (run_steps steps (c, false)) =
    existsb (fun re => test re c) (map fst steps) /\
  (existsb (fun re => test re c) (map fst steps) = false ->
   fst (run_steps steps (c, false)) = c).
Proof.
  induction steps as [|[re f] steps IH]; [split; reflexivity|].
  unfold run_steps. simpl.
  destruct (replace_anchor_test re f c false) as [[Ht E]|[Ht E]]; rewrite Ht.
  - rewrite E. exact IH.
  - destruct (replace_anchor re f (c, false)) as [c' u]. simpl in E. subst u.
    split; [apply run_steps_flag_true|discriminate].
Qed.

(** C3 as stated fails: a document whose only anchor already holds the
    current text is matched, nothing in it changes, and it is written and
    reported as updated all the same. *)
Lemma unchanged_document_is_rewritten :
  update_content businessData 0 (js "public/index.html") currentBrandPage
    = (currentBrandPage, true) /\
  (let '(w, r) := updateHTMLFile businessData 0 (js "public/index.html")
                    (oneFileWorld (js "public/index.html") currentBrandPage)
   in writes w = [js "public/index.html"] /\ r = true).
Proof. split; vm_compute; auto. Qed.

(** C3, amended: a document is written exactly when at least one of the
    patterns tried on it matches its content, whether or not the text
    changes; a document that no pattern matches is not written, keeps its
    content, and is reported as needing no update. *)
Theorem document_written_iff_anchor_matched
    (bd : BusinessData) (now : Z) (publicDir fileName content : str)
    (w : World) (log : list report) (count : Z) :
  files w (path_join publicDir fileName) = Some content ->
  main_step bd now publicDir (w, log, count) fileName =
    (if matched_any (path_join publicDir fileName) content
     then (writeFileSync (path_join publicDir fileName)
             (fst (update_content bd now (path_join publicDir fileName)
                     content)) w,
           log ++ [Updated fileName], count + 1)
     else (w, log ++ [NoUpdatesNeeded fileName], count)) /\
  (matched_any (path_join publicDir fileName) content = false ->
   update_content bd now (path_join publicDir fileName) content
     = (content, false)) /\
  (matched_any (path_join publicDir fileName) content = true ->
   snd (update_content bd now (path_join publicDir fileName) content) = true).
Proof.
  intros Hf.
  unfold main_step, existsSync, updateHTMLFile. rewrite Hf.
  set (filePath := path_join publicDir fileName).
  pose proof (run_steps_flag (steps_for bd now filePath) content) as [F U].
  rewrite anchors_for_steps in F, U. fold (matched_any filePath content) in F, U.
  rewrite <- update_content_steps in F, U.
  destruct (update_content bd now filePath content) as [c' u].
  simpl in F, U. subst u.
  destruct (matched_any filePath content); simpl.
  - repeat split; auto. discriminate.
  - repeat split; auto; try discriminate. intros _. now rewrite U.
Qed.

Lemma document_written_iff_anchor_matched_witness :
  main_step businessData 0 (js "public")
    (oneFileWorld (js "public/index.html") currentBrandPage, [], 0)
    (js "index.html") =
  (writeFileSync (js "public/index.html")
     (fst (update_content businessData 0 (js "public/index.html")
             currentBrandPage))
     (oneFileWorld (js "public/index.html") currentBrandPage),
   [Updated (js "index.html")], 1).
Proof.
  apply (proj1 (document_written_iff_anchor_matched businessData 0
                  (js "public") (js "index.html") currentBrandPage
                  (oneFileWorld (js "public/index.html") currentBrandPage)
                  [] 0 eq_refl)).
Defined.

(** ** Matching, atom by atom *)

Lemma take_while_app (p : N -> bool) (w x : str) :
  forallb p w = true ->
  (x = [] \/ exists c x', x = c :: x' /\ p c = false) ->
  take_while p (w ++ x) = w /\ drop_while p (w ++ x) = x.
Proof.
  intros Hw Hx. induction w as [|a w IH]; simpl in *.
  - destruct Hx as [->|[c [x' [-> Hc]]]]; simpl; [auto|]. now rewrite Hc.
  - apply andb_prop in Hw. destruct Hw as [Ha Hw]. rewrite Ha.
    destruct (IH Hw) as [-> ->]. auto.
Qed.

Lemma first_of_single {A B : Type} (f : A -> option B) (a : A) :
  first_of f [a] = f a.
Proof. simpl. now destruct (f a). Qed.

Lemma first_of_app {A B : Type} (f : A -> option B) (l1 l2 : list A) :
  first_of f (l1 ++ l2) =
  match first_of f l1 with Some y => Some y | None => first_of f l2 end.
Proof.
  induction l1 as [|a l1 IH]; simpl; [reflexivity|].
  destruct (f a); [reflexivity|exact IH].
Qed.

Lemma first_of_map {A B C : Type} (f : B -> option C) (g : A -> B)
    (l : list A) :
  first_of f (map g l) = first_of (fun x => f (g x)) l.
Proof.
  induction l as [|a l IH]; simpl; [reflexivity|].
  destruct (f (g a)); [reflexivity|exact IH].
Qed.

Lemma first_of_flat_map {A B C : Type} (f : B -> option C)
    (g : A -> list B) (l : list A) :
  first_of f (flat_map g l) = first_of (fun x => first_of f (g x)) l.
Proof.
  induction l as [|a l IH]; simpl; [reflexivity|].
  rewrite first_of_app, IH. reflexivity.
Qed.

Lemma first_of_ext {A B : Type} (f g : A -> option B) (l : list A) :
  (forall x, f x = g x) -> first_of f l = first_of g l.
Proof.
  intros H. induction l as [|a l IH]; simpl; [reflexivity|].
  now rewrite H, IH.
Qed.

Lemma first_of_match_seq_cons {A : Type} (k : str * str -> option A)
    (a : atom) (atoms : list atom) (s : str) :
  first_of k (match_seq (a :: atoms) s) =
  first_of
    (fun p => first_of (fun q => k (fst p ++ fst q, snd q))
                       (match_seq atoms (snd p)))
    (match_atom a s).
Proof.
  simpl. rewrite first_of_flat_map. apply first_of_ext. intros p.
  now rewrite first_of_map.
Qed.

Lemma first_of_greedy {A : Type} (k : str * str -> option A)
    (p : N -> bool) (s : str) :
  (forall x c t, p c = true -> k (x, c :: t) = None) ->
  first_of k (greedy p s) = k (take_while p s, drop_while p s).
Proof.
  revert k. induction s as [|c s IH]; intros k Hk.
  - apply first_of_single.
  - simpl. destruct (p c) eqn:Hc.
    + rewrite first_of_app, first_of_map.
      rewrite (IH (fun x => k (push c x))).
      * unfold push. cbn [fst snd].
        destruct (k (c :: take_while p s, drop_while p s));
          [reflexivity|].
        rewrite first_of_single. now apply Hk.
      * intros x c' t Hc'. unfold push. simpl. now apply Hk.
    + apply first_of_single.
Qed.

Lemma first_of_greedy_plus {A : Type} (k : str * str -> option A)
    (p : N -> bool) (s : str) :
  (forall x c t, p c = true -> k (x, c :: t) = None) ->
  first_of k (greedy_plus p s) =
  match take_while p s with
  | [] => None
  | _ => k (take_while p s, drop_while p s)
  end.
Proof.
  intros Hk. destruct s as [|c s]; simpl; [reflexivity|].
  destruct (p c) eqn:Hc; [|reflexivity].
  rewrite first_of_map. rewrite (first_of_greedy (fun x => k (push c x))).
  - reflexivity.
  - intros x c' t Hc'. unfold push. simpl. now apply Hk.
Qed.

Lemma strip_prefix_app (l s : str) : strip_prefix l (l ++ s) = Some s.
Proof.
  induction l as [|a l IH]; simpl; [reflexivity|].
  now rewrite N.eqb_refl.
Qed.

Lemma strip_prefix_is_prefix (l s : str) :
  is_prefix l s = false -> strip_prefix l s = None.
Proof.
  revert s. induction l as [|a l IH]; intros [|b s] H; simpl in *;
    try discriminate; try reflexivity.
  destruct (N.eqb a b); simpl in H; [now apply IH|reflexivity].
Qed.

Lemma is_prefix_app (l s : str) : is_prefix l (l ++ s) = true.
Proof.
  induction l as [|a l IH]; simpl; [reflexivity|].
  now rewrite N.eqb_refl.
Qed.

Lemma is_prefix_split (l s : str) :
  is_prefix l s = true -> exists r, s = l ++ r.
Proof.
  revert s. induction l as [|a l IH]; intros s H; simpl in *.
  - now exists s.
  - destruct s as [|b s]; [discriminate|].
    apply andb_prop in H. destruct H as [Hab H].
    apply N.eqb_eq in Hab. subst b.
    destruct (IH s H) as [r ->]. now exists r.
Qed.

Lemma match_lit_none (L : str) (atoms : list atom) (s : str) :
  is_prefix L s = false -> match_seq (Lit L :: atoms) s = [].
Proof.
  intros H. simpl. now rewrite (strip_prefix_is_prefix L s H).
Qed.

Lemma match_lit_mismatch (l0 c : N) (L : str) (atoms : list atom) (t : str) :
  N.eqb l0 c = false -> match_seq (Lit (l0 :: L) :: atoms) (c :: t) = [].
Proof. intros H. apply match_lit_none. simpl. now rewrite H. Qed.

Lemma exact_lit_last (L : str) : exact [Lit L] L.
Proof.
  intros A k r. rewrite first_of_match_seq_cons. unfold match_atom.
  rewrite strip_prefix_app. simpl. rewrite app_nil_r.
  now destruct (k (L, r)).
Qed.

Lemma exact_lit (L : str) (atoms : list atom) (x : str) :
  exact atoms x -> exact (Lit L :: atoms) (L ++ x).
Proof.
  intros H A k r. rewrite first_of_match_seq_cons. unfold match_atom.
  rewrite <- app_assoc, strip_prefix_app. rewrite first_of_single.
  exact (H A (fun q => k (L ++ fst q, snd q)) r).
Qed.

Lemma exact_star (a : atom) (p : N -> bool) (l0 : N) (L : str)
    (atoms : list atom) (w x : str) :
  (forall s, match_atom a s = greedy p s) ->
  p l0 = false -> forallb p w = true ->
  exact (Lit (l0 :: L) :: atoms) (l0 :: x) ->
  exact (a :: Lit (l0 :: L) :: atoms) (w ++ l0 :: x).
Proof.
  intros Ha Hl Hw H A k r. rewrite first_of_match_seq_cons, Ha.
  rewrite first_of_greedy.
  - rewrite <- app_assoc.
    destruct (take_while_app p w ((l0 :: x) ++ r) Hw) as [-> ->].
    { right. exists l0, (x ++ r). auto. }
    exact (H A (fun q => k (w ++ fst q, snd q)) r).
  - intros y c t Hc. simpl snd. rewrite match_lit_mismatch; [reflexivity|].
    apply N.eqb_neq. intros ->. congruence.
Qed.

Lemma needs_match_lit {A : Type} (c0 : N) (L : str) (atoms : list atom)
    (k : str * str -> str * str -> option A) :
  needs c0 (fun p => first_of (k p) (match_seq (Lit (c0 :: L) :: atoms) (snd p))).
Proof.
  intros x c t H. simpl snd. rewrite match_lit_mismatch; [reflexivity|].
  now rewrite N.eqb_sym.
Qed.

Lemma needs_shift {A : Type} (c0 : N) (k : str * str -> option A) (w : str) :
  needs c0 k -> needs c0 (fun q => k (w ++ fst q, snd q)).
Proof. intros H x c t Hc. simpl. now apply H. Qed.

Lemma plus_before {A : Type} (c0 : N) (k : str * str -> option A)
    (inner r : str) :
  needs c0 k -> inner <> [] -> forallb (none_of c0) inner = true ->
  first_of k (match_seq [NoneOfPlus c0] (inner ++ c0 :: r)) =
  k (inner, c0 :: r).
Proof.
  intros Hk Hne Hin. rewrite first_of_match_seq_cons. unfold match_atom.
  rewrite first_of_greedy_plus.
  - destruct (take_while_app (none_of c0) inner (c0 :: r) Hin) as [-> ->].
    { right. exists c0, r. split; [reflexivity|].
      unfold none_of. now rewrite N.eqb_refl. }
    destruct inner; [congruence|]. simpl. rewrite app_nil_r.
    now destruct (k (n :: inner, c0 :: r)).
  - intros x c t Hc. simpl. rewrite Hk; [reflexivity|].
    unfold none_of in Hc. now destruct (N.eqb c c0).
Qed.

Lemma plus_lit_plus_before {A : Type} (c0 : N) (L : str)
    (k : str * str -> option A) (a b r : str) :
  needs c0 k -> a <> [] -> forallb (none_of c0) a = true ->
  b <> [] -> forallb (none_of c0) b = true ->
  first_of k (match_seq [NoneOfPlus c0; Lit (c0 :: L); NoneOfPlus c0]
                        (a ++ (c0 :: L) ++ b ++ c0 :: r)) =
  k (a ++ (c0 :: L) ++ b, c0 :: r).
Proof.
  intros Hk Ha1 Ha2 Hb1 Hb2. rewrite first_of_match_seq_cons.
  unfold match_atom. rewrite first_of_greedy_plus.
  - destruct (take_while_app (none_of c0) a ((c0 :: L) ++ b ++ c0 :: r) Ha2)
      as [-> ->].
    { right. exists c0, (L ++ b ++ c0 :: r). split; [reflexivity|].
      unfold none_of. now rewrite N.eqb_refl. }
    destruct a as [|a0 a]; [congruence|]. cbn [fst snd].
    rewrite first_of_match_seq_cons. unfold match_atom.
    rewrite strip_prefix_app, first_of_single. cbn [fst snd].
    rewrite (plus_before c0
               (fun q => k ((a0 :: a) ++ (c0 :: L) ++ fst q, snd q)) b r);
      try assumption.
    + reflexivity.
    + intros x c t Hc. simpl. now apply Hk.
  - intros x c t Hc. simpl snd. rewrite match_lit_mismatch; [reflexivity|].
    unfold none_of in Hc. rewrite N.eqb_sym. now destruct (N.eqb c c0).
Qed.

(** *** The lazy middle *)

Lemma lazy_scan {A : Type} (e : str -> option A) (t : str) :
  (forall c u, is_space c = true -> e (c :: u) = None) ->
  first_of (fun q => e (snd q)) (match_seq [AnyLazy; Spaces] t) = scan e t.
Proof.
  intros He. rewrite first_of_match_seq_cons. unfold match_atom.
  assert (E : forall u : str * str,
            first_of (fun q => e (snd q)) (match_seq [Spaces] (snd u)) =
            e (drop_while is_space (snd u))).
  { intros u. rewrite first_of_match_seq_cons. unfold match_atom.
    rewrite first_of_greedy.
    - simpl. now destruct (e (drop_while is_space (snd u))).
    - intros x c v Hc. simpl. now rewrite He. }
  rewrite (first_of_ext _ _ _ E). clear E.
  induction t as [|c t IH]; simpl.
  - now destruct (e []).
  - destruct (e (if is_space c then drop_while is_space t else c :: t));
      [reflexivity|].
    rewrite first_of_map. exact IH.
Qed.

Lemma greedy_head (p : N -> bool) (s : str) :
  exists tl, greedy p s = (take_while p s, drop_while p s) :: tl.
Proof.
  induction s as [|c s [tl IH]]; simpl.
  - now exists [].
  - destruct (p c).
    + rewrite IH. simpl. eexists. reflexivity.
    + now exists [].
Qed.

Lemma lazy_middle {A : Type} (e : str -> option A) (s : str) (y : A) :
  (forall c u, is_space c = true -> e (c :: u) = None) ->
  scan e (drop_while is_space s) = Some y ->
  first_of (fun q => e (snd q)) (match_seq [Spaces; AnyLazy; Spaces] s)
  = Some y.
Proof.
  intros He Hs. rewrite first_of_match_seq_cons. unfold match_atom.
  destruct (greedy_head is_space s) as [tl ->]. cbn [first_of fst snd].
  rewrite (lazy_scan e _ He), Hs. reflexivity.
Qed.

(** ** Anchor regions *)

(** *** A region is matched by the pattern of its kind *)

Lemma first_of_exact {A : Type} (atoms : list atom) (x r : str)
    (k : str * str -> option A) :
  exact atoms x -> first_of k (match_seq atoms (x ++ r)) = k (x, r).
Proof. intros H. apply H. Qed.

Lemma match_here_plain (sg eg : list atom) (c0 : N) (L : str)
    (atoms : list atom) (g1 g3 inner rest : str) :
  eg = Lit (c0 :: L) :: atoms ->
  exact sg g1 -> exact eg (c0 :: g3) ->
  inner <> [] -> forallb (none_of c0) inner = true ->
  match_here {| start_group := sg; middle := [NoneOfPlus c0];
                end_group := eg |}
             (g1 ++ inner ++ (c0 :: g3) ++ rest)
  = Some (g1, c0 :: g3, rest).
Proof.
  intros -> Hs He Hne Hin. unfold match_here. cbn [start_group middle end_group].
  rewrite (first_of_exact _ _ _ _ Hs). cbn [fst snd].
  rewrite (plus_before c0 _ inner (g3 ++ rest)); try assumption.
  - cbn [fst snd]. exact (He _ _ rest).
  - apply needs_match_lit.
Qed.

Lemma match_here_two_lines (sg eg : list atom) (c0 : N) (L Lb : str)
    (atoms : list atom) (g1 g3 a b rest : str) :
  eg = Lit (c0 :: L) :: atoms ->
  exact sg g1 -> exact eg (c0 :: g3) ->
  a <> [] -> forallb (none_of c0) a = true ->
  b <> [] -> forallb (none_of c0) b = true ->
  match_here {| start_group := sg;
                middle := [NoneOfPlus c0; Lit (c0 :: Lb); NoneOfPlus c0];
                end_group := eg |}
             (g1 ++ (a ++ (c0 :: Lb) ++ b) ++ (c0 :: g3) ++ rest)
  = Some (g1, c0 :: g3, rest).
Proof.
  intros -> Hs He Ha1 Ha2 Hb1 Hb2. unfold match_here.
  cbn [start_group middle end_group].
  rewrite (first_of_exact _ _ _ _ Hs). cbn [fst snd].
  replace ((a ++ (c0 :: Lb) ++ b) ++ (c0 :: g3) ++ rest)
    with (a ++ (c0 :: Lb) ++ b ++ c0 :: g3 ++ rest)
    by (now rewrite <- !app_assoc).
  rewrite (plus_lit_plus_before c0 Lb _ a b (g3 ++ rest)); try assumption.
  - cbn [fst snd]. exact (He _ _ rest).
  - apply needs_match_lit.
Qed.

Lemma drop_while_app_stop (p : N -> bool) (b : str) (c : N) (t : str) :
  p c = false -> drop_while p (b ++ c :: t) = drop_while p b ++ c :: t.
Proof.
  intros Hc. induction b as [|x b IH]; simpl.
  - now rewrite Hc.
  - destruct (p x); [exact IH|reflexivity].
Qed.

Lemma scan_inner {A : Type} (e : str -> option A) (Q : str -> Prop)
    (c : N) (g3 rest : str) (y : A) :
  is_space c = false ->
  e (c :: g3 ++ rest) = Some y ->
  (forall x b, Q (x :: b) -> Q b) ->
  (forall b, b <> [] -> Q b -> e (b ++ c :: g3 ++ rest) = None) ->
  forall b, Q b -> scan e (b ++ c :: g3 ++ rest) = Some y.
Proof.
  intros Hc Hy Ht Hn.
  assert (Hd : forall b, Q b -> Q (drop_while is_space b)).
  { induction b as [|x b IH]; intros Hb; simpl; [exact Hb|].
    destruct (is_space x); [apply IH; now apply (Ht x)|exact Hb]. }
  induction b as [|x b IH]; intros Hb.
  - simpl. rewrite Hc, Hy. reflexivity.
  - cbn [scan app]. change (x :: b ++ c :: g3 ++ rest)
      with ((x :: b) ++ c :: g3 ++ rest).
    rewrite drop_while_app_stop by assumption.
    destruct (drop_while is_space (x :: b)) as [|z b'] eqn:E.
    + simpl. rewrite Hy. reflexivity.
    + rewrite Hn; [|discriminate|rewrite <- E; now apply Hd].
      apply IH. now apply (Ht x).
Qed.

(** *** Texts without a sentinel *)

Lemma includes_is_prefix (s p : str) :
  includes s p = false -> is_prefix p s = false.
Proof.
  destruct s; simpl; intros H; apply orb_false_elim in H; tauto.
Qed.

Lemma includes_tail (x : N) (s p : str) :
  includes (x :: s) p = false -> includes s p = false.
Proof. simpl. intros H. apply orb_false_elim in H. tauto. Qed.

Lemma includes_app_r (a b p : str) :
  includes (a ++ b) p = false -> includes b p = false.
Proof.
  induction a as [|x a IH]; simpl; [tauto|]. intros H.
  apply orb_false_elim in H. now apply IH.
Qed.

Lemma includes_drop_while (q : N -> bool) (s p : str) :
  includes s p = false -> includes (drop_while q s) p = false.
Proof.
  induction s as [|x s IH]; intros H; simpl; [exact H|].
  destruct (q x); [|exact H]. apply IH. now apply (includes_tail x).
Qed.

Lemma none_of_not_In (c : N) (s : str) :
  forallb (none_of c) s = true -> ~ In c s.
Proof.
  induction s as [|x s IH]; simpl; intros H; [tauto|].
  apply andb_prop in H. destruct H as [Hx Hs]. intros [->|Hin].
  - unfold none_of in Hx. now rewrite N.eqb_refl in Hx.
  - now apply IH.
Qed.

Lemma is_prefix_stop (q b : str) (c0 : N) (v : str) :
  ~ In c0 q -> is_prefix q (b ++ c0 :: v) = true -> is_prefix q b = true.
Proof.
  revert b. induction q as [|x q IH]; intros b Hq H; [reflexivity|].
  destruct b as [|y b]; simpl in *.
  - apply andb_prop in H. destruct H as [H _]. apply N.eqb_eq in H.
    exfalso. apply Hq. now left.
  - apply andb_prop in H. destruct H as [H1 H2]. rewrite H1. simpl.
    apply IH; [|exact H2]. intros Hin. apply Hq. now right.
Qed.

(** A text whose first unit does not come back later cannot start in [b]
    and run on into a text that starts with that unit. *)
Lemma no_straddle (c0 : N) (q b v : str) :
  ~ In c0 q -> b <> [] ->
  is_prefix (c0 :: q) (b ++ c0 :: v) = true -> is_prefix (c0 :: q) b = true.
Proof.
  intros Hq Hb H. destruct b as [|y b]; [congruence|]. simpl in *.
  apply andb_prop in H. destruct H as [H1 H2]. rewrite H1. simpl.
  now apply (is_prefix_stop q b c0 v).
Qed.

Lemma END_head : END_AUTO_UPDATE = 60%N :: END_tail.
Proof. reflexivity. Qed.

Lemma END_tail_no_lt : ~ In 60%N END_tail.
Proof. apply none_of_not_In. reflexivity. Qed.

Lemma AUTO_head : AUTO_UPDATE = 60%N :: AUTO_tail.
Proof. reflexivity. Qed.

Lemma AUTO_tail_no_lt : ~ In 60%N AUTO_tail.
Proof. apply none_of_not_In. reflexivity. Qed.

Lemma not_END_inside (b v : str) :
  b <> [] -> includes b END_AUTO_UPDATE = false ->
  is_prefix END_AUTO_UPDATE (b ++ 60%N :: v) = false.
Proof.
  intros Hb Hi. destruct (is_prefix END_AUTO_UPDATE (b ++ 60%N :: v)) eqn:E;
    [|reflexivity].
  rewrite END_head in E. apply no_straddle in E;
    [|apply END_tail_no_lt|assumption].
  rewrite <- END_head in E. apply includes_is_prefix in Hi. congruence.
Qed.

(** *** The two lazy patterns *)

Lemma match_here_lazy (sg eg : list atom) (g1 : str) (c : N)
    (g3 inner rest : str) :
  exact sg g1 -> exact eg (c :: g3) -> is_space c = false ->
  (forall (A : Type) (k : str * str -> option A) c' u,
     is_space c' = true -> first_of k (match_seq eg (c' :: u)) = None) ->
  (forall (A : Type) (k : str * str -> option A) b,
     b <> [] -> includes b END_AUTO_UPDATE = false ->
     first_of k (match_seq eg (b ++ c :: g3 ++ rest)) = None) ->
  includes inner END_AUTO_UPDATE = false ->
  match_here {| start_group := sg; middle := [Spaces; AnyLazy; Spaces];
                end_group := eg |}
             (g1 ++ inner ++ (c :: g3) ++ rest)
  = Some (g1, c :: g3, rest).
Proof.
  intros Hs He Hc Hsp Hin Hi. unfold match_here.
  cbn [start_group middle end_group].
  rewrite (first_of_exact _ _ _ _ Hs). cbn [fst snd].
  apply (lazy_middle
           (fun t => first_of (fun p3 => Some (g1, fst p3, snd p3))
                              (match_seq eg t))).
  - intros c' u Hc'. now apply Hsp.
  - change (inner ++ (c :: g3) ++ rest) with (inner ++ c :: g3 ++ rest).
    rewrite drop_while_app_stop by assumption.
    apply (scan_inner _ (fun b => includes b END_AUTO_UPDATE = false));
      try assumption.
    + exact (He _ _ rest).
    + intros x b. apply includes_tail.
    + intros b Hb Hq. now apply Hin.
    + now apply includes_drop_while.
Qed.

Lemma spaces_then_lit {A : Type} (k : str * str -> option A) (l0 : N)
    (L : str) (atoms : list atom) (s : str) :
  is_space l0 = false ->
  first_of k (match_seq (Spaces :: Lit (l0 :: L) :: atoms) s) =
  first_of (fun q => k (take_while is_space s ++ fst q, snd q))
           (match_seq (Lit (l0 :: L) :: atoms) (drop_while is_space s)).
Proof.
  intros Hl. rewrite first_of_match_seq_cons. unfold match_atom.
  rewrite first_of_greedy; [reflexivity|].
  intros x c t Hc. cbn [snd]. rewrite match_lit_mismatch; [reflexivity|].
  apply N.eqb_neq. intros ->. congruence.
Qed.

Lemma close_script_inside {A : Type} (k : str * str -> option A)
    (b ws2 rest : str) :
  b <> [] -> includes b END_AUTO_UPDATE = false ->
  first_of k
    (match_seq [Lit (js "</script>"); Spaces; Lit END_AUTO_UPDATE]
       (b ++ js "</script>" ++ ws2 ++ END_AUTO_UPDATE ++ rest)) = None.
Proof.
  intros Hb Hi.
  destruct (is_prefix (js "</script>")
              (b ++ js "</script>" ++ ws2 ++ END_AUTO_UPDATE ++ rest)) eqn:E.
  - change (js "</script>" ++ ws2 ++ END_AUTO_UPDATE ++ rest)
      with (60%N :: js "/script>" ++ ws2 ++ END_AUTO_UPDATE ++ rest) in E.
    change (js "</script>") with (60%N :: js "/script>") in E at 1.
    apply no_straddle in E;
      [|apply none_of_not_In; reflexivity|assumption].
    apply is_prefix_split in E. destruct E as [b3 ->].
    rewrite <- app_assoc. rewrite first_of_match_seq_cons. unfold match_atom.
    rewrite strip_prefix_app, first_of_single. cbn [fst snd].
    rewrite END_head. rewrite spaces_then_lit by reflexivity.
    rewrite <- END_head.
    change (js "</script>" ++ ws2 ++ END_AUTO_UPDATE ++ rest)
      with (60%N :: js "/script>" ++ ws2 ++ END_AUTO_UPDATE ++ rest).
    rewrite drop_while_app_stop by reflexivity.
    apply includes_app_r in Hi.
    pose proof (includes_drop_while is_space _ _ Hi) as Hi'.
    rewrite match_lit_none; [reflexivity|].
    destruct (drop_while is_space b3) as [|z b4] eqn:Eb.
    + reflexivity.
    + apply not_END_inside; [discriminate|exact Hi'].
  - now rewrite match_lit_none.
Qed.

Lemma END_inside {A : Type} (k : str * str -> option A) (b rest : str) :
  b <> [] -> includes b END_AUTO_UPDATE = false ->
  first_of k (match_seq [Lit END_AUTO_UPDATE]
                        (b ++ END_AUTO_UPDATE ++ rest)) = None.
Proof.
  intros Hb Hi. rewrite match_lit_none; [reflexivity|].
  rewrite END_head at 2. now apply not_END_inside.
Qed.

(** *** The groups of the seven patterns *)

Lemma exact_tag_group (S tag : str) (ws : str) :
  forallb is_space ws = true ->
  exact [Lit S; Spaces; Lit (60%N :: tag)] (S ++ ws ++ 60%N :: tag).
Proof.
  intros Hw. apply exact_lit.
  apply (exact_star Spaces is_space 60%N tag [] ws tag);
    [reflexivity|reflexivity|assumption|apply exact_lit_last].
Qed.

Lemma exact_nav_group (S tag ws attrs : str) :
  forallb is_space ws = true -> forallb (none_of 62) attrs = true ->
  exact [Lit S; Spaces; Lit (60%N :: tag); NoneOfStar 62; Lit [62%N]]
        (S ++ ws ++ (60%N :: tag) ++ attrs ++ [62%N]).
Proof.
  intros Hw Ha. apply exact_lit.
  apply (exact_star Spaces is_space 60%N tag [NoneOfStar 62; Lit [62%N]] ws
           (tag ++ attrs ++ [62%N]));
    [reflexivity|reflexivity|assumption|].
  apply (exact_lit (60%N :: tag) [NoneOfStar 62; Lit [62%N]] (attrs ++ [62%N])).
  apply (exact_star (NoneOfStar 62) (none_of 62) 62%N [] [] attrs []);
    [reflexivity|reflexivity|assumption|apply exact_lit_last].
Qed.

Lemma wf_region_parts (r : anchor_region) :
  wf_region r = true ->
  forallb is_space (r_space1 r) = true /\
  forallb is_space (r_space2 r) = true /\
  no_lt (r_attrs r) = true /\
  forallb (none_of 62) (r_attrs r) = true /\
  valid_inner (r_kind r) (r_inner r) = true.
Proof.
  unfold wf_region. intros H.
  repeat (apply andb_prop in H; destruct H as [H ?]). auto.
Qed.

Lemma exact_start (r : anchor_region) :
  wf_region r = true ->
  exact (start_group (regex_of (r_kind r))) (start_text r).
Proof.
  intros H. destruct (wf_region_parts r H) as [H1 [_ [_ [H4 _]]]].
  destruct r as [k ws1 attrs inner ws2]. simpl in H1, H4.
  destruct k; unfold start_text; cbn [r_kind r_space1 r_attrs].
  - exact (exact_tag_group _ _ ws1 H1).
  - exact (exact_tag_group _ _ ws1 H1).
  - exact (exact_nav_group _ _ ws1 attrs H1 H4).
  - exact (exact_tag_group _ _ ws1 H1).
  - apply exact_lit_last.
  - exact (exact_tag_group _ _ ws1 H1).
  - exact (exact_tag_group _ _ ws1 H1).
Qed.

Lemma exact_end_group (tag ws : str) :
  forallb is_space ws = true ->
  exact [Lit tag; Spaces; Lit END_AUTO_UPDATE] (tag ++ ws ++ END_AUTO_UPDATE).
Proof.
  intros Hw. apply exact_lit.
  apply (exact_star Spaces is_space 60%N END_tail [] ws END_tail);
    [reflexivity|reflexivity|assumption|apply exact_lit_last].
Qed.

Lemma exact_end (r : anchor_region) :
  wf_region r = true ->
  exact (end_group (regex_of (r_kind r))) (end_text r).
Proof.
  intros H. destruct (wf_region_parts r H) as [_ [H2 _]].
  destruct r as [k ws1 attrs inner ws2]. simpl in H2.
  destruct k; unfold end_text; cbn [r_kind r_space2];
    try exact (exact_end_group _ ws2 H2).
  apply exact_lit_last.
Qed.

Lemma nonempty_true (s : str) : nonempty s = true -> s <> [].
Proof. destruct s; [discriminate|discriminate]. Qed.

Lemma strip_prefix_Some (p s r : str) :
  strip_prefix p s = Some r -> s = p ++ r.
Proof.
  revert s. induction p as [|a p IH]; intros [|b s] H; simpl in *;
    try discriminate.
  - now injection H as <-.
  - now injection H as <-.
  - destruct (N.eqb_spec a b); [|discriminate]. subst b.
    now rewrite (IH s H).
Qed.

Lemma take_while_forallb (p : N -> bool) (s : str) :
  forallb p (take_while p s) = true.
Proof.
  induction s as [|c s IH]; simpl; [reflexivity|].
  destruct (p c) eqn:E; simpl; [now rewrite E|reflexivity].
Qed.

Lemma take_drop_while (p : N -> bool) (s : str) :
  take_while p s ++ drop_while p s = s.
Proof.
  induction s as [|c s IH]; simpl; [reflexivity|].
  destruct (p c); simpl; [now rewrite IH|reflexivity].
Qed.

(** The shape of a valid contact address. *)
Lemma valid_address_shape (f : str) :
  valid_inner ContactAddress f = true ->
  exists a b, f = a ++ js "<br>" ++ b /\ a <> [] /\ b <> [] /\
              no_lt a = true /\ no_lt b = true.
Proof.
  unfold valid_inner. intros H.
  destruct (strip_prefix (js "<br>") (drop_while (none_of 60) f)) as [b|] eqn:E;
    [|discriminate].
  apply andb_prop in H. destruct H as [H Hb2].
  apply andb_prop in H. destruct H as [Ha Hb1].
  exists (take_while (none_of 60) f), b.
  apply strip_prefix_Some in E.
  repeat split.
  - rewrite <- E. symmetry. apply take_drop_while.
  - now apply nonempty_true.
  - now apply nonempty_true.
  - apply take_while_forallb.
  - exact Hb2.
Qed.

Lemma lit_lt_rejects {A : Type} (k : str * str -> option A) (L : str)
    (atoms : list atom) (c' : N) (u : str) :
  is_space c' = true -> is_prefix [60%N] L = true ->
  first_of k (match_seq (Lit L :: atoms) (c' :: u)) = None.
Proof.
  intros Hc HL. destruct L as [|l0 L]; [discriminate|].
  cbn [is_prefix] in HL.
  apply andb_prop in HL. destruct HL as [HL _]. apply N.eqb_eq in HL.
  subst l0. rewrite match_lit_mismatch; [reflexivity|].
  apply N.eqb_neq. intros <-. discriminate Hc.
Qed.

(** A well-formed region at the head of a text is matched by the pattern
    of its kind, group by group. *)
Lemma match_region (r : anchor_region) (rest : str) :
  wf_region r = true ->
  match_here (regex_of (r_kind r)) (region_text r ++ rest)
  = Some (start_text r, end_text r, rest).
Proof.
  intros H. pose proof (exact_start r H) as Hs.
  pose proof (exact_end r H) as He.
  destruct (wf_region_parts r H) as [_ [H2 [_ [_ Hv]]]].
  unfold region_text. rewrite <- !app_assoc.
  destruct r as [k ws1 attrs inner ws2].
  cbn [r_kind r_inner r_space2] in *.
  destruct k.
  - (* structured data *)
    unfold valid_inner in Hv. apply andb_prop in Hv. destruct Hv as [_ Hv].
    apply negb_true_iff in Hv.
    refine (match_here_lazy _ _ _ 60%N
              (js "/script>" ++ ws2 ++ END_AUTO_UPDATE) inner rest
              Hs He eq_refl _ _ Hv).
    + intros A k c' u Hc.
      exact (lit_lt_rejects k (js "</script>") [Spaces; Lit END_AUTO_UPDATE]
               c' u Hc eq_refl).
    + intros A k b Hb Hi. rewrite <- !app_assoc.
      exact (close_script_inside k b ws2 rest Hb Hi).
  - apply andb_prop in Hv. destruct Hv as [Hv1 Hv2].
    exact (match_here_plain _ _ 60%N _ _ _ _ inner rest eq_refl Hs He
             (nonempty_true _ Hv1) Hv2).
  - apply andb_prop in Hv. destruct Hv as [Hv1 Hv2].
    exact (match_here_plain _ _ 60%N _ _ _ _ inner rest eq_refl Hs He
             (nonempty_true _ Hv1) Hv2).
  - apply andb_prop in Hv. destruct Hv as [Hv1 Hv2].
    exact (match_here_plain _ _ 60%N _ _ _ _ inner rest eq_refl Hs He
             (nonempty_true _ Hv1) Hv2).
  - (* hours table *)
    unfold valid_inner in Hv. apply andb_prop in Hv. destruct Hv as [_ Hv].
    apply negb_true_iff in Hv.
    refine (match_here_lazy _ _ _ 60%N END_tail inner rest
              Hs He eq_refl _ _ Hv).
    + intros A k c' u Hc.
      exact (lit_lt_rejects k END_AUTO_UPDATE [] c' u Hc eq_refl).
    + intros A k b Hb Hi. exact (END_inside k b rest Hb Hi).
  - apply andb_prop in Hv. destruct Hv as [Hv1 Hv2].
    exact (match_here_plain _ _ 60%N _ _ _ _ inner rest eq_refl Hs He
             (nonempty_true _ Hv1) Hv2).
  - destruct (valid_address_shape inner Hv) as [a [b [-> [Ha [Hb [Ha2 Hb2]]]]]].
    exact (match_here_two_lines _ _ 60%N _ (js "br>") _ _ _ a b rest
             eq_refl Hs He Ha Ha2 Hb Hb2).
Qed.

(** ** Documents made of text and anchor regions *)

Lemma nostart_app (s x y rest : str) :
  nostart s x (y ++ rest) -> nostart s y rest -> nostart s (x ++ y) rest.
Proof.
  induction x as [|c x IH]; simpl; [tauto|].
  intros [H1 H2] Hy. rewrite <- app_assoc. split; [exact H1|].
  now apply IH.
Qed.

Lemma nostart_no_head (c0 : N) (s x rest : str) :
  forallb (none_of c0) x = true -> nostart (c0 :: s) x rest.
Proof.
  induction x as [|c x IH]; simpl; [tauto|]. intros H.
  apply andb_prop in H. destruct H as [Hc Hx]. split; [|now apply IH].
  unfold none_of in Hc. rewrite N.eqb_sym.
  destruct (N.eqb c c0); [discriminate|reflexivity].
Qed.

Lemma clash_not_prefix (s b rest : str) :
  clash s b = true -> is_prefix s (b ++ rest) = false.
Proof.
  revert b. induction s as [|x s IH]; intros [|y b] H; simpl in *;
    try discriminate.
  destruct (N.eqb x y); simpl in *; [now apply IH|reflexivity].
Qed.

Lemma nostart_lit (s l rest : str) :
  lit_clash s l = true -> nostart s l rest.
Proof.
  induction l as [|c l IH]; intros H; [exact I|].
  cbn [lit_clash] in H. apply andb_prop in H. destruct H as [H1 H2].
  split; [now apply clash_not_prefix|now apply IH].
Qed.

Lemma is_prefix_trans (p s t : str) :
  is_prefix p s = true -> is_prefix s t = true -> is_prefix p t = true.
Proof.
  revert s t. induction p as [|x p IH]; intros s t H1 H2; [reflexivity|].
  destruct s as [|y s]; [discriminate|]. destruct t as [|z t]; [discriminate|].
  simpl in *. apply andb_prop in H1. destruct H1 as [E1 H1].
  apply andb_prop in H2. destruct H2 as [E2 H2].
  apply N.eqb_eq in E1. apply N.eqb_eq in E2. subst.
  rewrite N.eqb_refl. simpl. now apply (IH s t).
Qed.

Lemma nostart_free (s x rest : str) :
  is_prefix AUTO_UPDATE s = true ->
  includes x AUTO_UPDATE = false -> at_anchor rest ->
  nostart s x rest.
Proof.
  intros Hs Hx Hr. induction x as [|c x IH]; [exact I|].
  split; [|apply IH; now apply (includes_tail c)].
  destruct (is_prefix s ((c :: x) ++ rest)) eqn:E; [|reflexivity].
  pose proof (is_prefix_trans _ _ _ Hs E) as E'.
  apply includes_is_prefix in Hx.
  destruct Hr as [->|[v ->]].
  - rewrite app_nil_r in E'. congruence.
  - rewrite AUTO_head in E'. apply no_straddle in E';
      [|apply AUTO_tail_no_lt|discriminate].
    rewrite <- AUTO_head in E'. congruence.
Qed.

Lemma exec_eq (re : anchor_regex) (s : str) :
  exec re s =
  match match_here re s with
  | Some (g1, g3, post) => Some ([], g1, g3, post)
  | None =>
      match s with
      | [] => None
      | c :: s' =>
          match exec re s' with
          | Some (pre, g1, g3, post) => Some (c :: pre, g1, g3, post)
          | None => None
          end
      end
  end.
Proof. destruct s; reflexivity. Qed.

Lemma exec_skip (re : anchor_regex) (s : str) (atoms : list atom)
    (x rest : str) :
  start_group re = Lit s :: atoms -> nostart s x rest ->
  exec re (x ++ rest) = shift x (exec re rest).
Proof.
  intros Hre. induction x as [|c x IH]; intros H.
  - simpl. destruct (exec re rest) as [[[[pre g1] g3] post]|]; reflexivity.
  - destruct H as [H1 H2]. rewrite exec_eq.
    unfold match_here. rewrite Hre. rewrite match_lit_none by exact H1.
    cbn [first_of app]. rewrite (IH H2).
    destruct (exec re rest) as [[[[pre g1] g3] post]|]; reflexivity.
Qed.

Lemma start_group_sentinel (k : kind) :
  exists atoms, start_group (regex_of k) = Lit (sentinel k) :: atoms.
Proof. destruct k; eexists; reflexivity. Qed.

Lemma sentinel_prefix (k : kind) : is_prefix AUTO_UPDATE (sentinel k) = true.
Proof. destruct k; reflexivity. Qed.

Lemma sentinel_head (k : kind) : sentinel k = 60%N :: tl (sentinel k).
Proof. destruct k; reflexivity. Qed.

Lemma spaces_no_lt (w : str) : forallb is_space w = true -> no_lt w = true.
Proof.
  induction w as [|c w IH]; simpl; [reflexivity|]. intros H.
  apply andb_prop in H. destruct H as [Hc Hw]. rewrite (IH Hw).
  unfold none_of. destruct (N.eqb_spec c 60); [subst; discriminate|reflexivity].
Qed.

Lemma nostart_sentinel_no_lt (k : kind) (x rest : str) :
  no_lt x = true -> nostart (sentinel k) x rest.
Proof. rewrite sentinel_head. apply nostart_no_head. Qed.

Lemma end_text_head (r : anchor_region) : exists v, end_text r = 60%N :: v.
Proof. destruct r as [k ? ? ? ?]. destruct k; eexists; reflexivity. Qed.

Lemma start_text_head (r : anchor_region) : exists v, start_text r = 60%N :: v.
Proof. destruct r as [k ? ? ? ?]. destruct k; eexists; reflexivity. Qed.

Lemma nostart_includes (p s : str) :
  p <> [] -> nostart p s [] -> includes s p = false.
Proof.
  intros Hp. induction s as [|c s IH]; intros H.
  - destruct p; [congruence|reflexivity].
  - destruct H as [H1 H2]. rewrite app_nil_r in H1.
    cbn [includes]. rewrite H1. now apply IH.
Qed.

Lemma no_lt_wf_text (s : str) : no_lt s = true -> wf_text s = true.
Proof.
  intros H. unfold wf_text. apply negb_true_iff.
  apply nostart_includes; [discriminate|].
  rewrite AUTO_head. now apply nostart_no_head.
Qed.

(** A fragment that fits its anchor holds no opening sentinel. *)
Lemma valid_inner_wf_text (k : kind) (f : str) :
  valid_inner k f = true -> wf_text f = true.
Proof.
  intros Hv. destruct k.
  1, 5: (unfold valid_inner in Hv; apply andb_prop in Hv; tauto).
  1-4: (apply andb_prop in Hv; destruct Hv as [_ Hv];
        now apply no_lt_wf_text).
  destruct (valid_address_shape f Hv) as [a [b [-> [_ [_ [Ha Hb]]]]]].
  unfold wf_text. apply negb_true_iff.
  apply nostart_includes; [discriminate|].
  apply nostart_app; [rewrite AUTO_head; now apply nostart_no_head|].
  apply nostart_app; [|rewrite AUTO_head; now apply nostart_no_head].
  apply nostart_lit. reflexivity.
Qed.

Lemma skippable_parts (r : anchor_region) :
  skippable r = true ->
  forallb is_space (r_space1 r) = true /\
  forallb is_space (r_space2 r) = true /\
  no_lt (r_attrs r) = true /\ wf_text (r_inner r) = true.
Proof.
  unfold skippable. intros H.
  repeat (apply andb_prop in H; destruct H as [H ?]). auto.
Qed.

Lemma wf_region_skippable (r : anchor_region) :
  wf_region r = true -> skippable r = true.
Proof.
  intros H. destruct (wf_region_parts r H) as [H1 [H2 [H3 [_ Hv]]]].
  unfold skippable. rewrite H1, H2, H3.
  now rewrite (valid_inner_wf_text _ _ Hv).
Qed.

(** The sentinel of one kind starts nowhere in a region of another kind. *)
Lemma nostart_region (k : kind) (r : anchor_region) (rest : str) :
  skippable r = true -> kind_eqb (r_kind r) k = false ->
  nostart (sentinel k) (region_text r) rest.
Proof.
  intros H Hk. destruct (skippable_parts r H) as [H1 [H2 [H3 H4]]].
  destruct (end_text_head r) as [v Hv].
  unfold region_text.
  apply nostart_app; [|apply nostart_app].
  - (* the first group *)
    destruct r as [k' ws1 attrs inner ws2]. cbn [r_kind r_space1 r_attrs] in *.
    unfold start_text. cbn [r_kind r_space1 r_attrs].
    destruct k'.
    3: { apply nostart_app; [apply nostart_lit; destruct k;
                             try discriminate Hk; reflexivity|].
         apply nostart_app; [now apply nostart_sentinel_no_lt,
                               spaces_no_lt|].
         apply nostart_app; [apply nostart_lit; destruct k; reflexivity|].
         apply nostart_app; [now apply nostart_sentinel_no_lt|].
         apply nostart_lit. destruct k; reflexivity. }
    4: { apply nostart_lit. destruct k; try discriminate Hk; reflexivity. }
    all: (apply nostart_app; [apply nostart_lit; destruct k;
                              try discriminate Hk; reflexivity|];
          apply nostart_app; [now apply nostart_sentinel_no_lt,
                                spaces_no_lt|];
          apply nostart_lit; destruct k; reflexivity).
  - (* between the groups *)
    apply nostart_free; [apply sentinel_prefix|now apply negb_true_iff|].
    right. rewrite Hv. eexists. rewrite <- app_comm_cons. reflexivity.
  - (* the third group *)
    destruct r as [k' ws1 attrs inner ws2]. cbn [r_kind r_space2] in *.
    unfold end_text. cbn [r_kind r_space2].
    destruct k'.
    5: { apply nostart_lit. destruct k; reflexivity. }
    all: (apply nostart_app; [apply nostart_lit; destruct k; reflexivity|];
          apply nostart_app; [now apply nostart_sentinel_no_lt,
                                spaces_no_lt|];
          apply nostart_lit; destruct k; reflexivity).
Qed.

Lemma kind_eqb_eq (a b : kind) : kind_eqb a b = true -> a = b.
Proof. destruct a, b; simpl; intros H; try discriminate H; reflexivity. Qed.

Lemma render_body_at_anchor (l : body) : at_anchor (render_body l).
Proof.
  destruct l as [|[r t] l]; [now left|]. right.
  destruct (start_text_head r) as [v Hv].
  simpl. unfold region_text. rewrite Hv. eexists.
  rewrite <- !app_comm_cons. reflexivity.
Qed.

Lemma exec_body (k : kind) (l : body) :
  ready [k] l ->
  exec (regex_of k) (render_body l) =
  match find_region k l with
  | Some (before, r, after) => Some (before, start_text r, end_text r, after)
  | None => None
  end.
Proof.
  induction l as [|[r t] l IH]; intros H.
  - cbn [render_body flat_map find_region]. rewrite exec_eq.
    unfold match_here.
    destruct (start_group_sentinel k) as [atoms ->].
    rewrite match_lit_none; [reflexivity|].
    rewrite sentinel_head. reflexivity.
  - inversion H as [|? ? [Hr [Ht Hw]] Hl]; subst. cbn [fst snd] in *.
    cbn [render_body flat_map fst snd find_region].
    fold (render_body l). rewrite <- app_assoc.
    destruct (kind_eqb (r_kind r) k) eqn:Ek.
    + apply kind_eqb_eq in Ek. subst k.
      rewrite exec_eq, match_region; [reflexivity|]. apply Hw. now left.
    + destruct (start_group_sentinel k) as [atoms Hs].
      rewrite (exec_skip _ _ _ _ _ Hs (nostart_region k r _ Hr Ek)).
      rewrite (exec_skip _ _ _ t _ Hs).
      * rewrite (IH Hl).
        destruct (find_region k l) as [[[before r'] after]|];
          [|reflexivity].
        reflexivity.
      * apply nostart_free;
          [apply sentinel_prefix|now apply negb_true_iff
          |apply render_body_at_anchor].
Qed.

Lemma render_patch_first (k : kind) (f : str) (l : body) :
  match find_region k l with
  | Some (before, r, after) =>
      render_body (patch_first k f l) =
      before ++ start_text r ++ f ++ end_text r ++ after
  | None => patch_first k f l = l
  end.
Proof.
  induction l as [|[r t] l IH]; [reflexivity|].
  cbn [find_region patch_first].
  destruct (kind_eqb (r_kind r) k).
  - cbn [render_body flat_map fst snd]. fold (render_body l).
    unfold region_text, set_inner, start_text, end_text.
    cbn [r_kind r_space1 r_attrs r_inner r_space2].
    now rewrite <- !app_assoc.
  - destruct (find_region k l) as [[[before r'] after]|].
    + cbn [render_body flat_map fst snd]. fold (render_body (patch_first k f l)).
      rewrite IH. now rewrite <- !app_assoc.
    + now rewrite IH.
Qed.

(** One step of the script on a document of this shape. *)
Lemma replace_anchor_body (k : kind) (f t0 : str) (l : body) (u : bool) :
  wf_text t0 = true -> ready [k] l ->
  fst (replace_anchor (regex_of k) f (t0 ++ render_body l, u)) =
  t0 ++ render_body (patch_first k f l).
Proof.
  intros Ht Hl. unfold replace_anchor. cbn [fst].
  destruct (start_group_sentinel k) as [atoms Hs].
  rewrite (exec_skip _ _ _ t0 _ Hs).
  - rewrite (exec_body k l Hl). pose proof (render_patch_first k f l) as P.
    destruct (find_region k l) as [[[before r] after]|].
    + cbn [shift fst]. rewrite P. now rewrite <- !app_assoc.
    + cbn [shift fst]. now rewrite P.
  - apply nostart_free;
      [apply sentinel_prefix|now apply negb_true_iff
      |apply render_body_at_anchor].
Qed.

Lemma wf_region_set_inner (r : anchor_region) (f : str) :
  wf_region r = true -> valid_inner (r_kind r) f = true ->
  wf_region (set_inner r f) = true.
Proof.
  intros H Hf. destruct (wf_region_parts r H) as [H1 [H2 [H3 [H4 _]]]].
  unfold wf_region, set_inner. cbn [r_kind r_space1 r_attrs r_inner r_space2].
  now rewrite H1, H2, H3, H4, Hf.
Qed.

Lemma wf_body_patch_first (k : kind) (f : str) (l : body) :
  wf_body l = true -> valid_inner k f = true ->
  wf_body (patch_first k f l) = true.
Proof.
  intros Hl Hf. induction l as [|[r t] l IH]; [reflexivity|].
  cbn [wf_body forallb fst snd] in Hl. apply andb_prop in Hl.
  destruct Hl as [H Hl]. apply andb_prop in H. destruct H as [Hr Ht].
  fold (wf_body l) in Hl. cbn [patch_first].
  destruct (kind_eqb (r_kind r) k) eqn:Ek.
  - apply kind_eqb_eq in Ek. subst k.
    cbn [wf_body forallb fst snd]. fold (wf_body l).
    now rewrite wf_region_set_inner, Ht, Hl.
  - cbn [wf_body forallb fst snd]. fold (wf_body (patch_first k f l)).
    now rewrite Hr, Ht, IH.
Qed.

Lemma ready_weaken (kinds kinds' : list kind) (l : body) :
  (forall k, In k kinds' -> In k kinds) -> ready kinds l -> ready kinds' l.
Proof.
  intros Hk H. unfold ready in *. eapply Forall_impl; [|exact H].
  intros p [H1 [H2 H3]]. auto.
Qed.

Lemma ready_patch_first (k : kind) (kinds : list kind) (f : str) (l : body) :
  ready (k :: kinds) l -> ~ In k kinds -> wf_text f = true ->
  ready kinds (patch_first k f l).
Proof.
  intros H Hk Hf. induction l as [|[r t] l IH]; [constructor|].
  inversion H as [|? ? [Hr [Ht Hw]] Hl]; subst. cbn [fst snd] in *.
  cbn [patch_first].
  destruct (kind_eqb (r_kind r) k) eqn:Ek.
  - apply kind_eqb_eq in Ek. constructor.
    + cbn [fst snd]. destruct (skippable_parts r Hr) as [H1 [H2 [H3 _]]].
      repeat split; try assumption.
      * unfold skippable, set_inner.
        cbn [r_kind r_space1 r_attrs r_inner r_space2].
        now rewrite H1, H2, H3, Hf.
      * cbn [set_inner r_kind]. rewrite Ek. intros Hin. contradiction.
    + apply (ready_weaken (k :: kinds)); [|exact Hl]. intros k' Hk'. now right.
  - constructor; [|now apply IH].
    cbn [fst snd]. repeat split; try assumption.
    intros Hin. apply Hw. now right.
Qed.

Lemma wf_body_ready (kinds : list kind) (l : body) :
  wf_body l = true -> ready kinds l.
Proof.
  intros H. unfold wf_body in H. rewrite forallb_forall in H.
  apply Forall_forall. intros p Hp. specialize (H p Hp).
  apply andb_prop in H. destruct H as [Hr Ht].
  split; [now apply wf_region_skippable|].
  split; [exact Ht|]. intros _. exact Hr.
Qed.

Lemma steps_for_kinds (bd : BusinessData) (now : Z) (filePath : str) :
  steps_for bd now filePath =
  map (fun k => (regex_of k, fragment bd now filePath k)) (kinds_for filePath).
Proof.
  unfold steps_for, kinds_for.
  destruct (includes filePath (js "contact.html")); reflexivity.
Qed.

Lemma kinds_for_NoDup (filePath : str) : NoDup (kinds_for filePath).
Proof.
  unfold kinds_for. destruct (includes filePath (js "contact.html"));
    repeat constructor; simpl; intuition discriminate.
Qed.

Lemma fragments_ok_plain (bd : BusinessData) (now : Z) (filePath : str) :
  fragments_ok bd now filePath = true ->
  fragments_plain bd now filePath = true.
Proof.
  unfold fragments_ok, fragments_plain. rewrite !forallb_forall.
  intros H k Hk. apply (valid_inner_wf_text k). now apply H.
Qed.

Lemma run_steps_body (frag : kind -> str) (kinds : list kind) (t0 : str)
    (l : body) (u : bool) :
  NoDup kinds -> wf_text t0 = true -> ready kinds l ->
  forallb (fun k => wf_text (frag k)) kinds = true ->
  fst (run_steps (map (fun k => (regex_of k, frag k)) kinds)
                 (t0 ++ render_body l, u)) =
  t0 ++ render_body (patch_all frag kinds l).
Proof.
  intros Hnd Ht. revert l u.
  induction kinds as [|k kinds IH]; intros l u Hl Hf; [reflexivity|].
  inversion Hnd as [|? ? Hk Hnd']; subst.
  cbn [forallb] in Hf. apply andb_prop in Hf. destruct Hf as [Hfk Hf].
  unfold run_steps, patch_all. cbn [map fold_left fst snd].
  assert (Hl1 : ready [k] l).
  { apply (ready_weaken (k :: kinds)); [|exact Hl].
    intros k' [->|[]]. now left. }
  pose proof (replace_anchor_body k (frag k) t0 l u Ht Hl1) as E.
  destruct (replace_anchor (regex_of k) (frag k) (t0 ++ render_body l, u))
    as [c' u'].
  cbn [fst] in E. subst c'.
  apply (IH Hnd'); [now apply ready_patch_first|exact Hf].
Qed.

Lemma wf_body_patch_all (frag : kind -> str) (kinds : list kind) (l : body) :
  wf_body l = true ->
  forallb (fun k => valid_inner k (frag k)) kinds = true ->
  wf_body (patch_all frag kinds l) = true.
Proof.
  revert l. induction kinds as [|k kinds IH]; intros l Hl Hf; [exact Hl|].
  cbn [forallb] in Hf. apply andb_prop in Hf. destruct Hf as [Hk Hf].
  unfold patch_all. cbn [fold_left]. apply IH; [|exact Hf].
  now apply wf_body_patch_first.
Qed.

(** On a document made of sentinel-free texts and well-formed regions the
    script rewrites the first region of each kind it handles and nothing
    else. *)
Lemma update_content_body (bd : BusinessData) (now : Z) (filePath t0 : str)
    (l : body) :
  wf_text t0 = true -> wf_body l = true ->
  fragments_plain bd now filePath = true ->
  fst (update_content bd now filePath (t0 ++ render_body l)) =
  t0 ++ render_body (patch_all (fragment bd now filePath)
                               (kinds_for filePath) l).
Proof.
  intros Ht Hl Hf. rewrite update_content_steps, steps_for_kinds.
  apply run_steps_body; try assumption.
  - apply kinds_for_NoDup.
  - now apply wf_body_ready.
Qed.

(** ** Two anchors in one document *)

Lemma render_two (r1 r2 : anchor_region) (mid post : str) :
  render_body [(r1, mid); (r2, post)] =
  region_text r1 ++ mid ++ region_text r2 ++ post.
Proof.
  cbn [render_body flat_map fst snd]. now rewrite app_nil_r, <- !app_assoc.
Qed.

Lemma patch_all_two (frag : kind -> str) (filePath : str) (r1 r2 : anchor_region)
    (mid post : str) :
  kind_eqb (r_kind r1) (r_kind r2) = false ->
  patch_all frag (kinds_for filePath) [(r1, mid); (r2, post)] =
  [ (if handled filePath (r_kind r1) then set_inner r1 (frag (r_kind r1))
     else r1, mid);
    (if handled filePath (r_kind r2) then set_inner r2 (frag (r_kind r2))
     else r2, post) ].
Proof.
  intros Hk. unfold handled, kinds_for, patch_all.
  destruct r1 as [k1 a1 b1 c1 d1], r2 as [k2 a2 b2 c2 d2].
  cbn [r_kind] in *.
  destruct (includes filePath (js "contact.html"));
    destruct k1, k2; try discriminate Hk; reflexivity.
Qed.

(** C4 as stated fails in three ways.  On a page other than the contact
    page a contact phone anchor is left as it is.  The structured-data
    pattern runs to the first closing sentinel that follows a closing
    script tag, not to the nearest closing sentinel: here it takes the
    hours anchor along.  And a fragment that itself holds an anchor is
    patched in place of the anchor of the document: here the phone anchor
    keeps its old number. *)
Lemma anchors_not_always_patched :
  fst (update_content businessData 0 (js "public/index.html") brandAndPhone)
  = js "<!-- AUTO-UPDATE: Brand header --><div class=`brand`>Christopher's Meat Market</div><!-- END AUTO-UPDATE --><!-- AUTO-UPDATE: Contact phone --><p>Phone:<br><strong>000</strong></p><!-- END AUTO-UPDATE -->"
  /\
  fst (update_content businessData 0 (js "public/contact.html") strayAndHours)
  = js "<!-- AUTO-UPDATE: Structured Data --><script type=`application/ld+json`>"
    ++ structuredDataFragment businessData 0 (js "public/contact.html")
    ++ js "</script><!-- END AUTO-UPDATE -->"
  /\
  includes
    (fst (update_content businessData 0 (js "public/contact.html")
            strayAndHours))
    (sentinel HoursTable) = false
  /\
  includes
    (fst (update_content quotingData 0 (js "public/contact.html")
            dataAndPhone))
    (js "<!-- AUTO-UPDATE: Contact phone --><p>Phone:<br><strong>000</strong></p><!-- END AUTO-UPDATE -->")
  = true.
Proof. repeat split; vm_compute; reflexivity. Qed.

(** C4, amended: in a document made of texts without an opening sentinel
    and two well-formed anchor regions of different kinds, next to each
    other or not, with fragments that fit their anchors, the run puts the
    fragment between the groups of each region whose kind is handled for
    the document, leaves a region of another kind as it is, and changes
    nothing outside the two interiors. *)
Theorem two_anchors_patched_independently
    (bd : BusinessData) (now : Z) (filePath pre mid post : str)
    (r1 r2 : anchor_region) :
  fragments_plain bd now filePath = true ->
  wf_text pre = true -> wf_text mid = true -> wf_text post = true ->
  wf_region r1 = true -> wf_region r2 = true ->
  kind_eqb (r_kind r1) (r_kind r2) = false ->
  fst (update_content bd now filePath
         (pre ++ region_text r1 ++ mid ++ region_text r2 ++ post)) =
  pre ++ (start_text r1 ++ new_inner bd now filePath r1 ++ end_text r1)
      ++ mid
      ++ (start_text r2 ++ new_inner bd now filePath r2 ++ end_text r2)
      ++ post.
Proof.
  intros Hf Hpre Hmid Hpost H1 H2 Hk.
  rewrite <- render_two.
  rewrite (update_content_body bd now filePath pre [(r1, mid); (r2, post)]);
    try assumption.
  2: { cbn [wf_body forallb fst snd]. now rewrite H1, H2, Hmid, Hpost. }
  rewrite patch_all_two by assumption. rewrite render_two.
  unfold new_inner.
  destruct (handled filePath (r_kind r1)), (handled filePath (r_kind r2));
    destruct r1 as [k1 a1 b1 c1 d1], r2 as [k2 a2 b2 c2 d2];
    reflexivity.
Qed.

Lemma two_anchors_patched_independently_witness :
  fst (update_content businessData 0 (js "public/contact.html")
         (js "<body>" ++ region_text oldBrand ++ [] ++ region_text oldPhone
          ++ js "</body>")) =
  js "<body>"
  ++ (start_text oldBrand
      ++ new_inner businessData 0 (js "public/contact.html") oldBrand
      ++ end_text oldBrand)
  ++ []
  ++ (start_text oldPhone
      ++ new_inner businessData 0 (js "public/contact.html") oldPhone
      ++ end_text oldPhone)
  ++ js "</body>".
Proof.
  apply two_anchors_patched_independently; vm_compute; reflexivity.
Defined.

(** ** Running the script twice *)

Lemma set_inner_twice (r : anchor_region) (f : str) :
  set_inner (set_inner r f) f = set_inner r f.
Proof. reflexivity. Qed.

Lemma patch_first_idem (k : kind) (f : str) (l : body) :
  patch_first k f (patch_first k f l) = patch_first k f l.
Proof.
  induction l as [|[r t] l IH]; [reflexivity|]. cbn [patch_first].
  destruct (kind_eqb (r_kind r) k) eqn:E; cbn [patch_first].
  - change (r_kind (set_inner r f)) with (r_kind r). now rewrite E.
  - now rewrite E, IH.
Qed.

Lemma patch_first_keeps_fixed (frag : kind -> str) (k j : kind) (l : body) :
  patch_first k (frag k) l = l ->
  patch_first k (frag k) (patch_first j (frag j) l) = patch_first j (frag j) l.
Proof.
  induction l as [|[r t] l IH]; intros H; [reflexivity|].
  cbn [patch_first] in *.
  destruct (kind_eqb (r_kind r) k) eqn:Ek, (kind_eqb (r_kind r) j) eqn:Ej.
  - apply kind_eqb_eq in Ek. apply kind_eqb_eq in Ej. subst k j.
    cbn [patch_first]. change (r_kind (set_inner r (frag (r_kind r))))
      with (r_kind r).
    assert (E : kind_eqb (r_kind r) (r_kind r) = true) by
      (destruct (r_kind r); reflexivity).
    now rewrite E.
  - cbn [patch_first]. rewrite Ek. injection H as H. now rewrite H.
  - cbn [patch_first]. change (r_kind (set_inner r (frag j))) with (r_kind r).
    rewrite Ek. injection H as H. now rewrite H.
  - cbn [patch_first]. rewrite Ek. injection H as H. now rewrite IH.
Qed.

Lemma patch_all_keeps_fixed (frag : kind -> str) (k : kind)
    (kinds : list kind) (l : body) :
  patch_first k (frag k) l = l ->
  patch_first k (frag k) (patch_all frag kinds l) = patch_all frag kinds l.
Proof.
  revert l. induction kinds as [|j kinds IH]; intros l H; [exact H|].
  unfold patch_all. cbn [fold_left]. apply IH.
  now apply patch_first_keeps_fixed.
Qed.

Lemma patch_all_fixes (frag : kind -> str) (k : kind) (kinds : list kind)
    (l : body) :
  In k kinds ->
  patch_first k (frag k) (patch_all frag kinds l) = patch_all frag kinds l.
Proof.
  revert l. induction kinds as [|j kinds IH]; intros l Hin; [destruct Hin|].
  unfold patch_all. cbn [fold_left]. destruct Hin as [->|Hin].
  - apply patch_all_keeps_fixed. apply patch_first_idem.
  - now apply IH.
Qed.

Lemma patch_all_fixed (frag : kind -> str) (kinds : list kind) (l : body) :
  (forall k, In k kinds -> patch_first k (frag k) l = l) ->
  patch_all frag kinds l = l.
Proof.
  induction kinds as [|j kinds IH]; intros H; [reflexivity|].
  unfold patch_all. cbn [fold_left]. rewrite (H j) by now left.
  apply IH. intros k Hk. apply H. now right.
Qed.

Lemma patch_all_idem (frag : kind -> str) (kinds : list kind) (l : body) :
  patch_all frag kinds (patch_all frag kinds l) = patch_all frag kinds l.
Proof.
  apply patch_all_fixed. intros k Hk. now apply patch_all_fixes.
Qed.

(** C2 as stated fails in two ways.  With markup in the short name the
    first run fills the first navigation brand, which the pattern then no
    longer matches, and the second run goes on to fill the second one.
    And with the profile of the shop, a brand header inside the hours
    anchor is filled and then replaced with the hours table by the first
    run, so that the second run fills the brand header that follows. *)
Lemma second_run_changes_document :
  (let first_run :=
     fst (update_content markupData 0 (js "public/index.html") twoNavBrands) in
   fst (update_content markupData 0 (js "public/index.html") first_run)
   <> first_run) /\
  (let first_run :=
     fst (update_content businessData 0 (js "public/contact.html")
            nestedBrand) in
   fst (update_content businessData 0 (js "public/contact.html") first_run)
   <> first_run).
Proof. split; vm_compute; discriminate. Qed.

(** C2, amended: on a document made of texts without an opening sentinel
    and of well-formed anchor regions, with fragments that fit their
    anchors, a second run on the output of the first run changes
    nothing. *)
Theorem second_run_changes_nothing
    (bd : BusinessData) (now : Z) (filePath t0 : str) (l : body) :
  fragments_ok bd now filePath = true ->
  wf_text t0 = true -> wf_body l = true ->
  fst (update_content bd now filePath
         (fst (update_content bd now filePath (t0 ++ render_body l)))) =
  fst (update_content bd now filePath (t0 ++ render_body l)).
Proof.
  intros Hf Ht Hl.
  pose proof (fragments_ok_plain bd now filePath Hf) as Hp.
  pose proof (wf_body_patch_all (fragment bd now filePath)
                (kinds_for filePath) l Hl Hf) as W.
  rewrite (update_content_body bd now filePath t0 l Ht Hl Hp).
  rewrite (update_content_body bd now filePath t0 _ Ht W Hp).
  now rewrite patch_all_idem.
Qed.

Lemma second_run_changes_nothing_witness :
  fst (update_content closedData newYearsEve (js "public/contact.html")
         (fst (update_content closedData newYearsEve
                 (js "public/contact.html")
                 (js "<!DOCTYPE html><html>" ++ render_body contactBody)))) =
  fst (update_content closedData newYearsEve (js "public/contact.html")
         (js "<!DOCTYPE html><html>" ++ render_body contactBody)).
Proof.
  apply second_run_changes_nothing; vm_compute; reflexivity.
Defined.

(** ** What a match is made of *)

Lemma first_of_Some {A B : Type} (f : A -> option B) (l : list A) (y : B) :
  first_of f l = Some y -> exists x, In x l /\ f x = Some y.
Proof.
  induction l as [|a l IH]; simpl; [discriminate|].
  destruct (f a) eqn:E.
  - intros H. injection H as <-. exists a. auto.
  - intros H. destruct (IH H) as [x [Hx Hf]]. exists x. auto.
Qed.

Lemma greedy_sound (p : N -> bool) (s x r : str) :
  In (x, r) (greedy p s) -> s = x ++ r.
Proof.
  revert x r. induction s as [|c s IH]; intros x r H; simpl in H.
  - destruct H as [H|[]]. now injection H as <- <-.
  - destruct (p c).
    + apply in_app_or in H. destruct H as [H|[H|[]]].
      * apply in_map_iff in H. destruct H as [[x' r'] [E Hin]].
        unfold push in E. simpl in E. injection E as <- <-.
        now rewrite (IH x' r' Hin).
      * now injection H as <- <-.
    + destruct H as [H|[]]. now injection H as <- <-.
Qed.

Lemma lazy_any_sound (s x r : str) : In (x, r) (lazy_any s) -> s = x ++ r.
Proof.
  revert x r. induction s as [|c s IH]; intros x r H; simpl in H.
  - destruct H as [H|[]]. now injection H as <- <-.
  - destruct H as [H|H]; [now injection H as <- <-|].
    apply in_map_iff in H. destruct H as [[x' r'] [E Hin]].
    unfold push in E. simpl in E. injection E as <- <-.
    now rewrite (IH x' r' Hin).
Qed.

Lemma match_atom_sound (a : atom) (s x r : str) :
  In (x, r) (match_atom a s) -> s = x ++ r.
Proof.
  destruct a as [l| |c|c|]; simpl.
  - destruct (strip_prefix l s) as [r'|] eqn:E; [|intros []].
    intros [H|[]]. injection H as <- <-. now apply strip_prefix_Some.
  - apply greedy_sound.
  - apply greedy_sound.
  - destruct s as [|c' s]; [intros []|]. simpl.
    destruct (none_of c c'); [|intros []]. intros H.
    apply in_map_iff in H. destruct H as [[x' r'] [E Hin]].
    unfold push in E. simpl in E. injection E as <- <-.
    now rewrite (greedy_sound _ _ _ _ Hin).
  - apply lazy_any_sound.
Qed.

Lemma match_seq_sound (atoms : list atom) (s x r : str) :
  In (x, r) (match_seq atoms s) -> s = x ++ r.
Proof.
  revert s x r. induction atoms as [|a atoms IH]; intros s x r H;
    cbn [match_seq] in H.
  - destruct H as [H|[]]. now injection H as <- <-.
  - apply in_flat_map in H. destruct H as [[x1 r1] [H1 H2]].
    apply in_map_iff in H2. destruct H2 as [[x2 r2] [E H2]].
    cbn [fst snd] in E, H2. injection E as <- <-.
    rewrite (match_atom_sound _ _ _ _ H1), (IH _ _ _ H2).
    now rewrite app_assoc.
Qed.

Lemma match_seq_lit_only (l s x r : str) :
  In (x, r) (match_seq [Lit l] s) -> x = l.
Proof.
  simpl. destruct (strip_prefix l s); simpl; [|intros []].
  intros [H|[]]. injection H as <- <-. apply app_nil_r.
Qed.

(** A match taken apart: the first group, what lies between, the third
    group, what follows. *)
Lemma match_here_sound (re : anchor_regex) (s g1 g3 post : str) :
  match_here re s = Some (g1, g3, post) ->
  exists r1 old r3,
    In (g1, r1) (match_seq (start_group re) s) /\
    In (g3, post) (match_seq (end_group re) r3) /\
    s = g1 ++ old ++ g3 ++ post.
Proof.
  unfold match_here. intros H.
  apply first_of_Some in H. destruct H as [[x1 r1] [H1 H]].
  apply first_of_Some in H. destruct H as [[x2 r2] [H2 H]].
  apply first_of_Some in H. destruct H as [[x3 r3] [H3 H]].
  simpl in H, H2, H3. injection H as <- <- <-.
  exists r1, x2, r2. repeat split; try assumption.
  rewrite (match_seq_sound _ _ _ _ H1), (match_seq_sound _ _ _ _ H2).
  now rewrite (match_seq_sound _ _ _ _ H3).
Qed.

Lemma exec_Some (re : anchor_regex) (s pre g1 g3 post : str) :
  exec re s = Some (pre, g1, g3, post) ->
  exists t, s = pre ++ t /\ match_here re t = Some (g1, g3, post).
Proof.
  revert pre. induction s as [|c s IH]; intros pre H; rewrite exec_eq in H.
  - destruct (match_here re []) as [[[a b] d]|] eqn:E; [|discriminate].
    injection H as <- <- <- <-. exists []. auto.
  - destruct (match_here re (c :: s)) as [[[a b] d]|] eqn:E.
    + injection H as <- <- <- <-. exists (c :: s). auto.
    + destruct (exec re s) as [[[[pre' a] b] d]|] eqn:E'; [|discriminate].
      injection H as <- <- <- <-.
      destruct (IH pre' eq_refl) as [t [-> Ht]]. exists t. auto.
Qed.

(** Every step keeps what precedes the match, its two groups and what
    follows it. *)
Lemma exec_sound (re : anchor_regex) (s pre g1 g3 post : str) :
  exec re s = Some (pre, g1, g3, post) ->
  exists old, s = pre ++ g1 ++ old ++ g3 ++ post.
Proof.
  intros H. apply exec_Some in H. destruct H as [t [-> H]].
  apply match_here_sound in H. destruct H as [_ [old [_ [_ [_ ->]]]]].
  now exists old.
Qed.

Lemma exec_hours_groups (s pre g1 g3 post : str) :
  exec hoursTableRegex s = Some (pre, g1, g3, post) ->
  g1 = sentinel HoursTable /\ g3 = END_AUTO_UPDATE.
Proof.
  intros H. apply exec_Some in H. destruct H as [t [_ H]].
  apply match_here_sound in H. destruct H as [r1 [old [r3 [H1 [H3 _]]]]].
  split.
  - exact (match_seq_lit_only _ _ _ _ H1).
  - exact (match_seq_lit_only _ _ _ _ H3).
Qed.

(** ** Closure suppression *)

Lemma update_content_contact (bd : BusinessData) (now : Z)
    (filePath content : str) :
  includes filePath (js "contact.html") = true ->
  update_content bd now filePath content =
  replace_anchor addressRegex (addressFragment bd)
    (replace_anchor phoneRegex (display (phone bd))
       (content_after_hours bd now filePath content)).
Proof.
  intros H. unfold update_content, content_after_hours, content_before_hours,
    steps_for, run_steps. rewrite H. reflexivity.
Qed.

Lemma has_kind_patch_first (k j : kind) (f : str) (l : body) :
  has_kind k (patch_first j f l) = has_kind k l.
Proof.
  induction l as [|[r t] l IH]; [reflexivity|]. cbn [patch_first].
  destruct (kind_eqb (r_kind r) j); cbn [has_kind existsb fst];
    [reflexivity|].
  fold (has_kind k (patch_first j f l)). fold (has_kind k l). now rewrite IH.
Qed.

Lemma has_kind_patch_all (frag : kind -> str) (k : kind) (kinds : list kind)
    (l : body) :
  has_kind k (patch_all frag kinds l) = has_kind k l.
Proof.
  revert l. induction kinds as [|j kinds IH]; intros l; [reflexivity|].
  change (patch_all frag (j :: kinds) l)
    with (patch_all frag kinds (patch_first j (frag j) l)).
  now rewrite IH, has_kind_patch_first.
Qed.

Lemma find_region_has_kind (k : kind) (l : body) :
  has_kind k l = true ->
  exists before r after,
    find_region k l = Some (before, r, after) /\ r_kind r = k.
Proof.
  induction l as [|[r t] l IH]; [discriminate|].
  cbn [has_kind existsb fst find_region]. fold (has_kind k l).
  destruct (kind_eqb (r_kind r) k) eqn:E.
  - intros _. exists [], r, (t ++ render_body l).
    split; [reflexivity|now apply kind_eqb_eq].
  - simpl. intros H. destruct (IH H) as [b [r' [a [-> Hk]]]].
    eexists _, r', a. split; [reflexivity|exact Hk].
Qed.

Lemma fixed_region_text (k : kind) (f : str) (l : body) :
  patch_first k f l = l -> has_kind k l = true ->
  exists before r after,
    r_kind r = k /\
    render_body l = before ++ start_text r ++ f ++ end_text r ++ after.
Proof.
  intros Hfix Hk.
  destruct (find_region_has_kind k l Hk) as [b [r [a [E Hr]]]].
  pose proof (render_patch_first k f l) as P. rewrite E, Hfix in P.
  exists b, r, a. auto.
Qed.

(** C1: while a closure is active the structured data carries no
    opening-hours rule, and the hours anchor of a contact document is
    filled with the closure card and the table under the caption "Regular
    hours (currently closed)". *)
Theorem closure_suppresses_hours
    (bd : BusinessData) (now : Z) (tc : TemporaryClosure) :
  getActiveTemporaryClosure bd now = Some tc ->
  (forall options : Options,
     openingHours bd now = [] /\
     sd_openingHoursSpecification (generateStructuredData bd now options)
       = None /\
     json_prop key_openingHours
       (json_of_data (generateStructuredData bd now options)) = None) /\
  hoursTableFragment bd now = closed_hours_table bd now /\
  (forall filePath content pre g1 g3 post : str,
     includes filePath (js "contact.html") = true ->
     exec hoursTableRegex (fst (content_before_hours bd now filePath content))
       = Some (pre, g1, g3, post) ->
     (exists old,
        fst (content_before_hours bd now filePath content) =
        pre ++ sentinel HoursTable ++ old ++ END_AUTO_UPDATE ++ post) /\
     fst (content_after_hours bd now filePath content) =
     pre ++ sentinel HoursTable ++ closed_hours_table bd now
         ++ END_AUTO_UPDATE ++ post) /\
  (forall (filePath t0 : str) (l : body),
     includes filePath (js "contact.html") = true ->
     fragments_plain bd now filePath = true ->
     wf_text t0 = true -> wf_body l = true ->
     has_kind HoursTable l = true ->
     exists before after,
       fst (update_content bd now filePath (t0 ++ render_body l)) =
       before ++ sentinel HoursTable ++ closed_hours_table bd now
              ++ END_AUTO_UPDATE ++ after).
Proof.
  intros Hc.
  assert (F : hoursTableFragment bd now = closed_hours_table bd now).
  { unfold hoursTableFragment, closed_hours_table. now rewrite Hc. }
  split; [|split; [exact F|split]].
  - intros options. pose proof (structured_data_closed bd now tc options Hc) as S.
    split; [exact (openingHours_closed bd now tc Hc)|].
    split; [exact S|]. now rewrite json_prop_openingHours, S.
  - intros filePath content pre g1 g3 post Hp He.
    destruct (exec_hours_groups _ _ _ _ _ He) as [-> ->].
    split; [exact (exec_sound _ _ _ _ _ _ He)|].
    unfold content_after_hours, replace_anchor. rewrite He, F. reflexivity.
  - intros filePath t0 l Hp Hf Ht Hl Hk.
    rewrite (update_content_body bd now filePath t0 l Ht Hl Hf).
    set (l' := patch_all (fragment bd now filePath) (kinds_for filePath) l).
    assert (Hfix : patch_first HoursTable
                     (fragment bd now filePath HoursTable) l' = l').
    { apply patch_all_fixes. unfold kinds_for. rewrite Hp. simpl. tauto. }
    assert (Hk' : has_kind HoursTable l' = true).
    { unfold l'. now rewrite has_kind_patch_all. }
    destruct (fixed_region_text _ _ _ Hfix Hk') as [b [r [a [Hr Er]]]].
    exists (t0 ++ b), a. rewrite Er.
    destruct r as [k ws1 attrs inner ws2]. cbn [r_kind] in Hr. subst k.
    unfold start_text, end_text. cbn [r_kind fragment]. rewrite F.
    now rewrite <- !app_assoc.
Qed.

Lemma closure_suppresses_hours_witness :
  sd_openingHoursSpecification
    (generateStructuredData closedData newYearsEve no_options) = None /\
  hoursTableFragment closedData newYearsEve =
  closed_hours_table closedData newYearsEve.
Proof.
  pose proof (closure_suppresses_hours closedData newYearsEve holidayClosure
                eq_refl) as [H1 [H2 _]].
  split; [exact (proj1 (proj2 (H1 no_options)))|exact H2].
Defined.

(** ** Dates as text *)

Lemma forallb_zrange (f : Z -> bool) (lo n z : Z) :
  forallb f (zrange lo n) = true -> lo <= z < lo + n -> f z = true.
Proof.
  intros H Hz. rewrite forallb_forall in H. apply H.
  unfold zrange. apply in_map_iff. exists (Z.to_nat (z - lo)). split.
  - cbn beta. lia.
  - apply in_seq. lia.
Qed.

Lemma four_digit_years (y : Z) :
  1000 <= y <= 9999 -> reads_as 4 (show_Z y) y = true.
Proof.
  intros H.
  apply (forallb_zrange (fun y => reads_as 4 (show_Z y) y) 1000 9000).
  - vm_compute. reflexivity.
  - lia.
Qed.

Lemma short_years (y : Z) :
  0 <= y <= 999 -> (List.length (show_Z y) <=? 3)%nat = true.
Proof.
  intros H.
  apply (forallb_zrange (fun y => (List.length (show_Z y) <=? 3)%nat) 0 1000).
  - vm_compute. reflexivity.
  - lia.
Qed.

Lemma two_digit_fields (n : Z) :
  1 <= n <= 31 -> reads_as 2 (padStart0 2 (show_Z n)) n = true.
Proof.
  intros H.
  apply (forallb_zrange (fun n => reads_as 2 (padStart0 2 (show_Z n)) n) 1 31).
  - vm_compute. reflexivity.
  - lia.
Qed.

Lemma reads_as_4 (s : str) (z : Z) :
  reads_as 4 s z = true ->
  exists a b c d, s = [a; b; c; d] /\ number_of_digits [a; b; c; d] 0 = Some z.
Proof.
  unfold reads_as. intros H. apply andb_prop in H. destruct H as [L V].
  do 4 (destruct s as [|? s]; [discriminate L|]).
  destruct s; [|discriminate L].
  do 4 eexists. split; [reflexivity|].
  destruct (number_of_digits _ 0); [|discriminate V].
  apply Z.eqb_eq in V. now subst.
Qed.

Lemma reads_as_2 (s : str) (z : Z) :
  reads_as 2 s z = true ->
  exists a b, s = [a; b] /\ number_of_digits [a; b] 0 = Some z.
Proof.
  unfold reads_as. intros H. apply andb_prop in H. destruct H as [L V].
  do 2 (destruct s as [|? s]; [discriminate L|]).
  destruct s; [|discriminate L].
  do 2 eexists. split; [reflexivity|].
  destruct (number_of_digits _ 0); [|discriminate V].
  apply Z.eqb_eq in V. now subst.
Qed.

Lemma wf_date_valid (y m dd : Z) :
  wf_date (y, m, dd) -> 0 <= y <= 9999 -> valid_date (y, m, dd) = true.
Proof.
  unfold wf_date, valid_date. intros [Hm Hd] Hy.
  repeat (apply andb_true_intro; split); apply Z.leb_le; lia.
Qed.

Lemma wf_date_day_range (y m dd : Z) : wf_date (y, m, dd) -> 1 <= dd <= 31.
Proof.
  intros [Hm Hd]. split; [lia|].
  destruct (month_cases m Hm) as [H|[H|[H|[H|[H|[H|[H|[H|[H|[H|[H|H]]]]]]]]]]];
    subst m; cbn in Hd; try lia; destruct (leap y); lia.
Qed.

(** The text of a date with a year of four digits is read back as that
    date. *)
Lemma parse_iso_date_text (y m dd : Z) :
  wf_date (y, m, dd) -> 1000 <= y <= 9999 ->
  parse_iso_date (show_Z y ++ js "-" ++ padStart0 2 (show_Z m) ++ js "-"
                  ++ padStart0 2 (show_Z dd)) = Some (y, m, dd).
Proof.
  intros Hwf Hy.
  pose proof (wf_date_valid _ _ _ Hwf ltac:(lia)) as Hv.
  pose proof (wf_date_day_range _ _ _ Hwf) as Hd. destruct Hwf as [Hm _].
  destruct (reads_as_4 _ _ (four_digit_years y Hy)) as [a [b [c [d [-> Ey]]]]].
  destruct (reads_as_2 _ _ (two_digit_fields m ltac:(lia))) as [m1 [m2 [-> Em]]].
  destruct (reads_as_2 _ _ (two_digit_fields dd Hd)) as [d1 [d2 [-> Ed]]].
  change (parse_iso_date [a; b; c; d; 45%N; m1; m2; 45%N; d1; d2]
          = Some (y, m, dd)).
  unfold parse_iso_date. rewrite Ey, Em, Ed, Hv. reflexivity.
Qed.

Lemma parse_iso_date_length (s : str) (d : date) :
  parse_iso_date s = Some d -> List.length s = 10%nat.
Proof.
  unfold parse_iso_date. intros H.
  do 10 (destruct s as [|? s]; [discriminate H|]).
  destruct s; [reflexivity|discriminate H].
Qed.

(** The [Date] made of a date string at midnight, and what its getters
    give. *)
Lemma new_Date_getters (s : str) (y m dd : Z) :
  parse_iso_date s = Some (y, m, dd) ->
  exists t, new_Date_at s 0 0 0 = Some t /\
            YearFromTime t = y /\ MonthFromTime t = m - 1 /\
            DateFromTime t = dd /\ WeekDay t = weekday (y, m, dd).
Proof.
  intros Hs.
  pose proof (valid_date_wf _ (parse_iso_date_valid _ _ Hs)) as Wd.
  unfold new_Date_at. rewrite Hs.
  set (t := MakeDate (MakeDay y (m - 1) dd) (MakeTime 0 0 0 0)).
  assert (Dt : Day t = day_number (y, m, dd)).
  { subst t. apply Day_MakeDate. unfold msPerDay. cbn. lia. }
  pose proof (date_of_day_number _ _ _ _ Wd Dt) as Et.
  unfold date_of_time in Et. injection Et as Ey Em Ed.
  exists t. repeat split; try assumption; try lia.
  unfold WeekDay, weekday. now rewrite Dt.
Qed.

Lemma weekday_range (d : date) : 0 <= weekday d < 7.
Proof. unfold weekday. apply Z.mod_pos_bound. lia. Qed.

Lemma table_at_days (i : Z) :
  0 <= i -> table_at days (Some i) = day_name i.
Proof.
  intros H. unfold table_at, day_name.
  destruct (Z.ltb_spec i 0); [lia|reflexivity].
Qed.

Lemma table_at_months (m : Z) :
  1 <= m -> table_at months (Some (m - 1)) = month_name m.
Proof.
  intros H. unfold table_at, month_name.
  destruct (Z.ltb_spec (m - 1) 0); [lia|reflexivity].
Qed.

Lemma formatDate_text (s : str) (y m dd : Z) :
  parse_iso_date s = Some (y, m, dd) ->
  formatDate s =
  month_name m ++ js " " ++ show_Z dd ++ js ", " ++ show_Z y.
Proof.
  intros Hs.
  pose proof (valid_date_wf _ (parse_iso_date_valid _ _ Hs)) as [Hm _].
  destruct (new_Date_getters _ _ _ _ Hs) as [t [Et [Ey [Em [Ed _]]]]].
  unfold formatDate. rewrite Et.
  unfold getMonth, getDate, getFullYear, option_map, show_num.
  rewrite Ey, Em, Ed, table_at_months by lia. reflexivity.
Qed.

Lemma formatDateWithDay_text (s : str) (d : date) :
  parse_iso_date s = Some d ->
  formatDateWithDay s = day_name (weekday d) ++ js ", " ++ formatDate s.
Proof.
  intros Hs. destruct d as [[y m] dd].
  destruct (new_Date_getters _ _ _ _ Hs) as [t [Et [_ [_ [_ Ew]]]]].
  unfold formatDateWithDay, formatDate. rewrite Et.
  unfold getDay, option_map. rewrite Ew, table_at_days.
  - reflexivity.
  - apply weekday_range.
Qed.

Lemma weekday_next (d : date) :
  wf_date d -> weekday (next_date d) = (weekday d + 1) mod 7.
Proof.
  intros Hwf. destruct (next_date_wf d Hwf) as [_ E].
  unfold weekday. rewrite E. dlia.
Qed.

Lemma next_date_year (d : date) :
  valid_date d = true -> 0 <= year_of (next_date d) <= 10000.
Proof.
  destruct d as [[y m] dd]. unfold valid_date, next_date, year_of. intros H.
  repeat (apply andb_prop in H; destruct H as [H ?]).
  repeat match goal with
  | H : (_ <=? _) = true |- _ => apply Z.leb_le in H
  end.
  destruct (dd <? DaysInMonth y m), (m <? 12); cbn; lia.
Qed.

Lemma next_date_year_10000 (d : date) :
  valid_date d = true -> year_of (next_date d) = 10000 ->
  next_date d = (10000, 1, 1).
Proof.
  destruct d as [[y m] dd]. unfold valid_date, next_date, year_of. intros H.
  repeat (apply andb_prop in H; destruct H as [H ?]).
  repeat match goal with
  | H : (_ <=? _) = true |- _ => apply Z.leb_le in H
  end.
  destruct (dd <? DaysInMonth y m), (m <? 12); cbn; intros E;
    try lia. repeat f_equal; lia.
Qed.

Lemma parse_iso_date_short (a b : str) :
  (List.length a <=? 3)%nat = true -> List.length b = 6%nat ->
  parse_iso_date (a ++ b) = None.
Proof.
  intros Ha Hb. apply Nat.leb_le in Ha.
  destruct (parse_iso_date (a ++ b)) as [d|] eqn:E; [|reflexivity].
  apply parse_iso_date_length in E. rewrite length_app in E. lia.
Qed.

Lemma padStart0_length (n : Z) :
  1 <= n <= 31 -> List.length (padStart0 2 (show_Z n)) = 2%nat.
Proof.
  intros H. destruct (reads_as_2 _ _ (two_digit_fields n H)) as [a [b [-> _]]].
  reflexivity.
Qed.

(** What [new Date] reads in the text that [getNextDay] returns. *)
Lemma getNextDay_read_back (s : str) (d : date) :
  parse_iso_date s = Some d ->
  parse_iso_date (getNextDay s) =
  if (1000 <=? year_of (next_date d)) && (year_of (next_date d) <=? 9999)
  then Some (next_date d) else None.
Proof.
  intros Hs. rewrite (getNextDay_next_date s d Hs).
  pose proof (parse_iso_date_valid _ _ Hs) as Hv.
  pose proof (valid_date_wf _ Hv) as Wd.
  destruct (next_date_wf _ Wd) as [Wn _].
  pose proof (next_date_year d Hv) as Hy.
  pose proof (next_date_year_10000 d Hv) as Hmax.
  destruct (next_date d) as [[y' m'] d']. unfold year_of in *. cbn [fst] in *.
  destruct (Z.leb_spec 1000 y') as [H1|H1]; cbn [andb].
  - destruct (Z.leb_spec y' 9999) as [H2|H2].
    + apply parse_iso_date_text; [assumption|lia].
    + assert (E : y' = 10000) by lia. specialize (Hmax E).
      injection Hmax as -> -> ->. reflexivity.
  - pose proof (wf_date_day_range _ _ _ Wn) as Hd. destruct Wn as [Hm _].
    apply parse_iso_date_short.
    + apply short_years. lia.
    + change (js "-") with [45%N]. cbn [app List.length].
      rewrite length_app. cbn [app List.length].
      rewrite !padStart0_length by lia. reflexivity.
Qed.






(** ** getNextDay, the day after *)



(** X1: for a date string that names a day of the calendar, [formatDate]
    gives the name of the month, the day of the month without a leading
    zero, a comma and the year, the year too without leading zeros. *)
Theorem formatDate_month_day_year (s : str) (y m dd : Z) :
  parse_iso_date s = Some (y, m, dd) ->
  formatDate s =
  month_name m ++ js " " ++ show_Z dd ++ js ", " ++ show_Z y.
Proof. exact (formatDate_text s y m dd). Qed.

Lemma formatDate_month_day_year_witness :
  formatDate (js "2025-02-09") =
  month_name 2 ++ js " " ++ show_Z 9 ++ js ", " ++ show_Z 2025.
Proof. apply (formatDate_month_day_year (js "2025-02-09")). reflexivity. Defined.

(** X2: the day of the week that [formatDateWithDay] prints follows the
    calendar: the first of January 1970 is a Thursday, and of two date
    strings that name a day and the day after it, the second gets the next
    name of the week, Sunday following Saturday; the rest of the text is
    that of [formatDate]. *)
Theorem formatDateWithDay_weekdays_follow :
  formatDateWithDay (js "1970-01-01") = js "Thursday, January 1, 1970" /\
  forall (s s' : str) (d : date),
    parse_iso_date s = Some d -> parse_iso_date s' = Some (next_date d) ->
    exists i : Z,
      0 <= i < 7 /\
      formatDateWithDay s = day_name i ++ js ", " ++ formatDate s /\
      formatDateWithDay s' =
        day_name ((i + 1) mod 7) ++ js ", " ++ formatDate s'.
Proof.
  split; [reflexivity|]. intros s s' d Hs Hs'.
  pose proof (valid_date_wf _ (parse_iso_date_valid _ _ Hs)) as Wd.
  exists (weekday d). split; [apply weekday_range|]. split.
  - now apply formatDateWithDay_text.
  - rewrite <- weekday_next by assumption. now apply formatDateWithDay_text.
Qed.

Lemma formatDateWithDay_weekdays_follow_witness :
  exists i : Z,
    0 <= i < 7 /\
    formatDateWithDay (js "2026-02-28") =
      day_name i ++ js ", " ++ formatDate (js "2026-02-28") /\
    formatDateWithDay (js "2026-03-01") =
      day_name ((i + 1) mod 7) ++ js ", " ++ formatDate (js "2026-03-01").
Proof.
  apply (proj2 formatDateWithDay_weekdays_follow
           (js "2026-02-28") (js "2026-03-01") (2026, 2, 28));
    reflexivity.
Defined.

(** X3: the text that [getNextDay] returns for a date string is itself a
    date string, naming the next day of the calendar, exactly when the year
    of that next day has four digits (1000 to 9999); for an earlier year
    and for the year 10000 the text is not of the form YYYY-MM-DD. *)
Theorem getNextDay_is_a_date_string (s : str) (d : date) :
  parse_iso_date s = Some d ->
  parse_iso_date (getNextDay s) =
  if (1000 <=? year_of (next_date d)) && (year_of (next_date d) <=? 9999)
  then Some (next_date d) else None.
Proof. exact (getNextDay_read_back s d). Qed.

Lemma getNextDay_is_a_date_string_witness :
  parse_iso_date (getNextDay (js "2024-02-28")) = Some (2024, 2, 29).
Proof.
  apply (getNextDay_is_a_date_string (js "2024-02-28") (2024, 2, 28)).
  reflexivity.
Defined.

(** ** The closure card *)

Lemma closure_of_active (bd : BusinessData) (now : Z) (tc : TemporaryClosure) :
  getActiveTemporaryClosure bd now = Some tc -> temporaryClosure bd = Some tc.
Proof.
  unfold getActiveTemporaryClosure.
  destruct (temporaryClosure bd) as [tc'|]; [|discriminate].
  destruct (_ && _); [|discriminate]. intros H. now injection H as <-.
Qed.

(** X4: while a closure is active whose end date names a day of the
    calendar, the closure card ends with the announcement of the return on
    the day after the end date, printed with its day of the week, the name
    of its month, its day and its year, provided the year of that day has
    four digits. *)
Theorem closure_card_announces_next_day
    (bd : BusinessData) (now : Z) (tc : TemporaryClosure) (e : date)
    (y m dd : Z) :
  getActiveTemporaryClosure bd now = Some tc ->
  parse_iso_date (endDate tc) = Some e ->
  next_date e = (y, m, dd) -> 1000 <= y <= 9999 ->
  exists before : str,
    generateClosureCardHTML bd now =
    before ++ js "We will return to regular hours on <strong>"
    ++ day_name ((weekday e + 1) mod 7) ++ js ", " ++ month_name m ++ js " "
    ++ show_Z dd ++ js ", " ++ show_Z y ++ js "</strong></div></div></div>".
Proof.
  intros Ha He Hn Hy.
  pose proof (valid_date_wf _ (parse_iso_date_valid _ _ He)) as We.
  pose proof (getNextDay_read_back _ _ He) as Hr. rewrite Hn in Hr.
  unfold year_of in Hr. cbn [fst] in Hr.
  destruct (Z.leb_spec 1000 y); [|lia]. destruct (Z.leb_spec y 9999); [|lia].
  cbn [andb] in Hr.
  unfold generateClosureCardHTML. rewrite Ha.
  rewrite (formatDateWithDay_text _ _ Hr), (formatDate_text _ _ _ _ Hr).
  rewrite <- Hn, weekday_next by assumption.
  match goal with
  | |- exists before, ?A ++ ?i ++ ?B ++ ?msg ++ ?C ++ ?sf ++ ?s1 ++ ?en ++ ?s2
                      ++ ?ef ++ _ = _ =>
      exists (A ++ i ++ B ++ msg ++ C ++ sf ++ s1 ++ en ++ s2 ++ ef
              ++ js "</div><div>")
  end.
  rewrite <- !app_assoc. reflexivity.
Qed.

Lemma closure_card_announces_next_day_witness :
  exists before : str,
    generateClosureCardHTML closedData newYearsEve =
    before ++ js "We will return to regular hours on <strong>"
    ++ day_name ((weekday (2026, 1, 2) + 1) mod 7) ++ js ", "
    ++ month_name 1 ++ js " " ++ show_Z 3 ++ js ", " ++ show_Z 2026
    ++ js "</strong></div></div></div>".
Proof.
  apply (closure_card_announces_next_day closedData newYearsEve
           holidayClosure (2026, 1, 2) 2026 1 3);
    try reflexivity. lia.
Defined.

(** X5: the closure card is the empty string exactly when no closure is
    active; while one is active the card shows the message of the closure,
    or the words "Temporarily closed" when the message is missing or
    empty. *)
Theorem closure_card_empty_or_message (bd : BusinessData) (now : Z) :
  (generateClosureCardHTML bd now = [] <->
   getActiveTemporaryClosure bd now = None) /\
  forall tc : TemporaryClosure,
    getActiveTemporaryClosure bd now = Some tc ->
    exists before after : str,
      generateClosureCardHTML bd now =
      before ++ js "<div style=`font-weight: bold; margin-bottom: 5px;`>"
      ++ (if truthy (message tc) then to_string (message tc)
          else js "Temporarily closed")
      ++ js "</div>" ++ after.
Proof.
  split.
  - unfold generateClosureCardHTML.
    destruct (getActiveTemporaryClosure bd now) as [tc|].
    + split; discriminate.
    + split; reflexivity.
  - intros tc Ha. unfold generateClosureCardHTML. rewrite Ha.
    match goal with
    | |- exists before after, ?A ++ ?i ++ _ ++ ?msg ++ _ ++ ?rest = _ =>
        exists (A ++ i ++ js "</div><div style=`flex: 1; color: #856404; word-wrap: break-word;`>"),
               (js "<div style=`margin-bottom: 5px;`>" ++ rest)
    end.
    rewrite <- !app_assoc. reflexivity.
Qed.

Lemma closure_card_empty_or_message_witness :
  exists before after : str,
    generateClosureCardHTML closedData newYearsEve =
    before ++ js "<div style=`font-weight: bold; margin-bottom: 5px;`>"
    ++ js "Closed for the holidays" ++ js "</div>" ++ after.
Proof.
  apply (proj2 (closure_card_empty_or_message closedData newYearsEve)
           holidayClosure).
  reflexivity.
Defined.

(** ** Days and their rows *)

From Stdlib Require Import Permutation.

Lemma fold_left_app_rows {A : Type} (f : A -> str) (l : list A) (acc : str) :
  fold_left (fun html x => html ++ f x) l acc = acc ++ List.concat (map f l).
Proof.
  revert acc. induction l as [|x l IH]; intros acc; simpl.
  - now rewrite app_nil_r.
  - rewrite IH. now rewrite app_assoc.
Qed.

Lemma generateHoursTableHTML_rows (bd : BusinessData) :
  generateHoursTableHTML bd = List.concat (map hours_row (hours bd)).
Proof.
  unfold generateHoursTableHTML.
  exact (fold_left_app_rows hours_row (hours bd) []).
Qed.

Lemma concat_map_In {A : Type} (f : A -> str) (l : list A) (x : A) :
  In x l -> exists a b, List.concat (map f l) = a ++ f x ++ b.
Proof.
  intros H. apply in_split in H. destruct H as [l1 [l2 ->]].
  exists (List.concat (map f l1)), (List.concat (map f l2)).
  now rewrite map_app, concat_app.
Qed.

(** *** What [slot_push] keeps *)

Lemma slot_push_days (key d : str) (m : slots) :
  Permutation (List.concat (map snd (slot_push key d m)))
              (List.concat (map snd m) ++ [d]).
Proof.
  induction m as [|[k ds] m IH]; simpl.
  - apply Permutation_refl.
  - destruct (str_eqb k key); simpl.
    + rewrite <- !app_assoc. apply Permutation_app_head.
      apply Permutation_app_comm.
    + rewrite <- app_assoc. now apply Permutation_app_head.
Qed.

Lemma slot_push_new (key d : str) (m : slots) :
  exists ds, In (key, ds) (slot_push key d m) /\ In d ds.
Proof.
  induction m as [|[k ds] m [ds' [H1 H2]]]; simpl.
  - exists [d]. split; now left.
  - destruct (str_eqb k key) eqn:E.
    + apply str_eqb_eq in E. subst k. exists (ds ++ [d]). split.
      * now left.
      * apply in_or_app. right. now left.
    + exists ds'. split; [now right|assumption].
Qed.

Lemma slot_push_old (key d k0 d0 : str) (ds0 : list str) (m : slots) :
  In (k0, ds0) m -> In d0 ds0 ->
  exists ds, In (k0, ds) (slot_push key d m) /\ In d0 ds.
Proof.
  intros Hin Hd. induction m as [|[k ds] m IH]; simpl; [destruct Hin|].
  destruct Hin as [E|Hin].
  - injection E as -> ->. destruct (str_eqb k0 key).
    + exists (ds0 ++ [d]). split; [now left|]. apply in_or_app. now left.
    + exists ds0. split; [now left|assumption].
  - destruct (IH Hin) as [ds' [H1 H2]].
    destruct (str_eqb k key); simpl.
    + exists ds0. split; [now right|assumption].
    + exists ds'. split; [now right|assumption].
Qed.

Lemma slot_push_nonempty (key d : str) (m : slots) :
  Forall (fun s => snd s <> []) m ->
  Forall (fun s => snd s <> []) (slot_push key d m).
Proof.
  induction 1 as [|[k ds] m H1 H2 IH]; simpl.
  - constructor; [discriminate|constructor].
  - destruct (str_eqb k key); constructor; try assumption.
    simpl. destruct ds; discriminate.
Qed.

Lemma hoursBySlot_fold (hs : list DaySchedule) :
  hoursBySlot hs = fold_left slot_step hs [].
Proof. reflexivity. Qed.

Lemma fold_slots_days (hs : list DaySchedule) (m : slots) :
  Permutation (List.concat (map snd (fold_left slot_step hs m)))
              (List.concat (map snd m) ++ map day (open_days hs)).
Proof.
  revert m. induction hs as [|h hs IH]; intros m; simpl.
  - now rewrite app_nil_r.
  - rewrite IH. unfold slot_step, open_days. simpl filter.
    destruct (closed h); simpl.
    + apply Permutation_refl.
    + rewrite (slot_push_days (slot_key h) (day h) m).
      rewrite <- app_assoc. apply Permutation_refl.
Qed.

Lemma fold_slots_nonempty (hs : list DaySchedule) (m : slots) :
  Forall (fun s => snd s <> []) m ->
  Forall (fun s => snd s <> []) (fold_left slot_step hs m).
Proof.
  revert m. induction hs as [|h hs IH]; intros m Hm; simpl; [assumption|].
  apply IH. unfold slot_step. destruct (closed h); [assumption|].
  now apply slot_push_nonempty.
Qed.

Lemma fold_slots_keeps (hs : list DaySchedule) (m : slots) (k0 d0 : str)
    (ds0 : list str) :
  In (k0, ds0) m -> In d0 ds0 ->
  exists ds, In (k0, ds) (fold_left slot_step hs m) /\ In d0 ds.
Proof.
  revert m ds0. induction hs as [|h hs IH]; intros m ds0 Hin Hd; simpl.
  - now exists ds0.
  - unfold slot_step at 2. destruct (closed h).
    + now apply (IH m ds0).
    + destruct (slot_push_old (slot_key h) (day h) k0 d0 ds0 m Hin Hd)
        as [ds [H1 H2]].
      now apply (IH _ ds).
Qed.

Lemma fold_slots_open_day (hs : list DaySchedule) (m : slots)
    (h : DaySchedule) :
  In h hs -> closed h = false ->
  exists ds, In (slot_key h, ds) (fold_left slot_step hs m) /\ In (day h) ds.
Proof.
  revert m. induction hs as [|h' hs IH]; intros m Hin Hc; [destruct Hin|].
  simpl. destruct Hin as [->|Hin].
  - unfold slot_step at 2. rewrite Hc.
    destruct (slot_push_new (slot_key h) (day h) m) as [ds [H1 H2]].
    now apply (fold_slots_keeps hs _ _ _ ds).
  - now apply IH.
Qed.

Lemma openingHours_open (bd : BusinessData) (now : Z) :
  getActiveTemporaryClosure bd now = None ->
  openingHours bd now = map rule_of_slot (hoursBySlot (hours bd)).
Proof. intros H. unfold openingHours. now rewrite H. Qed.

Lemma dayOfWeek_rules (m : slots) :
  map dayOfWeek (map rule_of_slot m) = map snd m.
Proof. rewrite map_map. apply map_ext. now intros [k ds]. Qed.

(** X6: a day that is not marked closed and whose two times are [null] is
    published all the same: the hours table has the row of that day with
    the text "null – null", and, when no closure is active, the structured
    data lists the day under a rule whose [opens] and [closes] are the text
    "null". *)
Theorem open_day_without_times_is_published
    (bd : BusinessData) (now : Z) (h : DaySchedule) :
  In h (hours bd) -> closed h = false -> open h = Null -> close h = Null ->
  (exists a b : str,
     generateHoursTableHTML bd = a ++ row_without_times (day h) ++ b) /\
  (getActiveTemporaryClosure bd now = None ->
   exists r : Rule,
     In r (openingHours bd now) /\ In (day h) (dayOfWeek r) /\
     opens r = js "null" /\ closes r = js "null").
Proof.
  intros Hin Hc Ho Hcl. split.
  - rewrite generateHoursTableHTML_rows.
    destruct (concat_map_In hours_row _ _ Hin) as [a [b E]].
    exists a, b. rewrite E. do 2 f_equal.
    unfold hours_row, row_without_times. rewrite Hc, Ho, Hcl.
    cbn [formatTime12Hour truthy negb string_or_null].
    rewrite <- !app_assoc. reflexivity.
  - intros Ha. rewrite (openingHours_open _ _ Ha), hoursBySlot_fold.
    destruct (fold_slots_open_day (hours bd) [] h Hin Hc) as [ds [H1 H2]].
    exists (rule_of_slot (slot_key h, ds)). split; [|split].
    + apply in_map_iff. now exists (slot_key h, ds).
    + exact H2.
    + unfold slot_key. rewrite Ho, Hcl. split; reflexivity.
Qed.

Lemma open_day_without_times_is_published_witness :
  (exists a b : str,
     generateHoursTableHTML mondayWithoutTimes =
     a ++ row_without_times (js "Monday") ++ b) /\
  (getActiveTemporaryClosure mondayWithoutTimes 0 = None ->
   exists r : Rule,
     In r (openingHours mondayWithoutTimes 0) /\
     In (js "Monday") (dayOfWeek r) /\
     opens r = js "null" /\ closes r = js "null").
Proof.
  apply (open_day_without_times_is_published mondayWithoutTimes 0
           {| day := js "Monday"; open := Null; close := Null;
              closed := false |});
    try reflexivity.
  left. reflexivity.
Defined.

(** X7: while no closure is active, the grouping loses no day and invents
    none: the day names of all rules together are the names of the days not
    marked closed, each as often as it is configured, and no rule is without
    a day.  This holds whatever the times are. *)
Theorem rules_list_every_open_day_once (bd : BusinessData) (now : Z) :
  getActiveTemporaryClosure bd now = None ->
  Permutation (List.concat (map dayOfWeek (openingHours bd now)))
              (map day (open_days (hours bd))) /\
  Forall (fun r => dayOfWeek r <> []) (openingHours bd now).
Proof.
  intros Ha. rewrite (openingHours_open _ _ Ha), hoursBySlot_fold. split.
  - rewrite dayOfWeek_rules. exact (fold_slots_days (hours bd) []).
  - apply Forall_map.
    pose proof (fold_slots_nonempty (hours bd) [] (Forall_nil _)) as H.
    eapply Forall_impl; [|exact H]. now intros [k ds].
Qed.

Lemma rules_list_every_open_day_once_witness :
  Permutation (List.concat (map dayOfWeek (openingHours businessData 0)))
              (map day (open_days (hours businessData))) /\
  Forall (fun r => dayOfWeek r <> []) (openingHours businessData 0).
Proof. apply (rules_list_every_open_day_once businessData 0). reflexivity. Defined.

(** ** The data of the pages other than the index page *)

Lemma assoc_str_filter (key k : str) (props : list (str * json)) :
  assoc_str key (filter (fun p => negb (str_eqb (fst p) k)) props) =
  if str_eqb key k then None else assoc_str key props.
Proof.
  induction props as [|[k' v] props IH]; simpl.
  - now destruct (str_eqb key k).
  - destruct (str_eqb k' k) eqn:E1; simpl.
    + rewrite IH. destruct (str_eqb key k) eqn:E2; [reflexivity|].
      destruct (str_eqb k' key) eqn:E3; [|reflexivity].
      apply str_eqb_eq in E1, E3. subst. now rewrite str_eqb_refl in E2.
    + destruct (str_eqb k' key) eqn:E3.
      * apply str_eqb_eq in E3. subst k'. now rewrite E1.
      * exact IH.
Qed.

Lemma delete_servesCuisine_json (d : StructuredDataRecord) :
  json_of_data (delete_servesCuisine d) =
  remove_prop (js "servesCuisine") (json_of_data d).
Proof.
  unfold json_of_data, delete_servesCuisine, remove_prop. cbn [sd_name
    sd_image sd_streetAddress sd_addressLocality sd_addressRegion
    sd_postalCode sd_addressCountry sd_latitude sd_longitude sd_url
    sd_telephone sd_priceRange sd_openingHoursSpecification sd_description
    sd_servesCuisine].
  f_equal.
  destruct (sd_openingHoursSpecification d), (sd_servesCuisine d);
    reflexivity.
Qed.

(** X8: the data written to a page whose path does not contain
    "index.html" is the data of the index page without its [servesCuisine]
    property: that property is gone, and every other property is there with
    the same value. *)
Theorem other_pages_omit_servesCuisine
    (bd : BusinessData) (now : Z) (filePath : str) :
  includes filePath (js "index.html") = false ->
  exists data : json,
    generateStructuredDataJSON bd now no_options = JSON_stringify data /\
    structuredDataFragment bd now filePath =
      [10%N] ++ js "    "
      ++ indent_lines (JSON_stringify (remove_prop (js "servesCuisine") data))
      ++ [10%N] ++ js "    " /\
    forall key : str,
      json_prop key (remove_prop (js "servesCuisine") data) =
      if str_eqb key (js "servesCuisine") then None else json_prop key data.
Proof.
  intros Hp. exists (json_of_data (generateStructuredData bd now no_options)).
  split; [reflexivity|]. split.
  - unfold structuredDataFragment. rewrite Hp.
    now rewrite delete_servesCuisine_json.
  - intros key. unfold json_of_data, remove_prop, json_prop.
    apply assoc_str_filter.
Qed.

Lemma other_pages_omit_servesCuisine_witness :
  exists data : json,
    generateStructuredDataJSON businessData 0 no_options
      = JSON_stringify data /\
    structuredDataFragment businessData 0 (js "public/contact.html") =
      [10%N] ++ js "    "
      ++ indent_lines (JSON_stringify (remove_prop (js "servesCuisine") data))
      ++ [10%N] ++ js "    " /\
    forall key : str,
      json_prop key (remove_prop (js "servesCuisine") data) =
      if str_eqb key (js "servesCuisine") then None else json_prop key data.
Proof.
  apply (other_pages_omit_servesCuisine businessData 0
           (js "public/contact.html")).
  reflexivity.
Defined.

(** ** The indentation of the data *)

Lemma join_cons (sep x y : str) (r : list str) :
  join sep (x :: y :: r) = x ++ sep ++ join sep (y :: r).
Proof. reflexivity. Qed.

Lemma join_indented (first : str) (rest : list str) :
  join [10%N] (first :: map (fun line => js "    " ++ line) rest) =
  first ++ List.concat (map (fun line => 10%N :: js "    " ++ line) rest).
Proof.
  revert first. induction rest as [|l rest IH]; intros first.
  - simpl. now rewrite app_nil_r.
  - cbn [map]. rewrite join_cons, IH. cbn [List.concat map].
    rewrite <- !app_assoc. reflexivity.
Qed.

Lemma split_on_nonempty (c : N) (s : str) : split_on c s <> [].
Proof.
  destruct s as [|x s]; simpl; [discriminate|].
  destruct (N.eqb x c); [discriminate|].
  destruct (split_on c s); discriminate.
Qed.

Lemma indent_lines_flat (text : str) :
  indent_lines text = indent_after_newlines text.
Proof.
  unfold indent_lines.
  assert (H : forall first rest,
            split_on 10 text = first :: rest ->
            first ++ List.concat (map (fun line => 10%N :: js "    " ++ line) rest)
            = indent_after_newlines text).
  { induction text as [|c text IH]; intros first rest E; simpl in E.
    - injection E as <- <-. reflexivity.
      - destruct (split_on 10 text) as [|p ps] eqn:S.
      + now destruct (split_on_nonempty 10 text).
      + specialize (IH p ps eq_refl). unfold indent_after_newlines in *.
        cbn [flat_map]. destruct (N.eqb c 10).
        * injection E as <- <-. cbn [map List.concat app]. rewrite <- IH.
          reflexivity.
        * injection E as <- <-. rewrite <- IH. reflexivity. }
  destruct (split_on 10 text) as [|first rest] eqn:S.
  - now destruct (split_on_nonempty 10 text).
  - rewrite join_indented. now apply H.
Qed.

(** X9: the re-indentation of the JSON text changes nothing but the line
    breaks: the result is the text with four spaces put after every line
    feed, so every line but the first is moved right by four columns and no
    line is added, dropped or joined. *)
Theorem indent_lines_adds_four_spaces (text : str) :
  indent_lines text = indent_after_newlines text /\
  List.length (split_on 10 (indent_lines text))
    = List.length (split_on 10 text).
Proof.
  split; [apply indent_lines_flat|].
  rewrite indent_lines_flat. unfold indent_after_newlines.
  induction text as [|c text IH]; [reflexivity|].
  cbn [flat_map]. destruct (N.eqb c 10) eqn:E.
  - cbn [app split_on js unit_of_ascii]. cbn. rewrite E.
    destruct (split_on 10 (flat_map _ text)) as [|p ps] eqn:S.
    + now destruct (split_on_nonempty 10 (flat_map
        (fun c => if N.eqb c 10 then 10%N :: js "    " else [c]) text)).
    + cbn. now rewrite <- IH.
  - cbn [app split_on]. rewrite E.
    destruct (split_on 10 (flat_map _ text)) as [|p ps] eqn:S.
    + now destruct (split_on_nonempty 10 (flat_map
        (fun c => if N.eqb c 10 then 10%N :: js "    " else [c]) text)).
    + destruct (split_on 10 text) as [|q qs] eqn:S'.
      * now destruct (split_on_nonempty 10 text).
      * cbn in *. exact IH.
Qed.

(** ** What the patterns match *)

Lemma greedy_all (p : N -> bool) (s x r : str) :
  In (x, r) (greedy p s) -> forallb p x = true.
Proof.
  revert x r. induction s as [|c s IH]; intros x r H; simpl in H.
  - destruct H as [H|[]]. now injection H as <- <-.
  - destruct (p c) eqn:Hc.
    + apply in_app_or in H. destruct H as [H|[H|[]]].
      * apply in_map_iff in H. destruct H as [[x' r'] [E Hin]].
        unfold push in E. simpl in E. injection E as <- <-.
        simpl. rewrite Hc. exact (IH _ _ Hin).
      * now injection H as <- <-.
    + destruct H as [H|[]]. now injection H as <- <-.
Qed.

Lemma match_atom_matches (a : atom) (s x r : str) :
  In (x, r) (match_atom a s) -> atom_matches a x.
Proof.
  destruct a as [l| |c|c|]; simpl.
  - destruct (strip_prefix l s); [|intros []].
    intros [H|[]]. now injection H as <- <-.
  - apply greedy_all.
  - apply greedy_all.
  - destruct s as [|c' s]; [intros []|]. simpl.
    destruct (none_of c c') eqn:Hc; [|intros []]. intros H.
    apply in_map_iff in H. destruct H as [[x' r'] [E Hin]].
    unfold push in E. simpl in E. injection E as <- <-.
    split; [discriminate|]. simpl. rewrite Hc. exact (greedy_all _ _ _ _ Hin).
  - trivial.
Qed.

Lemma match_seq_matches (atoms : list atom) (s x r : str) :
  In (x, r) (match_seq atoms s) -> matches atoms x.
Proof.
  revert s x r. induction atoms as [|a atoms IH]; intros s x r H;
    cbn [match_seq] in H.
  - destruct H as [H|[]]. now injection H as <- <-.
  - apply in_flat_map in H. destruct H as [[x1 r1] [H1 H2]].
    apply in_map_iff in H2. destruct H2 as [[x2 r2] [E H2]].
    cbn [fst snd] in E, H2. injection E as <- <-.
    exists x1, x2. split; [reflexivity|]. split.
    + exact (match_atom_matches _ _ _ _ H1).
    + exact (IH _ _ _ H2).
Qed.

(** A match taken apart, with what each of its three parts is. *)
Lemma match_here_matches (re : anchor_regex) (s g1 g3 post : str) :
  match_here re s = Some (g1, g3, post) ->
  exists old,
    s = g1 ++ old ++ g3 ++ post /\
    matches (start_group re) g1 /\ matches (middle re) old /\
    matches (end_group re) g3.
Proof.
  unfold match_here. intros H.
  apply first_of_Some in H. destruct H as [[x1 r1] [H1 H]].
  apply first_of_Some in H. destruct H as [[x2 r2] [H2 H]].
  apply first_of_Some in H. destruct H as [[x3 r3] [H3 H]].
  simpl in H, H2, H3. injection H as <- <- <-.
  exists x2. split; [|split; [|split]].
  - rewrite (match_seq_sound _ _ _ _ H1), (match_seq_sound _ _ _ _ H2).
    now rewrite (match_seq_sound _ _ _ _ H3).
  - exact (match_seq_matches _ _ _ _ H1).
  - exact (match_seq_matches _ _ _ _ H2).
  - exact (match_seq_matches _ _ _ _ H3).
Qed.

Lemma forallb_none_of_60 (x : str) :
  forallb (none_of 60) x = true -> no_lt x = true.
Proof. trivial. Qed.

Lemma nonempty_of (x : str) : x <> [] -> nonempty x = true.
Proof. destruct x; [congruence|reflexivity]. Qed.

(** What a pattern matches is an anchor region of its kind. *)
Lemma matched_region (k : kind) (g1 old g3 : str) :
  matches (start_group (regex_of k)) g1 ->
  matches (middle (regex_of k)) old ->
  matches (end_group (regex_of k)) g3 ->
  exists r : anchor_region,
    r_kind r = k /\ r_inner r = old /\ start_text r = g1 /\ end_text r = g3 /\
    forallb is_space (r_space1 r) = true /\
    forallb is_space (r_space2 r) = true /\
    forallb (none_of 62) (r_attrs r) = true /\ inner_shape k old.
Proof.
  destruct k; cbn [regex_of structuredDataRegex addressBarRegex navBrandRegex
    brandHeaderRegex hoursTableRegex phoneRegex addressRegex start_group
    middle end_group]; intros H1 H2 H3; take_apart.
  all: match goal with
       | |- exists r, r_kind r = NavBrand /\ _ =>
           eexists (Build_anchor_region NavBrand _ _ _ _)
       | |- exists r, r_kind r = HoursTable /\ _ =>
           eexists (Build_anchor_region HoursTable [] [] _ [])
       | |- exists r, r_kind r = ?k /\ _ =>
           eexists (Build_anchor_region k _ [] _ _)
       end;
    unfold start_text, end_text;
    cbn [r_kind r_space1 r_space2 r_attrs r_inner sentinel open_tag
         close_tag inner_shape forallb];
    rewrite ?app_nil_r;
    repeat match goal with |- _ /\ _ => split end;
    try reflexivity; try assumption; try (now apply nonempty_of).
  eexists _, _. repeat split; try reflexivity; try assumption;
    now apply nonempty_of.
Qed.

(** X10: whatever the document, a step of the script either finds no match
    and changes nothing, or replaces what stands between the two groups of
    one anchor region of its kind: the opening sentinel, the white space and
    the opening tag before it and the closing tag, the white space and the
    closing sentinel after it are kept, and so is everything outside the
    region.  A text anchor is replaced only if it holds a text without
    "<" that is not empty, the contact address only if it holds two such
    lines around a line break. *)
Theorem step_replaces_inner_text_of_one_region (k : kind) (f c : str)
    (u : bool) :
  (test (regex_of k) c = false /\
   replace_anchor (regex_of k) f (c, u) = (c, u)) \/
  (exists (pre post : str) (r : anchor_region),
     r_kind r = k /\
     forallb is_space (r_space1 r) = true /\
     forallb is_space (r_space2 r) = true /\
     forallb (none_of 62) (r_attrs r) = true /\
     inner_shape k (r_inner r) /\
     c = pre ++ region_text r ++ post /\
     replace_anchor (regex_of k) f (c, u) =
       (pre ++ region_text (set_inner r f) ++ post, true)).
Proof.
  unfold test, replace_anchor. cbn [fst].
  destruct (exec (regex_of k) c) as [[[[pre g1] g3] post]|] eqn:E;
    [right|left; auto].
  destruct (exec_Some _ _ _ _ _ _ E) as [t [-> Ht]].
  destruct (match_here_matches _ _ _ _ _ Ht) as [old [-> [H1 [H2 H3]]]].
  destruct (matched_region k g1 old g3 H1 H2 H3)
    as [r [Hk [Hi [Hs [He [W1 [W2 [Wa Hin]]]]]]]].
  exists pre, post, r. rewrite Hi. repeat split; try assumption.
  - unfold region_text. rewrite Hs, He, Hi. now rewrite <- !app_assoc.
  - unfold region_text, set_inner, start_text, end_text in *.
    cbn [r_kind r_space1 r_space2 r_attrs r_inner] in *.
    rewrite Hs, He. now rewrite <- !app_assoc.
Qed.

(** ** The hours anchor *)

Lemma scan_space {A : Type} (e : str -> option A) (c : N) (t : str) :
  is_space c = true -> scan e (c :: t) = scan e t.
Proof.
  intros Hc. cbn [scan drop_while]. rewrite Hc.
  destruct t as [|d t]; cbn [scan]; now destruct (e _).
Qed.

Lemma scan_drop_spaces {A : Type} (e : str -> option A) (t : str) :
  scan e t = scan e (drop_while is_space t).
Proof.
  induction t as [|c t IH]; [reflexivity|].
  cbn [drop_while]. destruct (is_space c) eqn:Hc; [|reflexivity].
  now rewrite scan_space.
Qed.

Lemma scan_greedy {A : Type} (e : str -> option A) (s : str) (p : str * str) :
  In p (greedy is_space s) ->
  scan e (snd p) = scan e (drop_while is_space s).
Proof.
  revert p. induction s as [|c s IH]; intros p H; simpl in H.
  - destruct H as [<-|[]]. reflexivity.
  - cbn [drop_while]. destruct (is_space c) eqn:Hc.
    + apply in_app_or in H. destruct H as [H|[<-|[]]].
      * apply in_map_iff in H. destruct H as [q [<- Hq]].
        unfold push. cbn [snd]. now apply IH.
      * cbn [snd]. rewrite scan_space by assumption.
        apply scan_drop_spaces.
    + destruct H as [<-|[]]. reflexivity.
Qed.

Lemma first_of_constant {A B : Type} (f : A -> option B) (l : list A)
    (v : option B) :
  l <> [] -> (forall x, In x l -> f x = v) -> first_of f l = v.
Proof.
  induction l as [|a l IH]; intros Hne H; [congruence|].
  simpl. rewrite (H a (or_introl eq_refl)).
  destruct v as [y|]; [reflexivity|].
  destruct l as [|b l]; [reflexivity|].
  apply IH; [discriminate|]. intros x Hx. apply H. now right.
Qed.

Lemma greedy_nonempty (p : N -> bool) (s : str) : greedy p s <> [].
Proof. destruct (greedy_head p s) as [tl ->]. discriminate. Qed.

(** The lazy middle finds what [scan] finds. *)
Lemma lazy_middle_scan {A : Type} (e : str -> option A) (s : str) :
  (forall c u, is_space c = true -> e (c :: u) = None) ->
  first_of (fun q => e (snd q)) (match_seq [Spaces; AnyLazy; Spaces] s)
  = scan e (drop_while is_space s).
Proof.
  intros He. rewrite first_of_match_seq_cons. unfold match_atom.
  apply first_of_constant; [apply greedy_nonempty|].
  intros p Hp. cbn [snd]. rewrite (lazy_scan e _ He). now apply scan_greedy.
Qed.

Lemma after_END_space (c : N) (u : str) :
  is_space c = true -> after_END (c :: u) = None.
Proof.
  intros Hc. unfold after_END. rewrite END_head. cbn [strip_prefix].
  destruct (N.eqb_spec 60 c) as [<-|]; [discriminate Hc|reflexivity].
Qed.

Lemma first_of_lit_only {A : Type} (k : str * str -> option A) (l s : str) :
  first_of k (match_seq [Lit l] s) =
  match strip_prefix l s with
  | Some r => k (l, r)
  | None => None
  end.
Proof.
  simpl. destruct (strip_prefix l s); [|reflexivity].
  simpl. rewrite app_nil_r. now destruct (k (l, l0)).
Qed.

Lemma scan_option_map {A B : Type} (e : str -> option A) (g : A -> B)
    (t : str) :
  scan (fun u => option_map g (e u)) t = option_map g (scan e t).
Proof.
  induction t as [|c t IH]; cbn [scan].
  - now destruct (e _).
  - destruct (e _); [reflexivity|exact IH].
Qed.

Lemma match_here_hours (s : str) :
  match_here hoursTableRegex s =
  match strip_prefix (sentinel HoursTable) s with
  | Some r =>
      option_map (fun post => (sentinel HoursTable, END_AUTO_UPDATE, post))
                 (scan after_END (drop_while is_space r))
  | None => None
  end.
Proof.
  unfold match_here. cbn [hoursTableRegex start_group middle end_group].
  change (js "<!-- AUTO-UPDATE: Business hours table -->")
    with (sentinel HoursTable).
  rewrite first_of_lit_only.
  destruct (strip_prefix (sentinel HoursTable) s) as [r|]; [|reflexivity].
  cbn [fst snd].
  set (e := fun u : str =>
              option_map
                (fun post => (sentinel HoursTable, END_AUTO_UPDATE, post))
                (after_END u)).
  rewrite (first_of_ext _ (fun q => e (snd q))).
  - rewrite lazy_middle_scan.
    + subst e. apply scan_option_map.
    + intros c u Hc. subst e. cbn beta. now rewrite after_END_space.
  - intros p2. rewrite first_of_lit_only. subst e. unfold after_END.
    now destruct (strip_prefix END_AUTO_UPDATE (snd p2)).
Qed.

Lemma spaces_before_lt (w x a y : str) :
  forallb is_space w = true -> w ++ x = a ++ 60%N :: y ->
  (List.length w <= List.length a)%nat.
Proof.
  revert a. induction w as [|c w IH]; intros a Hw E; [simpl; lia|].
  simpl in Hw. apply andb_prop in Hw. destruct Hw as [Hc Hw].
  destruct a as [|c' a]; simpl in E.
  - injection E as -> _. discriminate Hc.
  - injection E as _ E. simpl. apply IH in E; [lia|assumption].
Qed.

Lemma app_split_le {A : Type} (w x a y : list A) :
  w ++ x = a ++ y -> (List.length w <= List.length a)%nat ->
  exists z, a = w ++ z /\ x = z ++ y.
Proof.
  revert a. induction w as [|c w IH]; intros a E L.
  - exists a. auto.
  - destruct a as [|c' a]; [simpl in L; lia|].
    simpl in E. injection E as -> E. simpl in L.
    destruct (IH a E ltac:(lia)) as [z [-> ->]]. exists z. auto.
Qed.

Lemma after_END_hit (b : str) : after_END (END_AUTO_UPDATE ++ b) = Some b.
Proof. apply strip_prefix_app. Qed.

Lemma drop_spaces_END (b : str) :
  drop_while is_space (END_AUTO_UPDATE ++ b) = END_AUTO_UPDATE ++ b.
Proof. reflexivity. Qed.

Lemma scan_hit {A : Type} (e : str -> option A) (t : str) (y : A) :
  e (drop_while is_space t) = Some y -> scan e t = Some y.
Proof. destruct t; cbn [scan]; now intros ->. Qed.

(** The closing sentinel that [scan] finds is the first one in the text. *)
Lemma scan_after_END_first (t post : str) :
  scan after_END t = Some post ->
  exists old,
    t = old ++ END_AUTO_UPDATE ++ post /\
    forall a b, t = a ++ END_AUTO_UPDATE ++ b ->
                (List.length old <= List.length a)%nat.
Proof.
  assert (Hit : forall t post,
            after_END (drop_while is_space t) = Some post ->
            exists old,
              t = old ++ END_AUTO_UPDATE ++ post /\
              forall a b, t = a ++ END_AUTO_UPDATE ++ b ->
                          (List.length old <= List.length a)%nat).
  { clear. intros t post E. unfold after_END in E.
    apply strip_prefix_Some in E.
    exists (take_while is_space t). split.
    - rewrite <- E. symmetry. apply take_drop_while.
    - intros a b Ht. rewrite END_head in Ht. cbn [app] in Ht.
      apply (spaces_before_lt _ (drop_while is_space t) _ (END_tail ++ b)).
      + apply take_while_forallb.
      + now rewrite take_drop_while. }
  induction t as [|c t IH]; cbn [scan]; intros H.
  - destruct (after_END (drop_while is_space [])) eqn:E; [|discriminate].
    injection H as ->. now apply Hit.
  - destruct (after_END (drop_while is_space (c :: t))) eqn:E.
    + injection H as ->. now apply Hit.
    + destruct (IH H) as [old [-> Hmin]]. exists (c :: old).
      split; [reflexivity|]. intros a b Ht. destruct a as [|c' a].
      * exfalso. cbn [app] in Ht. rewrite Ht in E.
        rewrite drop_spaces_END, after_END_hit in E. discriminate.
      * cbn [app] in Ht. injection Ht as _ Ht. simpl.
        specialize (Hmin a b Ht). lia.
Qed.

Lemma scan_after_END_complete (a b : str) :
  scan after_END (a ++ END_AUTO_UPDATE ++ b) <> None.
Proof.
  induction a as [|c a IH].
  - cbn [app]. rewrite (scan_hit after_END _ b); [discriminate|].
    rewrite drop_spaces_END. apply after_END_hit.
  - cbn [app scan]. destruct (after_END _); [discriminate|exact IH].
Qed.

Lemma exec_leftmost (re : anchor_regex) (s pre g1 g3 post : str) :
  exec re s = Some (pre, g1, g3, post) ->
  forall a b, s = a ++ b -> (List.length a < List.length pre)%nat ->
              match_here re b = None.
Proof.
  revert pre. induction s as [|c s IH]; intros pre H a b E L;
    rewrite exec_eq in H.
  - destruct (match_here re []) as [[[x y] z]|]; [|discriminate].
    injection H as <- _ _ _. simpl in L. lia.
  - destruct (match_here re (c :: s)) as [[[x y] z]|] eqn:M.
    + injection H as <- _ _ _. simpl in L. lia.
    + destruct (exec re s) as [[[[pre' x] y] z]|] eqn:E'; [|discriminate].
      injection H as <- <- <- <-. destruct a as [|c' a].
      * simpl in E. now subst b.
      * simpl in E. injection E as _ E. simpl in L.
        apply (IH pre' eq_refl a b E). lia.
Qed.

Lemma exec_complete (re : anchor_regex) (a t : str) :
  match_here re t <> None -> exec re (a ++ t) <> None.
Proof.
  intros H. induction a as [|c a IH]; rewrite exec_eq.
  - cbn [app]. destruct (match_here re t) as [[[x y] z]|];
      [discriminate|congruence].
  - cbn [app]. destruct (match_here re (c :: a ++ t)) as [[[x y] z]|];
      [discriminate|].
    destruct (exec re (a ++ t)) as [[[[p x] y] z]|];
      [discriminate|congruence].
Qed.

Lemma match_here_hours_complete (b d : str) :
  match_here hoursTableRegex
    (sentinel HoursTable ++ b ++ END_AUTO_UPDATE ++ d) <> None.
Proof.
  rewrite match_here_hours, strip_prefix_app, <- scan_drop_spaces.
  pose proof (scan_after_END_complete b d) as H.
  destruct (scan after_END _); [discriminate|congruence].
Qed.

(** X11: whatever the document, the hours anchor that the script replaces
    starts at the first opening sentinel of the hours table in the document
    and ends at the first closing sentinel after it: the pattern does not
    run on to a later closing sentinel. *)
Theorem hours_anchor_runs_to_nearest_end (c pre g1 g3 post : str) :
  exec hoursTableRegex c = Some (pre, g1, g3, post) ->
  exists old : str,
    g1 = sentinel HoursTable /\ g3 = END_AUTO_UPDATE /\
    c = pre ++ sentinel HoursTable ++ old ++ END_AUTO_UPDATE ++ post /\
    (forall a b, c = a ++ sentinel HoursTable ++ b ->
                 (List.length pre <= List.length a)%nat) /\
    (forall a b, old ++ END_AUTO_UPDATE ++ post = a ++ END_AUTO_UPDATE ++ b ->
                 (List.length old <= List.length a)%nat).
Proof.
  intros H. pose proof (exec_leftmost _ _ _ _ _ _ H) as Hleft.
  destruct (exec_Some _ _ _ _ _ _ H) as [t [-> Ht]].
  rewrite match_here_hours in Ht.
  destruct (strip_prefix (sentinel HoursTable) t) as [r|] eqn:S;
    [|discriminate].
  apply strip_prefix_Some in S. subst t.
  rewrite <- scan_drop_spaces in Ht.
  destruct (scan after_END r) as [post'|] eqn:Sc; [|discriminate].
  cbn [option_map] in Ht. injection Ht as <- <- <-.
  destruct (scan_after_END_first _ _ Sc) as [old [-> Hmin]].
  exists old. repeat split; try assumption.
  intros a b E.
  destruct (Nat.le_gt_cases (List.length pre) (List.length a)) as [L|L];
    [exact L|exfalso].
  specialize (Hleft a (sentinel HoursTable ++ b) E L).
  symmetry in E.
  destruct (app_split_le _ _ _ _ E ltac:(lia)) as [z [-> E']].
  rewrite !app_assoc in E'. rewrite <- (app_assoc _ _ post') in E'.
  destruct (app_split_le (sentinel HoursTable) b
              ((z ++ sentinel HoursTable) ++ old)
              (END_AUTO_UPDATE ++ post') E') as [q [_ ->]].
  { rewrite !length_app. lia. }
  now apply (match_here_hours_complete q post').
Qed.

Lemma hours_anchor_runs_to_nearest_end_witness :
  exists old : str,
    sentinel HoursTable = sentinel HoursTable /\
    END_AUTO_UPDATE = END_AUTO_UPDATE /\
    js "<p>a</p><!-- AUTO-UPDATE: Business hours table --> x <!-- END AUTO-UPDATE --><!-- END AUTO-UPDATE -->"
    = js "<p>a</p>" ++ sentinel HoursTable ++ old ++ END_AUTO_UPDATE
      ++ END_AUTO_UPDATE /\
    (forall a b,
       js "<p>a</p><!-- AUTO-UPDATE: Business hours table --> x <!-- END AUTO-UPDATE --><!-- END AUTO-UPDATE -->"
       = a ++ sentinel HoursTable ++ b ->
       (List.length (js "<p>a</p>") <= List.length a)%nat) /\
    (forall a b,
       old ++ END_AUTO_UPDATE ++ END_AUTO_UPDATE = a ++ END_AUTO_UPDATE ++ b ->
       (List.length old <= List.length a)%nat).
Proof.
  apply (hours_anchor_runs_to_nearest_end
           (js "<p>a</p><!-- AUTO-UPDATE: Business hours table --> x <!-- END AUTO-UPDATE --><!-- END AUTO-UPDATE -->")
           (js "<p>a</p>") (sentinel HoursTable) END_AUTO_UPDATE
           END_AUTO_UPDATE).
  vm_compute. reflexivity.
Defined.

Lemma hours_anchor_found (a b d : str) :
  test hoursTableRegex
    (a ++ sentinel HoursTable ++ b ++ END_AUTO_UPDATE ++ d) = true.
Proof.
  unfold test.
  pose proof (exec_complete hoursTableRegex a _
                (match_here_hours_complete b d)) as H.
  destruct (exec hoursTableRegex _); [reflexivity|congruence].
Qed.

(** X12: the hours step applies exactly to the documents that hold an
    opening sentinel of the hours table with a closing sentinel somewhere
    after it; nothing else is asked of what stands between the two. *)
Theorem hours_anchor_found_iff_sentinel_then_end (c : str) :
  test hoursTableRegex c = true <->
  exists a b d : str,
    c = a ++ sentinel HoursTable ++ b ++ END_AUTO_UPDATE ++ d.
Proof.
  split; [unfold test|].
  - destruct (exec hoursTableRegex c) as [[[[pre g1] g3] post]|] eqn:E;
      [intros _|discriminate].
    destruct (exec_sound _ _ _ _ _ _ E) as [old ->].
    destruct (exec_hours_groups _ _ _ _ _ E) as [-> ->].
    now exists pre, old, post.
  - intros [a [b [d ->]]]. apply hours_anchor_found.
Qed.

Lemma hours_anchor_found_iff_sentinel_then_end_witness :
  test hoursTableRegex
    (js "<h2>Hours</h2>" ++ sentinel HoursTable ++ js "<table></table>"
     ++ END_AUTO_UPDATE ++ js "<footer></footer>") = true.
Proof.
  apply (proj2 (hours_anchor_found_iff_sentinel_then_end _)).
  exists (js "<h2>Hours</h2>"), (js "<table></table>"),
    (js "<footer></footer>").
  reflexivity.
Defined.

(** ** The run over the four pages *)

Lemma update_content_flag (bd : BusinessData) (now : Z)
    (filePath content : str) :
  snd (update_content bd now filePath content) = matched_any filePath content
  /\ (matched_any filePath content = false ->
      patched bd now filePath content = content).
Proof.
  unfold patched, matched_any. rewrite update_content_steps.
  rewrite <- anchors_for_steps with (bd := bd) (now := now).
  apply run_steps_flag.
Qed.

(** One page: the world after it, the line printed, the count. *)
Lemma main_step_line (bd : BusinessData) (now : Z) (publicDir : str)
    (w : World) (log : list report) (count : Z) (fileName : str) :
  exists w',
    main_step bd now publicDir (w, log, count) fileName =
      (w', log ++ [report_line publicDir w fileName],
       count + (if is_updated (report_line publicDir w fileName)
                then 1 else 0)) /\
    (forall q,
       files w' q =
       if str_eqb q (path_join publicDir fileName)
       then option_map (patched bd now q) (files w q)
       else files w q) /\
    writes w' =
      (if is_updated (report_line publicDir w fileName)
       then [path_join publicDir fileName] else []) ++ writes w.
Proof.
  unfold main_step, report_line, existsSync, updateHTMLFile.
  set (p := path_join publicDir fileName).
  destruct (files w p) as [content|] eqn:F.
  - destruct (update_content_flag bd now p content) as [Hs Hf].
    assert (P : forall q, str_eqb q p = true ->
                patched bd now q content
                = fst (update_content bd now p content)).
    { intros q E. apply str_eqb_eq in E. now subst q. }
    destruct (update_content bd now p content) as [c' u]. cbn [fst snd] in *.
    subst u. destruct (matched_any p content); cbn [is_updated].
    + eexists. split; [reflexivity|]. split; [|reflexivity].
      intros q. cbn [files writeFileSync].
      destruct (str_eqb q p) eqn:E; [|reflexivity].
      rewrite <- (P q E). apply str_eqb_eq in E. subst q. now rewrite F.
    + eexists. rewrite Z.add_0_r. split; [reflexivity|].
      split; [|reflexivity]. intros q.
      destruct (str_eqb q p) eqn:E; [|reflexivity].
      apply str_eqb_eq in E. subst q. rewrite F. cbn [option_map].
      now rewrite (Hf eq_refl).
  - eexists. rewrite Z.add_0_r. split; [reflexivity|].
    split; [|reflexivity]. intros q.
    destruct (str_eqb q p) eqn:E; [|reflexivity].
    apply str_eqb_eq in E. subst q. now rewrite F.
Qed.

Lemma updated_names_line (publicDir : str) (w : World) (fileName : str) :
  updated_names [report_line publicDir w fileName] =
  if is_updated (report_line publicDir w fileName) then [fileName] else [].
Proof.
  unfold report_line.
  destruct (files w (path_join publicDir fileName)) as [c|]; [|reflexivity].
  now destruct (matched_any _ c).
Qed.

Lemma updated_names_cons (r : report) (log : list report) :
  updated_names (r :: log) = updated_names [r] ++ updated_names log.
Proof. unfold updated_names. simpl. now rewrite app_nil_r. Qed.

Lemma report_line_same_file (publicDir : str) (w w' : World)
    (fileName : str) :
  files w' (path_join publicDir fileName)
    = files w (path_join publicDir fileName) ->
  report_line publicDir w' fileName = report_line publicDir w fileName.
Proof. unfold report_line. now intros ->. Qed.

Lemma existsb_path_false (publicDir q : str) (l : list str) :
  ~ In q (map (path_join publicDir) l) ->
  existsb (fun n => str_eqb q (path_join publicDir n)) l = false.
Proof.
  induction l as [|n l IH]; intros H; [reflexivity|]. simpl in *.
  destruct (str_eqb q (path_join publicDir n)) eqn:E.
  - apply str_eqb_eq in E. exfalso. apply H. now left.
  - apply IH. intros Hin. apply H. now right.
Qed.

(** The run over any list of pages whose paths differ. *)
Lemma main_fold (bd : BusinessData) (now : Z) (publicDir : str)
    (l : list str) :
  NoDup (map (path_join publicDir) l) ->
  forall (w : World) (log : list report) (count : Z),
  exists w',
    fold_left (main_step bd now publicDir) l (w, log, count) =
      (w', log ++ map (report_line publicDir w) l,
       count + Z.of_nat (List.length
                 (filter is_updated (map (report_line publicDir w) l)))) /\
    (forall q,
       files w' q =
       if existsb (fun n => str_eqb q (path_join publicDir n)) l
       then option_map (patched bd now q) (files w q)
       else files w q) /\
    writes w' =
      rev (map (path_join publicDir)
             (updated_names (map (report_line publicDir w) l)))
      ++ writes w.
Proof.
  induction l as [|n l IH]; intros Hnd w log count.
  - exists w. cbn. rewrite app_nil_r, Z.add_0_r. auto.
  - cbn [map] in Hnd. apply NoDup_cons_iff in Hnd. destruct Hnd as [Hn Hnd].
    destruct (main_step_line bd now publicDir w log count n)
      as [w1 [E1 [F1 W1]]].
    cbn [fold_left]. rewrite E1.
    destruct (IH Hnd w1 (log ++ [report_line publicDir w n])
                (count + (if is_updated (report_line publicDir w n)
                          then 1 else 0)))
      as [w' [E [F W]]].
    assert (L : map (report_line publicDir w1) l
                = map (report_line publicDir w) l).
    { apply map_ext_in. intros n' Hn'. apply report_line_same_file.
      rewrite F1.
      destruct (str_eqb (path_join publicDir n') (path_join publicDir n))
        eqn:Eq; [|reflexivity].
      apply str_eqb_eq in Eq. exfalso. apply Hn. rewrite <- Eq.
      now apply in_map. }
    rewrite L in E, W. exists w'. split; [|split].
    + rewrite E. cbn [map filter]. rewrite <- app_assoc. cbn [app].
      f_equal. destruct (is_updated (report_line publicDir w n));
        cbn [List.length]; lia.
    + intros q. rewrite F, F1. cbn [existsb].
      destruct (str_eqb q (path_join publicDir n)) eqn:Eq; cbn [orb].
      * rewrite existsb_path_false; [reflexivity|].
        apply str_eqb_eq in Eq. now subst q.
      * reflexivity.
    + rewrite W, W1. cbn [map]. rewrite updated_names_cons.
      rewrite updated_names_line.
      destruct (is_updated (report_line publicDir w n)); cbn [app map rev].
      * now rewrite <- app_assoc.
      * reflexivity.
Qed.

Lemma path_join_inj (publicDir a b : str) :
  path_join publicDir a = path_join publicDir b -> a = b.
Proof.
  unfold path_join. intros H. apply app_inv_head in H.
  now apply app_inv_head in H.
Qed.

Lemma htmlFiles_NoDup (publicDir : str) :
  NoDup (map (path_join publicDir) htmlFileNames).
Proof.
  assert (H : NoDup htmlFileNames).
  { unfold htmlFileNames.
    repeat (constructor;
            [cbn [In]; intros H;
             repeat (destruct H as [H|H]; [discriminate H|]); exact H|]).
    constructor. }
  revert H. generalize htmlFileNames. induction 1 as [|n l Hn Hl IH]; cbn.
  - constructor.
  - constructor; [|exact IH]. intros Hin. apply in_map_iff in Hin.
    destruct Hin as [m [E Hm]]. apply path_join_inj in E. now subst m.
Qed.

Lemma main_files (bd : BusinessData) (now : Z) (publicDir : str) (w : World)
    (q : str) :
  files (fst (fst (main bd now publicDir w))) q =
  if listed publicDir q
  then option_map (patched bd now q) (files w q)
  else files w q.
Proof.
  unfold main, listed.
  destruct (main_fold bd now publicDir htmlFileNames
              (htmlFiles_NoDup publicDir) w [] 0) as [w' [E [F _]]].
  rewrite E. cbn [fst]. apply F.
Qed.

(** X13: after the run, each of the four pages that exists holds the
    result of patching its own content as it was before the run, whatever
    the other pages hold; a page that does not exist is not created, and no
    other file is changed. *)
Theorem main_patches_each_page_on_its_own
    (bd : BusinessData) (now : Z) (publicDir : str) (w : World) (q : str) :
  files (fst (fst (main bd now publicDir w))) q =
  if listed publicDir q
  then option_map (patched bd now q) (files w q)
  else files w q.
Proof. exact (main_files bd now publicDir w q). Qed.

(** X14: the run prints one line for each of the four pages, in their
    order, and each line depends only on that page as it was before the
    run: "not found" if it does not exist, "updated" if one of the patterns
    tried on it matches, "no updates needed" otherwise.  The count printed
    at the end is the number of pages reported as updated, and these pages,
    and no other file, have been written, once each. *)
Theorem main_reports_each_page_once
    (bd : BusinessData) (now : Z) (publicDir : str) (w : World) :
  let result := main bd now publicDir w in
  let log := snd (fst result) in
  log = map (report_line publicDir w) htmlFileNames /\
  snd result = Z.of_nat (List.length (filter is_updated log)) /\
  writes (fst (fst result)) =
    rev (map (path_join publicDir) (updated_names log)) ++ writes w.
Proof.
  unfold main.
  destruct (main_fold bd now publicDir htmlFileNames
              (htmlFiles_NoDup publicDir) w [] 0) as [w' [E [_ W]]].
  cbv zeta. rewrite E. cbn [fst snd app]. auto.
Qed.

(** ** The script before temporary closures *)

Lemma hoursBySlot_open_day (hs : list DaySchedule) (h : DaySchedule) :
  In h hs -> closed h = false -> hoursBySlot hs <> [].
Proof.
  intros Hin Hc. rewrite hoursBySlot_fold.
  destruct (fold_slots_open_day hs [] h Hin Hc) as [ds [H _]].
  intros E. rewrite E in H. destruct H.
Qed.

Lemma generateStructuredData_as_before (bd : BusinessData) (now : Z)
    (options : Options) (h : DaySchedule) :
  getActiveTemporaryClosure bd now = None ->
  In h (hours bd) -> closed h = false ->
  generateStructuredData bd now options
  = Previous.generateStructuredData bd options.
Proof.
  intros Ha Hin Hc.
  unfold generateStructuredData, Previous.generateStructuredData.
  rewrite (openingHours_open _ _ Ha).
  pose proof (hoursBySlot_open_day _ _ Hin Hc) as Hne.
  destruct (hoursBySlot (hours bd)) as [|s m]; [congruence|].
  reflexivity.
Qed.

(** X15: while no closure is active and at least one day is not marked
    closed, the closure-aware script gives the structured data of the
    earlier script, as an object and as JSON text; when every day is marked
    closed the earlier script gives an empty list of rules, where the later
    one has no such property. *)
Theorem structured_data_as_in_previous_version
    (bd : BusinessData) (now : Z) (options : Options) :
  (forall h : DaySchedule,
     getActiveTemporaryClosure bd now = None ->
     In h (hours bd) -> closed h = false ->
     generateStructuredData bd now options
       = Previous.generateStructuredData bd options /\
     generateStructuredDataJSON bd now options
       = Previous.generateStructuredDataJSON bd options) /\
  (Forall (fun h => closed h = true) (hours bd) ->
   sd_openingHoursSpecification (Previous.generateStructuredData bd options)
     = Some [] /\
   sd_openingHoursSpecification (generateStructuredData bd now options)
     = None).
Proof.
  split.
  - intros h Ha Hin Hc.
    pose proof (generateStructuredData_as_before bd now options h Ha Hin Hc)
      as E.
    split; [exact E|].
    unfold generateStructuredDataJSON, Previous.generateStructuredDataJSON.
    now rewrite E.
  - intros Hall. split.
    + unfold Previous.generateStructuredData. cbn [sd_openingHoursSpecification].
      unfold hoursBySlot. now rewrite hoursBySlot_all_closed.
    + unfold generateStructuredData. cbn [sd_openingHoursSpecification].
      now rewrite (openingHours_all_closed bd now Hall).
Qed.

Lemma structured_data_as_in_previous_version_witness :
  generateStructuredData businessData 0 no_options
    = Previous.generateStructuredData businessData no_options /\
  generateStructuredDataJSON businessData 0 no_options
    = Previous.generateStructuredDataJSON businessData no_options.
Proof.
  apply (proj1 (structured_data_as_in_previous_version businessData 0
                  no_options)
           {| day := js "Saturday"; open := Str (js "09:00");
              close := Str (js "17:00"); closed := false |}).
  - reflexivity.
  - cbn. tauto.
  - reflexivity.
Defined.

Lemma trimRight_line_feed (y : str) :
  Previous.trimRight (y ++ [62%N] ++ [10%N]) = y ++ [62%N].
Proof.
  unfold Previous.trimRight. rewrite !rev_app_distr. cbn [rev app].
  cbn [drop_spaces]. change (is_space 10) with true.
  change (is_space 62) with false. cbv iota.
  cbn [rev]. now rewrite rev_involutive.
Qed.

Lemma previous_row (h : DaySchedule) :
  Previous.hours_row h = indented_row h ++ [10%N].
Proof.
  unfold Previous.hours_row, indented_row, hours_row.
  rewrite <- !app_assoc. reflexivity.
Qed.

Lemma indented_row_end (h : DaySchedule) :
  exists y, indented_row h = y ++ [62%N].
Proof.
  unfold indented_row, hours_row.
  change (js "</td></tr>") with (js "</td></tr" ++ [62%N]).
  eexists. rewrite !app_assoc. reflexivity.
Qed.

Lemma previous_rows_joined (h : DaySchedule) (hs : list DaySchedule) :
  List.concat (map Previous.hours_row (h :: hs))
    = join [10%N] (map indented_row (h :: hs)) ++ [10%N] /\
  exists y, join [10%N] (map indented_row (h :: hs)) = y ++ [62%N].
Proof.
  revert h. induction hs as [|h' hs IH]; intros h.
  - cbn [map List.concat join]. rewrite app_nil_r. split.
    + apply previous_row.
    + apply indented_row_end.
  - destruct (IH h') as [E [y Hy]]. cbn [map] in *. rewrite join_cons.
    split.
    + cbn [List.concat] in *. rewrite E, previous_row.
      now rewrite <- !app_assoc.
    + rewrite Hy. eexists. rewrite !app_assoc. reflexivity.
Qed.

(** X16: the earlier script writes the rows of the hours table that the
    later script writes, each after twenty spaces and on a line of its own:
    the rows are separated by line feeds, and [trimRight] takes away the
    line feed after the last row and nothing else. *)
Theorem previous_table_is_the_rows_on_lines (bd : BusinessData) :
  Previous.generateHoursTableHTML bd =
  join [10%N] (map indented_row (hours bd)).
Proof.
  unfold Previous.generateHoursTableHTML.
  rewrite (fold_left_app_rows Previous.hours_row (hours bd) []).
  cbn [app]. destruct (hours bd) as [|h hs]; [reflexivity|].
  destruct (previous_rows_joined h hs) as [E [y Hy]].
  rewrite E, Hy, <- app_assoc. apply trimRight_line_feed.
Qed.

Lemma app_assoc_5 {A : Type} (a b c d e r : list A) :
  (a ++ b ++ c ++ d ++ e) ++ r = a ++ b ++ c ++ d ++ e ++ r.
Proof. now rewrite <- !app_assoc. Qed.

(** X17: every document in which the earlier script finds the anchor of
    the hours table, a table between the two sentinels, is a document in
    which the later script finds it. *)
Theorem previous_hours_anchor_is_still_found (c : str) :
  test Previous.hoursTableRegex c = true -> test hoursTableRegex c = true.
Proof.
  unfold test at 1.
  destruct (exec Previous.hoursTableRegex c) as [[[[pre g1] g3] post]|] eqn:E;
    [intros _|discriminate].
  destruct (exec_Some _ _ _ _ _ _ E) as [t [-> Ht]].
  destruct (match_here_matches _ _ _ _ _ Ht) as [old [-> [H1 [_ H3]]]].
  clear E Ht.
  cbn [Previous.hoursTableRegex start_group end_group] in H1, H3.
  take_apart.
  change (js "<!-- AUTO-UPDATE: Business hours table -->")
    with (sentinel HoursTable).
  rewrite !app_nil_r, <- !app_assoc.
  match goal with
  | |- test _ (?p ++ _ ++ ?x ++ ?T ++ ?o ++ ?T' ++ ?x' ++ _ ++ ?q) = true =>
      exact (eq_trans
               (f_equal (test hoursTableRegex)
                  (f_equal (app p)
                     (f_equal (app (sentinel HoursTable))
                        (eq_sym (app_assoc_5 x T o T' x'
                                   (END_AUTO_UPDATE ++ q))))))
               (hours_anchor_found p (x ++ T ++ o ++ T' ++ x') q))
  end.
Qed.

Lemma previous_hours_anchor_is_still_found_witness :
  test hoursTableRegex
    (js "<!-- AUTO-UPDATE: Business hours table --><table class=`business-hours-table`><tr></tr></table><!-- END AUTO-UPDATE -->")
  = true.
Proof.
  apply previous_hours_anchor_is_still_found. vm_compute. reflexivity.
Defined.

(** X18: on a page whose path does not contain "contact.html" the two
    scripts make the same document, while no closure is active and at
    least one day is not marked closed. *)
Theorem other_pages_patched_as_before
    (bd : BusinessData) (now : Z) (filePath content : str)
    (h : DaySchedule) :
  includes filePath (js "contact.html") = false ->
  getActiveTemporaryClosure bd now = None ->
  In h (hours bd) -> closed h = false ->
  update_content bd now filePath content
  = Previous.update_content bd filePath content.
Proof.
  intros Hp Ha Hin Hc.
  unfold update_content, Previous.update_content. rewrite Hp.
  unfold structuredDataFragment, Previous.structuredDataFragment,
    generateStructuredDataJSON, Previous.generateStructuredDataJSON.
  now rewrite (generateStructuredData_as_before bd now no_options h Ha Hin Hc).
Qed.

Lemma other_pages_patched_as_before_witness :
  update_content businessData 0 (js "public/index.html") currentBrandPage
  = Previous.update_content businessData (js "public/index.html")
      currentBrandPage.
Proof.
  apply (other_pages_patched_as_before businessData 0
           (js "public/index.html") currentBrandPage
           {| day := js "Saturday"; open := Str (js "09:00");
              close := Str (js "17:00"); closed := false |}).
  - reflexivity.
  - reflexivity.
  - cbn. tauto.
  - reflexivity.
Defined.

(** ** format-html.js *)

Lemma format_step_line (beautify : str -> option str) (publicDir : str)
    (w : World) (log : list FormatHtml.line) (count : Z) (fileName : str) :
  exists w',
    FormatHtml.main_step beautify publicDir (w, log, count) fileName =
      (w', log ++ [format_line beautify publicDir w fileName],
       count + (if is_formatted (format_line beautify publicDir w fileName)
                then 1 else 0)) /\
    (forall q,
       files w' q =
       if str_eqb q (path_join publicDir fileName)
       then option_map (formatted_or_kept beautify) (files w q)
       else files w q).
Proof.
  unfold FormatHtml.main_step, FormatHtml.formatHTMLFile, format_line,
    existsSync, formatted_or_kept.
  set (p := path_join publicDir fileName).
  destruct (files w p) as [content|] eqn:F.
  - destruct (beautify content) as [formatted|] eqn:B; cbn [is_formatted].
    + eexists. split; [reflexivity|]. intros q. cbn [files writeFileSync].
      destruct (str_eqb q p) eqn:E; [|reflexivity].
      apply str_eqb_eq in E. subst q. rewrite F. cbn [option_map].
      now rewrite B.
    + eexists. rewrite Z.add_0_r. split; [reflexivity|]. intros q.
      destruct (str_eqb q p) eqn:E; [|reflexivity].
      apply str_eqb_eq in E. subst q. rewrite F. cbn [option_map].
      now rewrite B.
  - eexists. rewrite Z.add_0_r. split; [reflexivity|]. intros q.
    destruct (str_eqb q p) eqn:E; [|reflexivity].
    apply str_eqb_eq in E. subst q. now rewrite F.
Qed.

Lemma format_line_same_file (beautify : str -> option str)
    (publicDir : str) (w w' : World) (fileName : str) :
  files w' (path_join publicDir fileName)
    = files w (path_join publicDir fileName) ->
  format_line beautify publicDir w' fileName
  = format_line beautify publicDir w fileName.
Proof. unfold format_line. now intros ->. Qed.

Lemma format_fold (beautify : str -> option str) (publicDir : str)
    (l : list str) :
  NoDup (map (path_join publicDir) l) ->
  forall (w : World) (log : list FormatHtml.line) (count : Z),
  exists w',
    fold_left (FormatHtml.main_step beautify publicDir) l (w, log, count) =
      (w', log ++ map (format_line beautify publicDir w) l,
       count + Z.of_nat (List.length
                 (filter is_formatted
                    (map (format_line beautify publicDir w) l)))) /\
    (forall q,
       files w' q =
       if existsb (fun n => str_eqb q (path_join publicDir n)) l
       then option_map (formatted_or_kept beautify) (files w q)
       else files w q).
Proof.
  induction l as [|n l IH]; intros Hnd w log count.
  - exists w. cbn. rewrite app_nil_r, Z.add_0_r. auto.
  - cbn [map] in Hnd. apply NoDup_cons_iff in Hnd. destruct Hnd as [Hn Hnd].
    destruct (format_step_line beautify publicDir w log count n)
      as [w1 [E1 F1]].
    cbn [fold_left]. rewrite E1.
    destruct (IH Hnd w1 (log ++ [format_line beautify publicDir w n])
                (count + (if is_formatted (format_line beautify publicDir w n)
                          then 1 else 0)))
      as [w' [E F]].
    assert (L : map (format_line beautify publicDir w1) l
                = map (format_line beautify publicDir w) l).
    { apply map_ext_in. intros n' Hn'. apply format_line_same_file.
      rewrite F1.
      destruct (str_eqb (path_join publicDir n') (path_join publicDir n))
        eqn:Eq; [|reflexivity].
      apply str_eqb_eq in Eq. exfalso. apply Hn. rewrite <- Eq.
      now apply in_map. }
    rewrite L in E. exists w'. split.
    + rewrite E. cbn [map filter]. rewrite <- app_assoc. cbn [app].
      f_equal. destruct (is_formatted (format_line beautify publicDir w n));
        cbn [List.length]; lia.
    + intros q. rewrite F, F1. cbn [existsb].
      destruct (str_eqb q (path_join publicDir n)) eqn:Eq; cbn [orb].
      * rewrite existsb_path_false; [reflexivity|].
        apply str_eqb_eq in Eq. now subst q.
      * reflexivity.
Qed.

(** X19: whatever the formatter does, the formatting run prints one line
    for each of the four pages; it replaces the content of each page that
    exists by its formatted content and leaves a page on which the formatter
    throws as it was; it creates no page and changes no other file; and the
    count printed at the end is the number of pages formatted. *)
Theorem format_run_formats_each_page_on_its_own
    (beautify : str -> option str) (publicDir : str) (w : World) :
  let result := FormatHtml.main beautify publicDir w in
  snd (fst result) = map (format_line beautify publicDir w) htmlFileNames /\
  snd result
    = Z.of_nat (List.length (filter is_formatted (snd (fst result)))) /\
  forall q : str,
    files (fst (fst result)) q =
    if listed publicDir q
    then option_map (formatted_or_kept beautify) (files w q)
    else files w q.
Proof.
  unfold FormatHtml.main, listed.
  destruct (format_fold beautify publicDir htmlFileNames
              (htmlFiles_NoDup publicDir) w [] 0) as [w' [E F]].
  cbv zeta. rewrite E. cbn [fst snd app]. auto.
Qed.

(** ** Times and closures off the beaten track *)

Lemma split_time_no_colon (s : str) :
  ~ In 58%N s -> split_time s = (s, Undefined).
Proof.
  intros H. unfold split_time. now rewrite split_on_no_sep.
Qed.

(** X20: [formatTime12Hour] gives a text for every input that is not
    empty, also when the input is no time: a text without ":" gets the
    minutes "undefined", and an hour that is not a number is shown as 12
    am. *)
Theorem formatTime12Hour_garbled_input :
  (forall s : str,
     s <> [] -> ~ In 58%N s ->
     formatTime12Hour (Str s) =
     Some (show_Z (hour12_of (parseInt10 s)) ++ js ":undefined "
           ++ ampm_of (parseInt10 s))) /\
  (forall hh mm : str,
     ~ In 58%N hh -> ~ In 58%N mm -> parseInt10 hh = None ->
     formatTime12Hour (Str (hh ++ js ":" ++ mm)) =
     Some (js "12:" ++ mm ++ js " am")).
Proof.
  split.
  - intros s Hne Hs. unfold formatTime12Hour.
    destruct s as [|c s]; [congruence|]. cbn [truthy negb to_string].
    rewrite (split_time_no_colon _ Hs). reflexivity.
  - intros hh mm Hh Hm Hp. unfold formatTime12Hour.
    rewrite truthy_app_colon. cbn [negb].
    change (to_string (Str (hh ++ js ":" ++ mm))) with (hh ++ js ":" ++ mm).
    rewrite split_time_hm by assumption. rewrite Hp. reflexivity.
Qed.

Lemma formatTime12Hour_garbled_input_witness :
  formatTime12Hour (Str (js "9")) =
    Some (show_Z (hour12_of (parseInt10 (js "9"))) ++ js ":undefined "
          ++ ampm_of (parseInt10 (js "9"))) /\
  formatTime12Hour (Str (js "noon" ++ js ":" ++ js "00")) =
    Some (js "12:" ++ js "00" ++ js " am").
Proof.
  split.
  - apply (proj1 formatTime12Hour_garbled_input (js "9")).
    + discriminate.
    + vm_compute. intuition discriminate.
  - apply (proj2 formatTime12Hour_garbled_input (js "noon") (js "00")).
    + vm_compute. intuition discriminate.
    + vm_compute. intuition discriminate.
    + reflexivity.
Defined.

Lemma date_le_antisym (a b : date) : date_le a b -> date_le b a -> a = b.
Proof.
  destruct a as [[y1 m1] d1], b as [[y2 m2] d2]. unfold date_le.
  intros H1 H2. assert (y1 = y2 /\ m1 = m2 /\ d1 = d2) as [-> [-> ->]] by lia.
  reflexivity.
Qed.

Lemma date_le_refl (a : date) : date_le a a.
Proof. destruct a as [[y m] d]. unfold date_le. lia. Qed.

Lemma date_le_trans (a b c : date) : date_le a b -> date_le b c -> date_le a c.
Proof.
  destruct a as [[y1 m1] d1], b as [[y2 m2] d2], c as [[y3 m3] d3].
  unfold date_le. lia.
Qed.

Lemma closure_active_dates (bd : BusinessData) (now : Z)
    (tc : TemporaryClosure) (s e : date) :
  temporaryClosure bd = Some tc ->
  parse_iso_date (startDate tc) = Some s ->
  parse_iso_date (endDate tc) = Some e ->
  getActiveTemporaryClosure bd now =
  if num_le (Some (MakeDate (day_number s) (MakeTime 0 0 0 0)))
            (Some (setHours0 now))
     && num_le (Some (setHours0 now))
               (Some (MakeDate (day_number e) (MakeTime 23 59 59 0)))
  then Some tc else None.
Proof.
  intros Htc Hs He.
  now destruct (closure_active_iff bd now tc s e Htc Hs He) as [E _].
Qed.

Lemma closure_active_between (bd : BusinessData) (now : Z)
    (tc : TemporaryClosure) (s e : date) :
  temporaryClosure bd = Some tc ->
  parse_iso_date (startDate tc) = Some s ->
  parse_iso_date (endDate tc) = Some e ->
  (getActiveTemporaryClosure bd now <> None <->
   date_le s (today_of now) /\ date_le (today_of now) e).
Proof.
  intros Htc Hs He.
  destruct (closure_active_iff bd now tc s e Htc Hs He) as [E [Is Ie]].
  rewrite E, <- Is, <- Ie.
  rewrite <- (num_le_start (day_number s) now).
  rewrite <- (num_le_end (day_number e) now).
  rewrite <- andb_true_iff.
  destruct (_ && _); split; intros H; try discriminate; try congruence.
Qed.

(** X21: a closure whose end date lies before its start date is never
    active, and a closure that starts and ends on the same date is active
    on that date, at every time of the day, and on no other. *)
Theorem closure_window_empty_or_one_day
    (bd : BusinessData) (tc : TemporaryClosure) (s e : date) :
  temporaryClosure bd = Some tc ->
  parse_iso_date (startDate tc) = Some s ->
  parse_iso_date (endDate tc) = Some e ->
  (~ date_le s e -> forall now : Z, getActiveTemporaryClosure bd now = None)
  /\
  (s = e ->
   forall now : Z,
     getActiveTemporaryClosure bd now = Some tc <-> today_of now = s).
Proof.
  intros Htc Hs He. split.
  - intros Hn now.
    destruct (getActiveTemporaryClosure bd now) eqn:E; [|reflexivity].
    exfalso. apply Hn.
    destruct (proj1 (closure_active_between bd now tc s e Htc Hs He))
      as [H1 H2]; [congruence|].
    exact (date_le_trans _ _ _ H1 H2).
  - intros <- now.
    pose proof (closure_active_between bd now tc s s Htc Hs He) as B.
    pose proof (closure_active_dates bd now tc s s Htc Hs He) as D.
    split.
    + intros H. destruct (proj1 B) as [H1 H2]; [congruence|].
      now apply date_le_antisym.
    + intros H.
      assert (A : getActiveTemporaryClosure bd now <> None).
      { apply B. rewrite H. split; apply date_le_refl. }
      rewrite D in *. now destruct (_ && _).
Qed.

Lemma closure_window_empty_or_one_day_witness :
  getActiveTemporaryClosure
    (set_temporaryClosure businessData (Some canadaDay))
    (MakeDate (MakeDay 2026 6 1) (MakeTime 23 59 59 999))
  = Some canadaDay.
Proof.
  apply (proj2 (closure_window_empty_or_one_day
                  (set_temporaryClosure businessData (Some canadaDay))
                  canadaDay (2026, 7, 1) (2026, 7, 1)
                  eq_refl eq_refl eq_refl) eq_refl).
  reflexivity.
Defined.

(** ** Which page is which *)

Lemma is_prefix_app_r (p a b : str) :
  is_prefix p a = true -> is_prefix p (a ++ b) = true.
Proof.
  revert a. induction p as [|x p IH]; intros a H; [reflexivity|].
  destruct a as [|y a]; [discriminate H|]. simpl in *.
  apply andb_prop in H. destruct H as [H1 H2]. rewrite H1. simpl.
  now apply IH.
Qed.

Lemma includes_app_l (a b p : str) :
  includes a p = true -> includes (a ++ b) p = true.
Proof.
  induction a as [|x a IH]; intros H.
  - simpl in H. rewrite orb_false_r in H. destruct p; [|discriminate H].
    destruct b; reflexivity.
  - simpl in H. apply orb_prop in H. simpl. destruct H as [H|H].
    + change (x :: a ++ b) with ((x :: a) ++ b).
      now rewrite (is_prefix_app_r p (x :: a) b H).
    + rewrite (IH H). apply orb_true_r.
Qed.

(** A text that does not hold the unit [c] occurs in [a ++ c :: b] only
    inside [a] or inside [b]. *)
Lemma includes_sep (c : N) (a b p : str) :
  ~ In c p -> p <> [] ->
  includes (a ++ c :: b) p = includes a p || includes b p.
Proof.
  intros Hc Hp. induction a as [|y a IH].
  - destruct p as [|x p]; [congruence|]. cbn [app includes is_prefix].
    destruct (N.eqb_spec x c) as [->|Hne].
    + exfalso. apply Hc. now left.
    + reflexivity.
  - cbn [app includes]. rewrite IH.
    change (y :: a ++ c :: b) with ((y :: a) ++ c :: b).
    destruct (is_prefix p (y :: a)) eqn:E1.
    + now rewrite (is_prefix_app_r p (y :: a) (c :: b) E1).
    + destruct (is_prefix p ((y :: a) ++ c :: b)) eqn:E2.
      * rewrite (is_prefix_stop p (y :: a) c b Hc E2) in E1. discriminate.
      * reflexivity.
Qed.

(** X22: in the run over the four pages, when the path of the directory
    contains neither "index.html" nor "contact.html", exactly the page
    index.html is taken for the index page, which keeps [servesCuisine],
    and exactly the page contact.html is taken for the contact page, which
    gets the hours table, the phone and the address.  When the path of the
    directory contains "contact.html", all four pages are taken for contact
    pages. *)
Theorem pages_told_apart_by_their_names (publicDir : str) :
  (includes publicDir (js "index.html") = false ->
   includes publicDir (js "contact.html") = false ->
   forall fileName : str,
     In fileName htmlFileNames ->
     includes (path_join publicDir fileName) (js "index.html")
       = str_eqb fileName (js "index.html") /\
     includes (path_join publicDir fileName) (js "contact.html")
       = str_eqb fileName (js "contact.html")) /\
  (includes publicDir (js "contact.html") = true ->
   forall fileName : str,
     includes (path_join publicDir fileName) (js "contact.html") = true).
Proof.
  split.
  - intros Hi Hc fileName Hin. unfold path_join.
    change (js "/" ++ fileName) with (47%N :: fileName).
    rewrite !includes_sep, Hi, Hc;
      try discriminate;
      try (intros H; vm_compute in H; intuition discriminate).
    cbn [orb].
    cbn [htmlFileNames In] in Hin.
    destruct Hin as [<-|[<-|[<-|[<-|[]]]]]; split; reflexivity.
  - intros H fileName. unfold path_join. now apply includes_app_l.
Qed.

Lemma pages_told_apart_by_their_names_witness :
  includes (path_join (js "/srv/site/public") (js "specials.html"))
           (js "index.html")
    = str_eqb (js "specials.html") (js "index.html") /\
  includes (path_join (js "/srv/site/public") (js "specials.html"))
           (js "contact.html")
    = str_eqb (js "specials.html") (js "contact.html").
Proof.
  apply (proj1 (pages_told_apart_by_their_names (js "/srv/site/public")));
    try reflexivity.
  cbn. tauto.
Defined.

(** ** Anchors that are found *)

Lemma anchors_for_kinds (filePath : str) :
  anchors_for filePath = map regex_of (kinds_for filePath).
Proof.
  unfold anchors_for, kinds_for.
  destruct (includes filePath (js "contact.html")); reflexivity.
Qed.

Lemma region_found (r : anchor_region) (pre post : str) :
  wf_region r = true ->
  test (regex_of (r_kind r)) (pre ++ region_text r ++ post) = true.
Proof.
  intros H. unfold test.
  assert (M : match_here (regex_of (r_kind r)) (region_text r ++ post)
              <> None).
  { rewrite (match_region r post H). discriminate. }
  pose proof (exec_complete _ pre _ M) as E.
  destruct (exec _ _); [reflexivity|congruence].
Qed.

(** X25: a well-formed anchor region is found by the pattern of its kind
    wherever it stands and whatever stands around it; so a page that holds
    one of a kind handled for its path is written and reported as
    updated. *)
Theorem well_formed_anchor_is_found
    (bd : BusinessData) (now : Z) (filePath pre post : str)
    (r : anchor_region) :
  wf_region r = true ->
  test (regex_of (r_kind r)) (pre ++ region_text r ++ post) = true /\
  (handled filePath (r_kind r) = true ->
   snd (update_content bd now filePath (pre ++ region_text r ++ post))
   = true).
Proof.
  intros H. split; [now apply region_found|]. intros Hk.
  destruct (update_content_flag bd now filePath
              (pre ++ region_text r ++ post)) as [-> _].
  unfold matched_any. rewrite anchors_for_kinds. apply existsb_exists.
  exists (regex_of (r_kind r)). split; [|now apply region_found].
  unfold handled in Hk. apply existsb_exists in Hk.
  destruct Hk as [k [Hin E]]. apply kind_eqb_eq in E. rewrite E.
  now apply in_map.
Qed.

Lemma well_formed_anchor_is_found_witness :
  test (regex_of (r_kind stalePhone))
       (js "<main>" ++ region_text stalePhone ++ js "</main>") = true /\
  (handled (js "public/contact.html") (r_kind stalePhone) = true ->
   snd (update_content businessData 0 (js "public/contact.html")
          (js "<main>" ++ region_text stalePhone ++ js "</main>"))
   = true).
Proof.
  apply (well_formed_anchor_is_found businessData 0
           (js "public/contact.html") (js "<main>") (js "</main>")
           stalePhone).
  reflexivity.
Defined.

(** ** The profile of the shop *)

Lemma no_closure_configured (bd : BusinessData) (now : Z) :
  temporaryClosure bd = None -> getActiveTemporaryClosure bd now = None.
Proof. intros H. unfold getActiveTemporaryClosure. now rewrite H. Qed.

(** Without a closure configured the clock plays no part. *)
Lemma update_content_any_time (bd : BusinessData) (now now' : Z)
    (filePath content : str) :
  temporaryClosure bd = None ->
  update_content bd now filePath content
  = update_content bd now' filePath content.
Proof.
  intros H.
  unfold update_content, structuredDataFragment, generateStructuredDataJSON,
    generateStructuredData, openingHours, hoursTableFragment,
    generateClosureCardHTML.
  now rewrite !(no_closure_configured bd _ H).
Qed.

Lemma shop_fragments_ok (now : Z) (filePath : str) :
  fragments_ok businessData now filePath = true.
Proof.
  unfold fragments_ok, kinds_for, fragment, structuredDataFragment,
    generateStructuredDataJSON, generateStructuredData, openingHours,
    hoursTableFragment, generateClosureCardHTML.
  rewrite !(no_closure_configured businessData now eq_refl).
  destruct (includes filePath (js "contact.html")),
    (includes filePath (js "index.html")); vm_compute; reflexivity.
Qed.

Lemma shop_second_run (now now' : Z) (filePath t0 : str) (l : body) :
  wf_text t0 = true -> wf_body l = true ->
  fst (update_content businessData now' filePath
         (fst (update_content businessData now filePath
                 (t0 ++ render_body l)))) =
  fst (update_content businessData now filePath (t0 ++ render_body l)).
Proof.
  intros Ht Hl.
  rewrite (update_content_any_time businessData now' now) by reflexivity.
  pose proof (shop_fragments_ok now filePath) as Hf.
  pose proof (fragments_ok_plain businessData now filePath Hf) as Hp.
  pose proof (wf_body_patch_all (fragment businessData now filePath)
                (kinds_for filePath) l Hl Hf) as W.
  rewrite (update_content_body businessData now filePath t0 l Ht Hl Hp).
  rewrite (update_content_body businessData now filePath t0 _ Ht W Hp).
  now rewrite patch_all_idem.
Qed.

(** X23: with the profile of business-data.js every generated fragment
    fits its anchor, at every time and for every path; so on a document
    made of text without an opening sentinel and of well-formed anchor
    regions a second run, at whatever time, changes nothing. *)
Theorem shop_profile_fits_its_anchors (now now' : Z) (filePath : str) :
  fragments_ok businessData now filePath = true /\
  forall (t0 : str) (l : body),
    wf_text t0 = true -> wf_body l = true ->
    fst (update_content businessData now' filePath
           (fst (update_content businessData now filePath
                   (t0 ++ render_body l)))) =
    fst (update_content businessData now filePath (t0 ++ render_body l)).
Proof.
  split; [apply shop_fragments_ok|]. intros t0 l. apply shop_second_run.
Qed.

Lemma shop_profile_fits_its_anchors_witness :
  fst (update_content businessData 86400000 (js "public/contact.html")
         (fst (update_content businessData 0 (js "public/contact.html")
                 (js "<!DOCTYPE html><html>" ++ render_body contactBody)))) =
  fst (update_content businessData 0 (js "public/contact.html")
         (js "<!DOCTYPE html><html>" ++ render_body contactBody)).
Proof.
  apply (proj2 (shop_profile_fits_its_anchors 0 86400000
                  (js "public/contact.html")));
    vm_compute; reflexivity.
Defined.

(** X24: with the profile of business-data.js, running the whole script a
    second time, at whatever time, leaves every file as the first run left
    it, provided each of the four pages that exists is made of text
    without an opening sentinel and of well-formed anchor regions. *)
Theorem shop_second_main_changes_no_file
    (now now' : Z) (publicDir : str) (w : World) :
  (forall fileName content,
     In fileName htmlFileNames ->
     files w (path_join publicDir fileName) = Some content ->
     well_formed_page content) ->
  forall q : str,
    files (fst (fst (main businessData now' publicDir
                       (fst (fst (main businessData now publicDir w)))))) q
    = files (fst (fst (main businessData now publicDir w))) q.
Proof.
  intros Hwf q. rewrite !main_files.
  destruct (listed publicDir q) eqn:L; [|reflexivity].
  destruct (files w q) as [content|] eqn:F; [|reflexivity].
  cbn [option_map]. f_equal.
  unfold listed in L. apply existsb_exists in L.
  destruct L as [fileName [Hin E]]. apply str_eqb_eq in E. subst q.
  destruct (Hwf fileName content Hin F) as [t0 [l [-> [Ht Hl]]]].
  unfold patched. now apply shop_second_run.
Qed.

Lemma shop_second_main_changes_no_file_witness :
  files (fst (fst (main businessData 86400000 (js "public")
                     (fst (fst (main businessData 0 (js "public")
                                  brandedSite))))))
        (js "public/index.html")
  = files (fst (fst (main businessData 0 (js "public") brandedSite)))
          (js "public/index.html").
Proof.
  apply (shop_second_main_changes_no_file 0 86400000 (js "public")
           brandedSite).
  intros fileName content Hin F. unfold brandedSite in F. cbn [files] in F.
  destruct (listed (js "public") (path_join (js "public") fileName));
    [|discriminate F].
  injection F as <-. exists (js "<!DOCTYPE html>"), brandedBody.
  split; [reflexivity|]. split; reflexivity.
Defined.
